(** * mdexplorer: the tool-mediation core, embedded and verified

    A shallow embedding of the server actions, the agent tools and the
    accept path of the markdown explorer.

    Conventions of the model.
    - A JavaScript string is a [string] of 8-bit code units, the Latin-1
      range of UTF-16; [toLowerCase], [trim] and the UTF-8 size are the
      JavaScript ones restricted to that range.
    - Paths follow the POSIX flavour of Node's [path] module ([sep] is "/");
      [process.cwd()] is the section variable [cwd].
    - The disk is a tree of directories and regular files; every [fs/promises]
      call is a computation in a state-and-exception monad over it.  The one
      unbounded loop of the program, in [duplicateFile], runs on fuel, and a
      computation whose fuel runs out has the outcome [Diverge], which no
      [catch] intercepts.
    - [readSettings()] is modelled by the settings record it returns, and
      [console.log] is not modelled. *)

From Stdlib Require Import List String Ascii Bool Arith ZArith NArith Lia.
From Stdlib Require Import Permutation Sorted DecimalString DecimalN DecimalPos Finite.
From Stdlib Require Import OrdersEx.
Import ListNotations.
Open Scope string_scope.

Set Implicit Arguments.
Set Warnings "-register-all".

(** ** JavaScript string primitives *)

Module JS.

(** [s.startsWith(p)] *)
Fixpoint startsWith (s p : string) {struct p} : bool :=
  match p, s with
  | EmptyString, _ => true
  | String x p', String c s' => Ascii.eqb c x && startsWith s' p'
  | String _ _, EmptyString => false
  end.

Definition rev_string (s : string) : string :=
  string_of_list_ascii (rev (list_ascii_of_string s)).

(** [s.endsWith(p)] *)
Definition endsWith (s p : string) : bool :=
  startsWith (rev_string s) (rev_string p).

(** [s.toLowerCase()] on Latin-1 code units: A-Z, and the accented capitals
    U+00C0..U+00DE except the multiplication sign U+00D7. *)
Definition lower_char (c : ascii) : ascii :=
  let n := nat_of_ascii c in
  if (((65 <=? n) && (n <=? 90))
      || ((192 <=? n) && (n <=? 222) && negb (n =? 215)))%nat
  then ascii_of_nat (n + 32) else c.

Fixpoint toLowerCase (s : string) : string :=
  match s with
  | EmptyString => EmptyString
  | String c s' => String (lower_char c) (toLowerCase s')
  end.

(** White space and line terminators of ECMAScript below U+0100. *)
Definition is_space (c : ascii) : bool :=
  let n := nat_of_ascii c in
  (((9 <=? n) && (n <=? 13)) || (n =? 32) || (n =? 160))%nat.

Fixpoint trimStart (s : string) : string :=
  match s with
  | EmptyString => EmptyString
  | String c s' => if is_space c then trimStart s' else s
  end.

(** [s.trim()] *)
Definition trim (s : string) : string :=
  rev_string (trimStart (rev_string (trimStart s))).

(** Size in bytes of the UTF-8 encoding ([Buffer.from(s, "utf-8").length]). *)
Fixpoint utf8_length (s : string) : nat :=
  match s with
  | EmptyString => 0
  | String c s' => (if (nat_of_ascii c <? 128)%nat then 1 else 2) + utf8_length s'
  end.

(** [String(n)] for a non-negative integer. *)
Definition string_of_N (n : N) : string :=
  NilZero.string_of_uint (N.to_uint n).

(** [s.includes(sub)] *)
Fixpoint includes (s sub : string) : bool :=
  startsWith s sub ||
  match s with
  | EmptyString => false
  | String _ s' => includes s' sub
  end.

(** JavaScript truthiness of a string. *)
Definition truthy (s : string) : bool := negb (s =? "").

(** [a || b] on strings. *)
Definition or_else (a b : string) : string := if truthy a then a else b.

(** A line feed. *)
Definition lf : string := String "010"%char EmptyString.

(** [s.split(lf)]: the lines of a text. *)
Fixpoint split_lines (s : string) : list string :=
  match s with
  | EmptyString => [EmptyString]
  | String c s' =>
      if Ascii.eqb c "010"%char then EmptyString :: split_lines s'
      else match split_lines s' with
           | line :: rest => String c line :: rest
           | [] => [String c EmptyString]
           end
  end.

(** [s.replace(/\.md$/, empty)]: without the [m] flag, [$] is the end of
    the string. *)
Definition strip_md (s : string) : string :=
  if endsWith s ".md" then substring 0 (String.length s - 3) s else s.

End JS.

(** ** Node's [path] module, POSIX flavour *)

Module Path.

Definition sep : string := "/".

Definition slash : ascii := "/"%char.

(** The segments between separators; [split "/a//b" = [""; "a"; ""; "b"]]. *)
Fixpoint split (s : string) : list string :=
  match s with
  | EmptyString => [EmptyString]
  | String c s' =>
      if Ascii.eqb c slash then EmptyString :: split s'
      else match split s' with
           | seg :: rest => String c seg :: rest
           | [] => [String c EmptyString]
           end
  end.

(** One segment of [normalizeString], on the stack of kept segments
    (innermost first). *)
Definition step (allowAboveRoot : bool) (stack : list string) (seg : string)
  : list string :=
  if (seg =? "") || (seg =? ".") then stack
  else if seg =? ".." then
    match stack with
    | top :: rest =>
        if top =? ".." then (if allowAboveRoot then seg :: stack else stack)
        else rest
    | [] => if allowAboveRoot then [seg] else []
    end
  else seg :: stack.

Definition run (allowAboveRoot : bool) (stack : list string) (segs : list string)
  : list string :=
  fold_left (step allowAboveRoot) segs stack.

Definition normalizeSegs (allowAboveRoot : bool) (segs : list string) : list string :=
  rev (run allowAboveRoot [] segs).

Definition normalizeString (path : string) (allowAboveRoot : bool) : string :=
  String.concat sep (normalizeSegs allowAboveRoot (split path)).

Definition isAbsolute (p : string) : bool := JS.startsWith p sep.

(** [path.normalize] *)
Definition normalize (p : string) : string :=
  if p =? "" then "."
  else
    let isAbs := isAbsolute p in
    let trailing := JS.endsWith p sep in
    let body := normalizeString p (negb isAbs) in
    if body =? "" then (if isAbs then "/" else if trailing then "./" else ".")
    else (if isAbs then "/" else "") ++ body ++ (if trailing then "/" else "").

(** [path.join(a, b)] *)
Definition join (a b : string) : string :=
  let joined :=
    if a =? "" then b else if b =? "" then a else a ++ sep ++ b in
  if joined =? "" then "." else normalize joined.

(** An absolute normalized path, printed. *)
Definition render (segs : list string) : string := sep ++ String.concat sep segs.

Section Resolve.

Variable cwd : string.

(** The string that [path.resolve(p)] normalizes: the argument when it is
    absolute, the working directory followed by it otherwise. *)
Definition resolve_input (p : string) : string :=
  if p =? "" then cwd ++ sep
  else if isAbsolute p then p ++ sep
  else cwd ++ sep ++ p ++ sep.

Definition resolveSegs (p : string) : list string :=
  normalizeSegs false (split (resolve_input p)).

(** [path.resolve(p)] *)
Definition resolve (p : string) : string := render (resolveSegs p).

(** The stack on which the segments of [p] are resolved: empty for an
    absolute path, the working directory otherwise. *)
Definition base_stack (p : string) : list string :=
  if isAbsolute p then [] else run false [] (split cwd).

End Resolve.

Definition nonempty (s : string) : bool := negb (s =? "").

(** [path.basename(p)]: the last component, trailing separators dropped. *)
Definition basename (p : string) : string :=
  last (filter nonempty (split p)) "".

(** [path.dirname(p)], for paths without repeated separators (every path the
    program hands to it is an output of [path.resolve]). *)
Definition dirname (p : string) : string :=
  let parent := removelast (filter nonempty (split p)) in
  if isAbsolute p then render parent
  else match parent with [] => "." | _ => String.concat sep parent end.

(** Index-free form of [path.extname] on one component: the text from the
    last dot on, unless there is no dot, the last dot opens the component,
    or the component is "..". *)
Fixpoint last_dot_suffix (s : string) : option string :=
  match s with
  | EmptyString => None
  | String c s' =>
      match last_dot_suffix s' with
      | Some e => Some e
      | None => if Ascii.eqb c "."%char then Some s else None
      end
  end.

Definition extname_component (name : string) : string :=
  match name with
  | EmptyString => ""
  | String _ rest =>
      if name =? ".." then ""
      else match last_dot_suffix rest with
           | Some e => e
           | None => ""
           end
  end.

(** [path.extname(p)] *)
Definition extname (p : string) : string := extname_component (basename p).

(** [path.basename(p, ext)]: the extension is cut when the component ends
    with it and is longer than it. *)
Definition basename_ext (p ext : string) : string :=
  let b := basename p in
  if nonempty ext && (ext =? p) then ""
  else if nonempty ext && JS.endsWith b ext && (String.length ext <? String.length b)%nat
  then substring 0 (String.length b - String.length ext) b
  else b.

(** Predicates on segments used in the statements below. *)
Fixpoint slash_free (s : string) : bool :=
  match s with
  | EmptyString => true
  | String c s' => negb (Ascii.eqb c slash) && slash_free s'
  end.

(** A segment that [normalizeString] keeps as a name. *)
Definition plain (s : string) : bool :=
  negb ((s =? "") || (s =? ".") || (s =? "..")).

(** A name a directory entry can have. *)
Definition entry_name (s : string) : bool := plain s && slash_free s.

(** What is left of two lists of segments below their common ancestor. *)
Fixpoint drop_common (from to : list string) : list string * list string :=
  match from, to with
  | x :: from', y :: to' =>
      if x =? y then drop_common from' to' else (from, to)
  | _, _ => (from, to)
  end.

Section Relative.

Variable cwd : string.

(** [path.relative(from, to)], by segments: one ".." for every segment of
    the resolved [from] below the common ancestor, then what is left of the
    resolved [to]. *)
Definition relative (from to : string) : string :=
  if from =? to then ""
  else
    let (up, down) := drop_common (resolveSegs cwd from) (resolveSegs cwd to) in
    String.concat sep (map (fun _ => "..") up ++ down).

End Relative.

(** The path a walk builds for the entry reached from [dirPath] through the
    names [rel], joining one name after the other. *)
Definition below (dirPath : string) (rel : list string) : string :=
  fold_left join rel dirPath.

(** The loop of [path.dirname]: from index [i] down to 1, the index of the
    first separator met after a character that is none. *)
Fixpoint dirname_end (p : string) (i : nat) (matchedSlash : bool) : option nat :=
  match i with
  | O => None
  | S j =>
      match String.get (S j) p with
      | Some c =>
          if Ascii.eqb c slash then
            (if matchedSlash then dirname_end p j true else Some (S j))
          else dirname_end p j false
      | None => dirname_end p j matchedSlash
      end
  end.

(** [path.dirname(p)] on any string, repeated and trailing separators
    included. *)
Definition dirname_any (p : string) : string :=
  if p =? "" then "."
  else
    let hasRoot := isAbsolute p in
    match dirname_end p (String.length p - 1) true with
    | None => if hasRoot then "/" else "."
    | Some e => if hasRoot && (e =? 1)%nat then "//" else substring 0 e p
    end.
End Path.

(** ** The disk and the [fs/promises] calls *)

Module Fs.

(** A regular file with its text, or a directory with its entries in the
    order [readdir] reports them. *)
Inductive Node : Type :=
| File (content : string)
| Dir (entries : list (string * Node)).

Definition isDir (n : Node) : bool :=
  match n with Dir _ => true | File _ => false end.

Definition isRegular (n : Node) : bool :=
  match n with File _ => true | Dir _ => false end.

Fixpoint assoc (name : string) (es : list (string * Node)) : option Node :=
  match es with
  | [] => None
  | (k, v) :: rest => if k =? name then Some v else assoc name rest
  end.

(** Replace the entry called [name], or add it after the others. *)
Fixpoint set_entry (name : string) (v : Node) (es : list (string * Node))
  : list (string * Node) :=
  match es with
  | [] => [(name, v)]
  | (k, x) :: rest =>
      if k =? name then (k, v) :: rest else (k, x) :: set_entry name v rest
  end.

Fixpoint remove_entry (name : string) (es : list (string * Node))
  : list (string * Node) :=
  match es with
  | [] => []
  | (k, x) :: rest =>
      if k =? name then rest else (k, x) :: remove_entry name rest
  end.

Fixpoint lookup (segs : list string) (n : Node) : option Node :=
  match segs with
  | [] => Some n
  | s :: rest =>
      match n with
      | File _ => None
      | Dir es =>
          match assoc s es with
          | Some c => lookup rest c
          | None => None
          end
      end
  end.

(** Put [v] at [segs]; the parent has to be an existing directory. *)
Fixpoint put (segs : list string) (v : Node) (n : Node) : option Node :=
  match segs with
  | [] => Some v
  | s :: rest =>
      match n with
      | File _ => None
      | Dir es =>
          match rest with
          | [] => Some (Dir (set_entry s v es))
          | _ :: _ =>
              match assoc s es with
              | Some c =>
                  match put rest v c with
                  | Some c' => Some (Dir (set_entry s c' es))
                  | None => None
                  end
              | None => None
              end
          end
      end
  end.

(** Unlink the node at [segs]. *)
Fixpoint remove (segs : list string) (n : Node) : option Node :=
  match segs with
  | [] => None
  | s :: rest =>
      match n with
      | File _ => None
      | Dir es =>
          match assoc s es with
          | None => None
          | Some c =>
              match rest with
              | [] => Some (Dir (remove_entry s es))
              | _ :: _ =>
                  match remove rest c with
                  | Some c' => Some (Dir (set_entry s c' es))
                  | None => None
                  end
              end
          end
      end
  end.

(** [mkdir -p]: every missing directory on the way is created; a regular
    file on the way makes it fail. *)
Fixpoint mkdir_p (segs : list string) (n : Node) : option Node :=
  match n with
  | File _ => None
  | Dir es =>
      match segs with
      | [] => Some n
      | s :: rest =>
          let c := match assoc s es with Some c => c | None => Dir [] end in
          match mkdir_p rest c with
          | Some c' => Some (Dir (set_entry s c' es))
          | None => None
          end
      end
  end.

(** A disk as an operating system keeps it: in every directory the entries
    have names a directory entry can have, and no two of them the same. *)
Fixpoint well_formed (n : Node) : bool :=
  match n with
  | File _ => true
  | Dir entries =>
      (fix all (es : list (string * Node)) : bool :=
         match es with
         | [] => true
         | (name, c) :: rest =>
             Path.entry_name name
             && negb (existsb (fun e => fst e =? name) rest)
             && well_formed c
             && all rest
         end) entries
  end.

Inductive Errno : Type :=
| ENOENT | ENOTDIR | EISDIR | EEXIST | EINVAL | ENOTEMPTY.

(** What a [catch] clause receives: a Node system error, an [Error] with
    its message, or a thrown value that is no [Error]. *)
Inductive Exn : Type :=
| SystemError (code : Errno)
| Error (message : string)
| NonError.

Definition errno_text (c : Errno) : string :=
  match c with
  | ENOENT => "ENOENT: no such file or directory"
  | ENOTDIR => "ENOTDIR: not a directory"
  | EISDIR => "EISDIR: illegal operation on a directory"
  | EEXIST => "EEXIST: file already exists"
  | EINVAL => "EINVAL: invalid argument"
  | ENOTEMPTY => "ENOTEMPTY: directory not empty"
  end.

(** [error instanceof Error ? error.message : fallback] *)
Definition message_or (fallback : string) (e : Exn) : string :=
  match e with
  | SystemError c => errno_text c
  | Error m => m
  | NonError => fallback
  end.

(** An entry of the recent-files record. *)
Record RecentFile : Type := mkRecent {
  recent_path : string;
  recent_name : string;
  recent_action : string
}.

(** Everything the server actions can change: the disk and the recent-files
    record kept next to it. *)
Record World : Type := mkWorld {
  disk : Node;
  recentFiles : list RecentFile
}.

Definition with_disk (w : World) (d : Node) : World :=
  mkWorld d (recentFiles w).

(** The result of running a computation: a value, a thrown exception, or
    no result because the step budget of a loop ran out. *)
Inductive Outcome (A : Type) : Type :=
| Ok (a : A)
| Throw (e : Exn)
| Diverge.

Arguments Ok {A} a.
Arguments Throw {A} e.
Arguments Diverge {A}.

Definition M (A : Type) : Type := World -> Outcome A * World.

Definition ret {A} (a : A) : M A := fun w => (Ok a, w).

Definition throw {A} (e : Exn) : M A := fun w => (Throw e, w).

Definition diverge {A} : M A := fun w => (Diverge, w).

Definition bind {A B} (m : M A) (k : A -> M B) : M B :=
  fun w =>
    match m w with
    | (Ok a, w') => k a w'
    | (Throw e, w') => (Throw e, w')
    | (Diverge, w') => (Diverge, w')
    end.

(** [try { body } catch (e) { handler(e) }] *)
Definition try_catch {A} (body : M A) (handler : Exn -> M A) : M A :=
  fun w =>
    match body w with
    | (Ok a, w') => (Ok a, w')
    | (Throw e, w') => handler e w'
    | (Diverge, w') => (Diverge, w')
    end.

(** [m], run in [w], ends: with a value that satisfies [P], or with an
    exception. *)
Definition settles {A} (P : A -> Prop) (m : M A) (w : World) : Prop :=
  match fst (m w) with
  | Ok a => P a
  | Throw _ => True
  | Diverge => False
  end.

(** [m], run in [w], leaves the world as it was and ends: with a value that
    satisfies [P], or with an exception. *)
Definition inspects {A} (P : A -> Prop) (m : M A) (w : World) : Prop :=
  match m w with
  | (Ok a, w') => w' = w /\ P a
  | (Throw _, w') => w' = w
  | (Diverge, _) => False
  end.

(** The listing of the directory at [segs]; empty when there is none. *)
Definition entries_at (segs : list string) (d : Node) : list (string * Node) :=
  match lookup segs d with
  | Some (Dir es) => es
  | _ => []
  end.

(** [try { await call; return true } catch { return false }]: the shape of
    every existence probe in the actions. *)
Definition succeeds {A} (call : M A) : M bool :=
  try_catch (bind call (fun _ => ret true)) (fun _ => ret false).

(** What the program reads of an [fs.Stats]. *)
Record Stats : Type := mkStats {
  st_isFile : bool;
  st_isDirectory : bool;
  st_size : nat
}.

Definition stats_of (n : Node) : Stats :=
  match n with
  | File c => mkStats true false (JS.utf8_length c)
  | Dir _ => mkStats false true 0
  end.

Fixpoint list_eqb (a b : list string) : bool :=
  match a, b with
  | [], [] => true
  | x :: a', y :: b' => (x =? y) && list_eqb a' b'
  | _, _ => false
  end.

Fixpoint is_prefix (a b : list string) : bool :=
  match a, b with
  | [], _ => true
  | x :: a', y :: b' => (x =? y) && is_prefix a' b'
  | _ :: _, [] => false
  end.

(** [rename(2)] on the tree: the source has to exist, a directory cannot go
    below itself, and an existing target is replaced only by a node of its
    kind (a directory only when it is empty). *)
Definition rename_tree (old new : list string) (n : Node) : Outcome Node :=
  match lookup old n with
  | None => Throw (SystemError ENOENT)
  | Some src =>
      let move :=
        match remove old n with
        | Some n1 =>
            match put new src n1 with
            | Some n2 => Ok n2
            | None => Throw (SystemError ENOENT)
            end
        | None => Throw (SystemError ENOENT)
        end in
      if list_eqb old new then Ok n
      else if is_prefix old new then Throw (SystemError EINVAL)
      else
        match lookup new n with
        | None => move
        | Some (File _) => if isDir src then Throw (SystemError ENOTDIR) else move
        | Some (Dir []) => if isDir src then move else Throw (SystemError EISDIR)
        | Some (Dir (_ :: _)) =>
            Throw (SystemError (if isDir src then ENOTEMPTY else EISDIR))
        end
  end.

Section Calls.

Variable cwd : string.

(** The node a path string denotes for the operating system. *)
Definition locate (p : string) : list string := Path.resolveSegs cwd p.

(** Lift a change of the tree to a call. *)
Definition update (f : Node -> Outcome Node) : M unit :=
  fun w =>
    match f (disk w) with
    | Ok d => (Ok tt, with_disk w d)
    | Throw e => (Throw e, w)
    | Diverge => (Diverge, w)
    end.

(** Lift a query of the tree to a call. *)
Definition query {A} (f : Node -> Outcome A) : M A :=
  fun w => (f (disk w), w).

Definition access (p : string) : M unit :=
  query (fun d =>
    match lookup (locate p) d with
    | Some _ => Ok tt
    | None => Throw (SystemError ENOENT)
    end).

Definition stat (p : string) : M Stats :=
  query (fun d =>
    match lookup (locate p) d with
    | Some n => Ok (stats_of n)
    | None => Throw (SystemError ENOENT)
    end).

Definition readFile (p : string) : M string :=
  query (fun d =>
    match lookup (locate p) d with
    | Some (File c) => Ok c
    | Some (Dir _) => Throw (SystemError EISDIR)
    | None => Throw (SystemError ENOENT)
    end).

Definition writeFile (p content : string) : M unit :=
  update (fun d =>
    match lookup (locate p) d with
    | Some (Dir _) => Throw (SystemError EISDIR)
    | _ =>
        match put (locate p) (File content) d with
        | Some d' => Ok d'
        | None => Throw (SystemError ENOENT)
        end
    end).

(** [fs.mkdir(p, { recursive: true })] *)
Definition mkdir_recursive (p : string) : M unit :=
  update (fun d =>
    match mkdir_p (locate p) d with
    | Some d' => Ok d'
    | None => Throw (SystemError ENOTDIR)
    end).

Definition rename (old new : string) : M unit :=
  update (rename_tree (locate old) (locate new)).

(** [fs.rm(p, { recursive: true })] *)
Definition rm_recursive (p : string) : M unit :=
  update (fun d =>
    match remove (locate p) d with
    | Some d' => Ok d'
    | None => Throw (SystemError (match locate p with [] => EINVAL | _ => ENOENT end))
    end).

Definition unlink (p : string) : M unit :=
  update (fun d =>
    match lookup (locate p) d with
    | Some (File _) =>
        match remove (locate p) d with
        | Some d' => Ok d'
        | None => Throw (SystemError ENOENT)
        end
    | Some (Dir _) => Throw (SystemError EISDIR)
    | None => Throw (SystemError ENOENT)
    end).

(** [fs.readdir(p, { withFileTypes: true })]: each entry comes with the node
    it names, which is what [isDirectory()] and a later listing of it see. *)
Definition readdir (p : string) : M (list (string * Node)) :=
  query (fun d =>
    match lookup (locate p) d with
    | Some (Dir es) => Ok es
    | Some (File _) => Throw (SystemError ENOTDIR)
    | None => Throw (SystemError ENOENT)
    end).

End Calls.

End Fs.

Declare Scope fs_scope.
Delimit Scope fs_scope with fs.
Notation "x <- m ;; k" := (Fs.bind m (fun x => k))
  (at level 61, m at next level, right associativity) : fs_scope.
Notation "m ;;; k" := (Fs.bind m (fun _ => k))
  (at level 61, right associativity) : fs_scope.

(** ** Shared types (types/index.ts) *)

Record AppSettings : Type := mkSettings {
  rootDirectory : string;
  excludedExtensions : list string;
  excludedFolders : list string
}.

Definition DEFAULT_SETTINGS : AppSettings :=
  mkSettings ""
    [".exe"; ".dll"; ".log"; ".tmp"; ".cache"]
    [".git"; "node_modules"; ".next"; ".vscode"; "__pycache__"; ".cache"].

(** The uniform result [{ success, <payload>?, error? }] of the server
    actions; the payload is the field the action names ([filePath],
    [newPath], [bytesWritten], ...). *)
Record Result (A : Type) : Type := mkResult {
  success : bool;
  payload : option A;
  error : option string
}.

(** A result is well formed when it carries an error message exactly when it
    reports failure. *)
Definition structured {A} (r : Result A) : Prop :=
  (success r = true /\ error r = None)
  \/ (success r = false /\ payload r = None /\ exists msg, error r = Some msg).

Definition succeed {A} (a : A) : Result A := mkResult true (Some a) None.

Definition succeed_plain {A} : Result A := mkResult true None None.

Definition fail {A} (msg : string) : Result A := mkResult false None (Some msg).

Inductive NodeType : Type := file | directory.

Definition NodeType_eqb (a b : NodeType) : bool :=
  match a, b with
  | file, file | directory, directory => true
  | _, _ => false
  end.

Inductive FileNode : Type :=
  mkFileNode (name path : string) (type : NodeType)
             (extension : option string) (children : option (list FileNode)).

Definition fn_name (n : FileNode) : string :=
  match n with mkFileNode name _ _ _ _ => name end.

Definition fn_path (n : FileNode) : string :=
  match n with mkFileNode _ path _ _ _ => path end.

Definition fn_type (n : FileNode) : NodeType :=
  match n with mkFileNode _ _ type _ _ => type end.

Definition fn_extension (n : FileNode) : option string :=
  match n with mkFileNode _ _ _ extension _ => extension end.

Definition fn_children (n : FileNode) : option (list FileNode) :=
  match n with mkFileNode _ _ _ _ children => children end.

(** ** actions/recent-files-actions.ts *)

Module RecentFiles.
Import Fs.
Local Open Scope fs_scope.

(** [removeRecentFile]: the entry of the path leaves the record. *)
Definition removeRecentFile (filePath : string) : M (Result unit) :=
  try_catch
    (fun w =>
       (Ok succeed_plain,
        mkWorld (disk w)
          (filter (fun f => negb (recent_path f =? filePath)) (recentFiles w))))
    (fun e => ret (fail (message_or "Unknown error" e))).

Definition MAX_RECENT_FILES : nat := 20.

(** The record is kept beside the disk, so reading and writing it succeed;
    the [timestamp] of an entry, which no action reads, is not kept. *)
Definition getRecentFiles : M (list RecentFile) :=
  fun w => (Ok (recentFiles w), w).

Definition writeRecentFiles (files : list RecentFile) : M unit :=
  fun w => (Ok tt, mkWorld (disk w) files).

Definition addRecentFile (filePath action : string) : M (Result unit) :=
  try_catch (
    recentFiles <- getRecentFiles ;;
    let fileName := Path.basename filePath in
    let newEntry := mkRecent filePath fileName action in
    let filtered := filter (fun f => negb (recent_path f =? filePath)) recentFiles in
    let updated := firstn MAX_RECENT_FILES (newEntry :: filtered) in
    writeRecentFiles updated ;;;
    ret succeed_plain)
  (fun e => ret (fail (message_or "Unknown error" e))).

Section Valid.

Variable cwd : string.

(** The loop of [getValidRecentFiles]. *)
Fixpoint keepExisting (files : list RecentFile) : M (list RecentFile) :=
  match files with
  | [] => ret []
  | f :: rest =>
      present <- succeeds (access cwd (recent_path f)) ;;
      validFiles <- keepExisting rest ;;
      ret (if present then f :: validFiles else validFiles)
  end.

Definition getValidRecentFiles : M (list RecentFile) :=
  recentFiles <- getRecentFiles ;;
  validFiles <- keepExisting recentFiles ;;
  if negb (List.length validFiles =? List.length recentFiles)%nat then
    writeRecentFiles validFiles ;;; ret validFiles
  else ret validFiles.

End Valid.

End RecentFiles.

(** ** actions/file-management-actions.ts *)

Module FileManagement.
Import Fs.
Local Open Scope fs_scope.

Section Actions.

Variable cwd : string.
Variable settings : AppSettings.

(** The [trash] package: an external collaborator that either returns or
    throws, with whatever effect on the disk. *)
Variable trashPackage : string -> World -> option Exn * World.

Definition trash (p : string) : M unit :=
  fun w =>
    match trashPackage p w with
    | (None, w') => (Ok tt, w')
    | (Some e, w') => (Throw e, w')
    end.

Record Validation : Type := mkValidation {
  valid : bool;
  resolvedPath : string;
  rootPath : string
}.

Definition validatePathSecurity (targetPath : string) : Validation :=
  let resolvedPath := Path.resolve cwd targetPath in
  let rootPath := Path.resolve cwd (rootDirectory settings) in
  mkValidation (JS.startsWith resolvedPath rootPath) resolvedPath rootPath.

Definition caught {A} (body : M (Result A)) : M (Result A) :=
  try_catch body (fun e => ret (fail (message_or "Unknown error" e))).

Definition createFile (parentPath fileName content : string) : M (Result string) :=
  caught (
    let targetDir := JS.or_else parentPath (rootDirectory settings) in
    let filePath := Path.join targetDir fileName in
    let v := validatePathSecurity filePath in
    if negb (valid v) then
      ret (fail "Access denied: Path is outside the allowed directory")
    else
      present <- succeeds (access cwd (resolvedPath v)) ;;
      if present then ret (fail "A file with this name already exists")
      else
        mkdir_recursive cwd (Path.dirname (resolvedPath v)) ;;;
        writeFile cwd (resolvedPath v) content ;;;
        ret (succeed (resolvedPath v))).

Definition renameItem (oldPath newName : string) : M (Result string) :=
  caught (
    let vOld := validatePathSecurity oldPath in
    if negb (valid vOld) then
      ret (fail "Access denied: Source path is outside the allowed directory")
    else
      let parentDir := Path.dirname (resolvedPath vOld) in
      let newPath := Path.join parentDir newName in
      let vNew := validatePathSecurity newPath in
      if negb (valid vNew) then
        ret (fail "Access denied: Destination path is outside the allowed directory")
      else
        present <- succeeds (access cwd (resolvedPath vNew)) ;;
        if present then ret (fail "An item with this name already exists")
        else
          rename cwd (resolvedPath vOld) (resolvedPath vNew) ;;;
          ret (succeed (resolvedPath vNew))).

Definition moveItem (sourcePath targetFolderPath : string) : M (Result string) :=
  caught (
    let vSrc := validatePathSecurity sourcePath in
    if negb (valid vSrc) then
      ret (fail "Access denied: Source path is outside the allowed directory")
    else
      let itemName := Path.basename (resolvedPath vSrc) in
      let destinationPath := Path.join targetFolderPath itemName in
      let vDest := validatePathSecurity destinationPath in
      if negb (valid vDest) then
        ret (fail "Access denied: Destination path is outside the allowed directory")
      else if JS.startsWith (resolvedPath vDest) (resolvedPath vSrc ++ Path.sep) then
        ret (fail "Cannot move a folder into itself")
      else
        present <- succeeds (access cwd (resolvedPath vDest)) ;;
        if present then
          ret (fail "An item with this name already exists at the destination")
        else
          mkdir_recursive cwd (Path.dirname (resolvedPath vDest)) ;;;
          rename cwd (resolvedPath vSrc) (resolvedPath vDest) ;;;
          ret (succeed (resolvedPath vDest))).

Definition deletePermanently (stats : Stats) (p : string) : M unit :=
  if st_isDirectory stats then rm_recursive cwd p else unlink cwd p.

Definition deleteItem (itemPath : string) (useTrash : bool) : M (Result unit) :=
  caught (
    let v := validatePathSecurity itemPath in
    if negb (valid v) then
      ret (fail "Access denied: Path is outside the allowed directory")
    else
      stats <- stat cwd (resolvedPath v) ;;
      (if useTrash then
         try_catch (trash (resolvedPath v))
                   (fun _ => deletePermanently stats (resolvedPath v))
       else deletePermanently stats (resolvedPath v)) ;;;
      RecentFiles.removeRecentFile (resolvedPath v) ;;;
      ret succeed_plain).

Definition createFolder (parentPath folderName : string) : M (Result string) :=
  caught (
    let targetDir := JS.or_else parentPath (rootDirectory settings) in
    let folderPath := Path.join targetDir folderName in
    let v := validatePathSecurity folderPath in
    if negb (valid v) then
      ret (fail "Access denied: Path is outside the allowed directory")
    else
      present <- succeeds (access cwd (resolvedPath v)) ;;
      if present then ret (fail "A folder with this name already exists")
      else
        mkdir_recursive cwd (resolvedPath v) ;;;
        ret (succeed (resolvedPath v))).

Definition getPathForClipboard (itemPath : string) (relative : bool)
  : M (Result string) :=
  caught (
    let resolvedPath := Path.resolve cwd itemPath in
    let rootPath := Path.resolve cwd (rootDirectory settings) in
    if negb (JS.startsWith resolvedPath rootPath) then
      ret (fail "Access denied: Path is outside the allowed directory")
    else
      let resultPath :=
        if relative then Path.relative cwd rootPath resolvedPath else resolvedPath in
      ret (succeed resultPath)).

(** The [while (true)] of [duplicateFile]; [fuel] bounds its iterations. *)
Fixpoint findFreePath (fuel : nat) (baseName ext dir newPath : string) (counter : N)
  : M string :=
  match fuel with
  | O => diverge
  | S fuel' =>
      present <- succeeds (access cwd newPath) ;;
      if present then
        let counter' := (counter + 1)%N in
        let newName := baseName ++ " copy " ++ JS.string_of_N counter' ++ ext in
        findFreePath fuel' baseName ext dir (Path.join dir newName) counter'
      else ret newPath
  end.

Definition duplicateFile (fuel : nat) (filePath : string) : M (Result string) :=
  caught (
    let v := validatePathSecurity filePath in
    if negb (valid v) then
      ret (fail "Access denied: Path is outside the allowed directory")
    else
      stats <- stat cwd (resolvedPath v) ;;
      if negb (st_isFile stats) then ret (fail "Can only duplicate files")
      else
        let ext := Path.extname (resolvedPath v) in
        let baseName := Path.basename_ext (resolvedPath v) ext in
        let dir := Path.dirname (resolvedPath v) in
        let newName := baseName ++ " copy" ++ ext in
        newPath <- findFreePath fuel baseName ext dir (Path.join dir newName) 1 ;;
        content <- readFile cwd (resolvedPath v) ;;
        writeFile cwd newPath content ;;;
        ret (succeed newPath)).

(** The three operations that make a new name, with the path they are
    about to occupy and the guards that come before the existence check. *)
Inductive Naming : Type :=
| Create (parentPath fileName content : string)
| Rename (oldPath newName : string)
| Move (sourcePath targetFolderPath : string).

Definition perform (op : Naming) : M (Result string) :=
  match op with
  | Create parentPath fileName content => createFile parentPath fileName content
  | Rename oldPath newName => renameItem oldPath newName
  | Move sourcePath targetFolderPath => moveItem sourcePath targetFolderPath
  end.

(** The resolved target path of the operation. *)
Definition target (op : Naming) : string :=
  match op with
  | Create parentPath fileName _ =>
      Path.resolve cwd
        (Path.join (JS.or_else parentPath (rootDirectory settings)) fileName)
  | Rename oldPath newName =>
      Path.resolve cwd (Path.join (Path.dirname (Path.resolve cwd oldPath)) newName)
  | Move sourcePath targetFolderPath =>
      Path.resolve cwd
        (Path.join targetFolderPath (Path.basename (Path.resolve cwd sourcePath)))
  end.

Definition inSandbox (p : string) : bool := valid (validatePathSecurity p).

(** The guards: every path argument passes the sandbox check and, for a
    move, the target is not below the source. *)
Definition admitted (op : Naming) : bool :=
  match op with
  | Create _ _ _ => JS.startsWith (target op) (Path.resolve cwd (rootDirectory settings))
  | Rename oldPath _ =>
      inSandbox oldPath
      && JS.startsWith (target op) (Path.resolve cwd (rootDirectory settings))
  | Move sourcePath _ =>
      inSandbox sourcePath
      && JS.startsWith (target op) (Path.resolve cwd (rootDirectory settings))
      && negb (JS.startsWith (target op) (Path.resolve cwd sourcePath ++ Path.sep))
  end.

Definition collisionMessage (op : Naming) : string :=
  match op with
  | Create _ _ _ => "A file with this name already exists"
  | Rename _ _ => "An item with this name already exists"
  | Move _ _ => "An item with this name already exists at the destination"
  end.

End Actions.

End FileManagement.

(** ** lib/config.ts *)

Module Config.

Definition MARKDOWN_EXTENSIONS : list string := [".md"; ".mdx"; ".markdown"].

Definition isMarkdownFile (filename : string) : bool :=
  let ext := JS.toLowerCase (Path.extname filename) in
  existsb (fun e => e =? ext) MARKDOWN_EXTENSIONS.

End Config.

(** ** actions/file-actions.ts *)

Module FileActions.
Import Fs.
Local Open Scope fs_scope.

Definition shouldExclude (name : string) (isDirectory : bool) (settings : AppSettings)
  : bool :=
  if isDirectory then
    existsb (fun folder =>
               (name =? folder) || (JS.toLowerCase name =? JS.toLowerCase folder))
            (excludedFolders settings)
  else
    let ext := JS.toLowerCase (Path.extname name) in
    existsb (fun excludedExt => ext =? JS.toLowerCase excludedExt)
            (excludedExtensions settings).

(** When an entry is excluded, in words: a directory whose name equals an
    excluded folder name up to case, or another entry whose extension equals
    an excluded extension up to case. *)
Definition Excluded (name : string) (isDirectory : bool) (settings : AppSettings)
  : Prop :=
  (isDirectory = true
   /\ exists folder, In folder (excludedFolders settings)
        /\ JS.toLowerCase name = JS.toLowerCase folder)
  \/ (isDirectory = false
      /\ exists ext, In ext (excludedExtensions settings)
           /\ JS.toLowerCase (Path.extname name) = JS.toLowerCase ext).

Section Actions.

Variable cwd : string.
Variable settings : AppSettings.

(** [String.prototype.localeCompare]: the collation of the host, a number
    that is negative, zero or positive. *)
Variable localeCompare : string -> string -> Z.

(** The comparator handed to [nodes.sort]. *)
Definition compareNodes (a b : FileNode) : Z :=
  if NodeType_eqb (fn_type a) (fn_type b) then localeCompare (fn_name a) (fn_name b)
  else match fn_type a with directory => (-1)%Z | file => 1%Z end.

(** The order the comparator stands for, and the order by name within a
    kind. *)
Definition nodeLe (a b : FileNode) : Prop := (compareNodes a b <= 0)%Z.

Definition byName (a b : FileNode) : Prop :=
  (localeCompare (fn_name a) (fn_name b) <= 0)%Z.

Fixpoint insertNode (x : FileNode) (l : list FileNode) : list FileNode :=
  match l with
  | [] => [x]
  | y :: l' =>
      if (compareNodes x y <=? 0)%Z then x :: l else y :: insertNode x l'
  end.

(** [Array.prototype.sort] is a stable sort; with a consistent comparator
    its result is the one of this stable insertion sort. *)
Definition sortNodes (l : list FileNode) : list FileNode :=
  fold_right insertNode [] l.

(** The listing of a directory that exists: the [for] loop over its entries
    and the final sort.  The recursive [readDirectory(fullPath, settings)]
    lists the entry just seen, here the node of that entry. *)
Fixpoint listTree (targetPath : string) (n : Node) {struct n} : list FileNode :=
  match n with
  | File _ => []
  | Dir entries =>
      sortNodes
        ((fix loop (es : list (string * Node)) : list FileNode :=
            match es with
            | [] => []
            | (name, c) :: rest =>
                if shouldExclude name (isDir c) settings then loop rest
                else
                  let fullPath := Path.join targetPath name in
                  (if isDir c then
                     mkFileNode name fullPath directory None
                                (Some (listTree fullPath c))
                   else
                     mkFileNode name fullPath file
                                (Some (JS.toLowerCase (Path.extname name))) None)
                  :: loop rest
            end) entries)
  end.

(** The test of the loop, on an entry of the listing. *)
Definition kept (e : string * Node) : bool :=
  negb (shouldExclude (fst e) (isDir (snd e)) settings).

(** The node the loop pushes for an entry it keeps. *)
Definition entryNode (targetPath : string) (e : string * Node) : FileNode :=
  let fullPath := Path.join targetPath (fst e) in
  if isDir (snd e) then
    mkFileNode (fst e) fullPath directory None (Some (listTree fullPath (snd e)))
  else
    mkFileNode (fst e) fullPath file
               (Some (JS.toLowerCase (Path.extname (fst e)))) None.

(** An absent [dirPath] is the empty string; [||] treats the two alike. *)
Definition readDirectory (dirPath : string) : M (list FileNode) :=
  let targetPath := JS.or_else dirPath (rootDirectory settings) in
  present <- succeeds (access cwd targetPath) ;;
  if negb present then
    mkdir_recursive cwd targetPath ;;; ret []
  else
    entries <- readdir cwd targetPath ;;
    ret (listTree targetPath (Dir entries)).

(** [readFile] returns the text itself and throws otherwise. *)
Definition readFile (filePath : string) : M string :=
  let resolvedPath := Path.resolve cwd filePath in
  let resolvedRoot := Path.resolve cwd (rootDirectory settings) in
  if negb (JS.startsWith resolvedPath resolvedRoot) then
    throw (Error "Access denied: File is outside the allowed directory")
  else
    Fs.readFile cwd resolvedPath.

Definition writeFile (filePath content : string) : M (Result unit) :=
  try_catch (
    let resolvedPath := Path.resolve cwd filePath in
    let resolvedRoot := Path.resolve cwd (rootDirectory settings) in
    if negb (JS.startsWith resolvedPath resolvedRoot) then
      throw (Error "Access denied: File is outside the allowed directory")
    else
      mkdir_recursive cwd (Path.dirname resolvedPath) ;;;
      Fs.writeFile cwd resolvedPath content ;;;
      ret succeed_plain)
  (fun e => ret (fail (message_or "Unknown error" e))).

Definition createMarkdownFile (parentPath fileName : string) : M (Result string) :=
  try_catch (
    let name := if JS.endsWith fileName ".md" then fileName else fileName ++ ".md" in
    let filePath := Path.join (JS.or_else parentPath (rootDirectory settings)) name in
    let resolvedPath := Path.resolve cwd filePath in
    let resolvedRoot := Path.resolve cwd (rootDirectory settings) in
    if negb (JS.startsWith resolvedPath resolvedRoot) then
      throw (Error "Access denied: Path is outside the allowed directory")
    else
      present <- succeeds (access cwd resolvedPath) ;;
      if present then ret (fail "File already exists")
      else
        let defaultContent :=
          "# " ++ JS.strip_md fileName ++ JS.lf ++ JS.lf
               ++ "Start writing here..." ++ JS.lf in
        Fs.writeFile cwd resolvedPath defaultContent ;;;
        ret (succeed resolvedPath))
  (fun e => ret (fail (message_or "Unknown error" e))).

Definition deleteFile (filePath : string) : M (Result unit) :=
  try_catch (
    let resolvedPath := Path.resolve cwd filePath in
    let resolvedRoot := Path.resolve cwd (rootDirectory settings) in
    if negb (JS.startsWith resolvedPath resolvedRoot) then
      throw (Error "Access denied: File is outside the allowed directory")
    else
      unlink cwd resolvedPath ;;;
      ret succeed_plain)
  (fun e => ret (fail (message_or "Unknown error" e))).

(** The loop of [searchInDirectory] over a directory that could be read; the
    recursive call reads the entry just seen, here the node of that entry. *)
Fixpoint searchTree (lowerQuery dirPath : string) (n : Node) {struct n}
  : list FileNode :=
  match n with
  | File _ => []
  | Dir entries =>
      (fix loop (es : list (string * Node)) : list FileNode :=
         match es with
         | [] => []
         | (name, c) :: rest =>
             if shouldExclude name (isDir c) settings then loop rest
             else
               let fullPath := Path.join dirPath name in
               ((if JS.includes (JS.toLowerCase name) lowerQuery then
                   [ if isDir c then mkFileNode name fullPath directory None None
                     else mkFileNode name fullPath file
                                     (Some (JS.toLowerCase (Path.extname name))) None ]
                 else [])
                ++ (if isDir c then searchTree lowerQuery fullPath c else [])
                ++ loop rest)%list
         end) entries
  end.

Definition searchInDirectory (lowerQuery dirPath : string) : M (list FileNode) :=
  try_catch (entries <- readdir cwd dirPath ;;
             ret (searchTree lowerQuery dirPath (Dir entries)))
            (fun _ => ret []).

(** The comparator of the search results: markdown files first, then by
    name. *)
Definition compareResults (a b : FileNode) : Z :=
  let aIsMarkdown := NodeType_eqb (fn_type a) file && Config.isMarkdownFile (fn_name a) in
  let bIsMarkdown := NodeType_eqb (fn_type b) file && Config.isMarkdownFile (fn_name b) in
  if negb (Bool.eqb aIsMarkdown bIsMarkdown) then
    (if aIsMarkdown then (-1)%Z else 1%Z)
  else localeCompare (fn_name a) (fn_name b).

Fixpoint insertResult (x : FileNode) (l : list FileNode) : list FileNode :=
  match l with
  | [] => [x]
  | y :: l' =>
      if (compareResults x y <=? 0)%Z then x :: l else y :: insertResult x l'
  end.

Definition sortResults (l : list FileNode) : list FileNode :=
  fold_right insertResult [] l.

(** What the search looks for, said on the tree of the root directory: an
    entry reached through folders none of which is excluded, not excluded
    itself, whose name contains the query (in lower case) ignoring case. *)
Definition searched (lowerQuery : string) (root : Node) (rel : list string) (n : Node)
  : Prop :=
  rel <> []
  /\ lookup rel root = Some n
  /\ Forall (fun s => shouldExclude s true settings = false) (removelast rel)
  /\ shouldExclude (last rel "") (isDir n) settings = false
  /\ JS.includes (JS.toLowerCase (last rel "")) lowerQuery = true.

(** The node the search reports for the entry reached through [rel]. *)
Definition foundNode (dirPath : string) (rel : list string) (n : Node) : FileNode :=
  let name := last rel "" in
  if isDir n then mkFileNode name (Path.below dirPath rel) directory None None
  else mkFileNode name (Path.below dirPath rel) file
                  (Some (JS.toLowerCase (Path.extname name))) None.

(** The results the comparator puts first. *)
Definition markdownResult (a : FileNode) : bool :=
  NodeType_eqb (fn_type a) file && Config.isMarkdownFile (fn_name a).

Definition searchFiles (query : string) : M (list FileNode) :=
  results <- searchInDirectory (JS.toLowerCase query) (rootDirectory settings) ;;
  ret (sortResults results).

(** What [resolveWikiLink] returns for a link it resolves. *)
Record WikiLink : Type := mkWikiLink {
  wl_path : string;
  wl_exists : bool;
  wl_isMarkdown : bool
}.

(** [!resolvedPath] on a [string | null]. *)
Definition unresolved (resolvedPath : option string) : bool :=
  match resolvedPath with
  | Some p => negb (JS.truthy p)
  | None => true
  end.

(** The loop of [findFileByName] over a directory that could be read; the
    recursive call reads the entry just seen, here the node of that entry. *)
Fixpoint findByName (fileName dirPath : string) (n : Node) {struct n}
  : option string :=
  match n with
  | File _ => None
  | Dir entries =>
      (fix loop (es : list (string * Node)) : option string :=
         match es with
         | [] => None
         | (name, c) :: rest =>
             if shouldExclude name (isDir c) settings then loop rest
             else
               let fullPath := Path.join dirPath name in
               if negb (isDir c)
                  && (JS.toLowerCase name =? JS.toLowerCase fileName)
               then Some fullPath
               else if isDir c then
                 let found := findByName fileName fullPath c in
                 if negb (unresolved found) then found else loop rest
               else loop rest
         end) entries
  end.

Definition findFileByName (fileName dirPath : string) : M (option string) :=
  try_catch (entries <- readdir cwd dirPath ;;
             ret (findByName fileName dirPath (Dir entries)))
            (fun _ => ret None).

(** One attempt of [resolveWikiLink] at a joined path: its resolved form is
    taken when it passes the prefix test and can be accessed. *)
Definition attempt (joined : string) (resolvedPath : option string)
  : M (option string) :=
  let resolved := Path.resolve cwd joined in
  if JS.startsWith resolved (Path.resolve cwd (rootDirectory settings)) then
    present <- succeeds (access cwd resolved) ;;
    ret (if present then Some resolved else resolvedPath)
  else ret resolvedPath.

Definition resolveWikiLink (linkTarget : string) (currentFilePath : option string)
  : M (option WikiLink) :=
  try_catch (
    let cleanTarget := JS.trim linkTarget in
    if negb (JS.truthy cleanTarget) then ret None
    else
      fromCurrent <-
        match currentFilePath with
        | Some current =>
            if JS.truthy current then
              attempt (Path.join (Path.dirname_any current) cleanTarget) None
            else ret None
        | None => ret None
        end ;;
      fromRoot <-
        (if unresolved fromCurrent then
           attempt (Path.join (rootDirectory settings) cleanTarget) fromCurrent
         else ret fromCurrent) ;;
      resolvedPath <-
        (if unresolved fromRoot then
           found <- findFileByName (Path.basename cleanTarget)
                                   (rootDirectory settings) ;;
           ret (if negb (unresolved found) then found else fromRoot)
         else ret fromRoot) ;;
      match resolvedPath with
      | Some p =>
          if unresolved resolvedPath then ret None
          else
            let ext := JS.toLowerCase (Path.extname p) in
            let isMarkdown :=
              existsb (fun e => e =? ext) [".md"; ".mdx"; ".markdown"] in
            ret (Some (mkWikiLink p true isMarkdown))
      | None => ret None
      end)
  (fun _ => ret None).

(** What [findFileByName] looks for, said on the tree of the directory
    searched: a regular file, reached through folders none of which is
    excluded, not excluded itself, whose name is the one asked for ignoring
    case. *)
Definition named (fileName : string) (root : Node) (rel : list string) : Prop :=
  rel <> []
  /\ (exists content, lookup rel root = Some (File content))
  /\ Forall (fun s => shouldExclude s true settings = false) (removelast rel)
  /\ shouldExclude (last rel "") false settings = false
  /\ JS.toLowerCase (last rel "") = JS.toLowerCase fileName.

End Actions.

End FileActions.

(** ** actions/ai-change-actions.ts *)

Module AiChange.
Import Fs.
Local Open Scope fs_scope.

Section Actions.

Variable cwd : string.
Variable settings : AppSettings.

(** [acceptProposedChange]; the payload is [bytesWritten]. *)
Definition acceptProposedChange (filePath proposedContent : string) : M (Result nat) :=
  try_catch (
    let resolvedPath := Path.resolve cwd filePath in
    let resolvedRoot := Path.resolve cwd (rootDirectory settings) in
    if negb (JS.startsWith resolvedPath resolvedRoot) then
      ret (fail "Access denied: File is outside the allowed directory")
    else
      mkdir_recursive cwd (Path.dirname resolvedPath) ;;;
      Fs.writeFile cwd resolvedPath proposedContent ;;;
      stats <- stat cwd resolvedPath ;;
      ret (succeed (st_size stats)))
  (fun e => ret (fail (message_or "Unknown error occurred" e))).

(** [getCurrentFileContent]; the payload is [content]. *)
Definition getCurrentFileContent (filePath : string) : M (Result string) :=
  try_catch (
    let resolvedPath := Path.resolve cwd filePath in
    let resolvedRoot := Path.resolve cwd (rootDirectory settings) in
    if negb (JS.startsWith resolvedPath resolvedRoot) then
      ret (fail "Access denied: File is outside the allowed directory")
    else
      content <- Fs.readFile cwd resolvedPath ;;
      ret (succeed content))
  (fun e => ret (fail (message_or "Unknown error occurred" e))).

End Actions.

End AiChange.

(** ** actions/settings-actions.ts *)

Module Settings.
Import Fs.
Local Open Scope fs_scope.

Record Validity : Type := mkValidity {
  v_valid : bool;
  v_error : option string
}.

Section Actions.

Variable cwd : string.

(** [validateDirectory]; the disk has no permissions, so no call fails with
    [EACCES]. *)
Definition validateDirectory (dirPath : string) : M Validity :=
  try_catch (
    let resolvedPath := Path.resolve cwd dirPath in
    stats <- stat cwd resolvedPath ;;
    if negb (st_isDirectory stats) then
      ret (mkValidity false (Some "Path is not a directory"))
    else
      readdir cwd resolvedPath ;;;
      ret (mkValidity true None))
  (fun e =>
     match e with
     | SystemError ENOENT => ret (mkValidity false (Some "Directory does not exist"))
     | _ => ret (mkValidity false (Some (message_or "Unknown error" e)))
     end).

End Actions.

End Settings.

(** ** lib/models.ts *)

Module Models.

Inductive Provider : Type := openai | anthropic | google.

Record ModelConfig : Type := mkModel {
  id : string;
  name : string;
  provider : Provider
}.

Definition MODELS : list ModelConfig :=
  [ mkModel "gpt-5.2" "GPT-5.2" openai;
    mkModel "gpt-5.2-turbo" "GPT-5.2 Turbo" openai;
    mkModel "o3-preview" "O3 Preview" openai;
    mkModel "gpt-4o" "GPT-4o" openai;
    mkModel "gpt-4o-mini" "GPT-4o Mini" openai;
    mkModel "claude-sonnet-4-20250514" "Claude Sonnet 4" anthropic;
    mkModel "claude-3-5-sonnet-latest" "Claude 3.5 Sonnet" anthropic;
    mkModel "gemini-3-pro-preview" "Gemini 3 Pro Preview" google;
    mkModel "gemini-3-flash-preview" "Gemini 3 Flash Preview" google;
    mkModel "gemini-2.5-pro" "Gemini 2.5 Pro" google;
    mkModel "gemini-2.0-flash-exp" "Gemini 2.0 Flash" google ].

Definition ALLOWED_MODEL_IDS : list string := map id MODELS.

Definition isValidModelId (modelId : string) : bool :=
  existsb (fun allowed => allowed =? modelId) ALLOWED_MODEL_IDS.

Definition getModelConfig (modelId : string) : option ModelConfig :=
  find (fun m => id m =? modelId) MODELS.

(** A provider client bound to a model name. *)
Record LanguageModel : Type := mkLanguageModel {
  client : Provider;
  modelName : string
}.

Definition getModelInstance (modelId : string) : LanguageModel :=
  match getModelConfig modelId with
  | None => mkLanguageModel openai "gpt-4o-mini"
  | Some config => mkLanguageModel (provider config) modelId
  end.

Definition getProviderFromModelId (modelId : string) : Provider :=
  match getModelConfig modelId with
  | Some config => provider config
  | None => openai
  end.

Definition DEFAULT_MODEL_ID : string := "gemini-3-flash-preview".

End Models.

(** ** app/api/chat/execute-tool/route.ts *)

Module ExecuteTool.

(** The body of a request: [toolName], [rootDirectory] and the fields of
    [parameters] are strings or absent. *)
Record Parameters : Type := mkParameters {
  p_filePath : option string;
  p_pattern : option string;
  p_query : option string;
  p_filePattern : option string
}.

Record Request : Type := mkRequest {
  toolName : option string;
  parameters : option Parameters;
  requestRoot : option string
}.

Record FoundFile : Type := mkFoundFile {
  ff_path : string;
  ff_name : string;
  ff_relativePath : string
}.

Record Match : Type := mkMatch {
  line : nat;
  text : string
}.

Record FileMatches : Type := mkFileMatches {
  fm_file : string;
  fm_relativePath : string;
  fm_matches : list Match
}.

(** The [data] of a successful reply, by tool; the modification time of
    [readMarkdownFile], which the disk does not keep, is left out. *)
Inductive Data : Type :=
| ReadData (filePath content fileName : string) (size : nat)
| FilesData (files : list FoundFile) (count : nat) (pattern : string)
| ContentData (query : option string) (results : list FileMatches)
              (totalFiles filesWithMatches totalMatches : nat)
| TreeData (tree : list FileNode) (rootDirectory : string).

Record Reply : Type := mkReply {
  status : nat;
  r_success : bool;
  r_data : option Data;
  r_error : option string
}.

Definition ok_reply (d : Data) : Reply := mkReply 200 true (Some d) None.

Definition error_reply (status : nat) (msg : string) : Reply :=
  mkReply status false None (Some msg).

(** The directories [findMarkdownFiles] does not enter, and the names
    [buildFileTree] leaves out. *)
Definition skippedFolder (lowerName : string) : bool :=
  (lowerName =? "node_modules") || (lowerName =? ".git")
  || (lowerName =? ".next") || (lowerName =? "__pycache__").

Definition skippedEntry (lowerName : string) : bool :=
  skippedFolder lowerName || (lowerName =? ".vscode").

(** [!pattern || name.toLowerCase().includes(pattern.toLowerCase())] *)
Definition matchesPattern (pattern : option string) (name : string) : bool :=
  match pattern with
  | None => true
  | Some p =>
      negb (JS.truthy p) || JS.includes (JS.toLowerCase name) (JS.toLowerCase p)
  end.

(** The [forEach] of [searchInFile]; [index] counts the lines from zero. *)
Fixpoint matchesFrom (index : nat) (lowerQuery : string) (lines : list string)
  : list Match :=
  match lines with
  | [] => []
  | l :: rest =>
      if JS.includes (JS.toLowerCase l) lowerQuery
      then mkMatch (index + 1) (JS.trim l) :: matchesFrom (S index) lowerQuery rest
      else matchesFrom (S index) lowerQuery rest
  end.

(** The messages of the [TypeError]s raised on an absent value. *)
Definition quoted (s : string) : string :=
  String "034"%char s ++ String "034"%char EmptyString.

Definition undefinedPathsArgument : string :=
  "The " ++ quoted "paths[0]"
         ++ " argument must be of type string. Received undefined".

Definition undefinedPathArgument : string :=
  "The " ++ quoted "path"
         ++ " argument must be of type string or an instance of Buffer or URL."
         ++ " Received undefined".

Definition cannotDestructure (property : string) : string :=
  "Cannot destructure property '" ++ property
    ++ "' of 'parameters' as it is undefined.".

(** A reply is well formed when a success has status 200 and data and no
    error, and a failure has an error and no data. *)
Definition wellFormed (reply : Reply) : Prop :=
  (r_success reply = true /\ status reply = 200
   /\ r_data reply <> None /\ r_error reply = None)
  \/ (r_success reply = false /\ r_data reply = None /\ r_error reply <> None).

(** The names of the tools the executor knows. *)
Definition TOOL_NAMES : list string :=
  ["readMarkdownFile"; "searchMarkdownFiles"; "searchMarkdownContent"; "listFileTree"].

(** What [findMarkdownFiles] looks for, said on the tree of the directory
    searched: a regular file, reached through folders none of which is
    skipped, whose name ends in ".md" ignoring case and matches the
    pattern. *)
Definition wanted (pattern : option string) (n : Fs.Node) (rel : list string) : Prop :=
  rel <> []
  /\ (exists content, Fs.lookup rel n = Some (Fs.File content))
  /\ JS.endsWith (JS.toLowerCase (last rel "")) ".md" = true
  /\ matchesPattern pattern (last rel "") = true
  /\ Forall (fun s => skippedFolder (JS.toLowerCase s) = false) (removelast rel).

Section Route.

Variable cwd : string.

Definition validatePath (filePath rootDirectory : string) : bool :=
  let resolvedPath := Path.resolve cwd filePath in
  let resolvedRoot := Path.resolve cwd rootDirectory in
  JS.startsWith resolvedPath resolvedRoot.

Import Fs.
Local Open Scope fs_scope.

Variable localeCompare : string -> string -> Z.

(** The loop of [findMarkdownFiles] over a directory that could be read;
    the recursive call reads the entry just seen, here the node of that
    entry. *)
Fixpoint findInTree (dirPath : string) (pattern : option string) (n : Node)
         {struct n} : list string :=
  match n with
  | File _ => []
  | Dir entries =>
      (fix loop (es : list (string * Node)) : list string :=
         match es with
         | [] => []
         | (name, c) :: rest =>
             let fullPath := Path.join dirPath name in
             if isDir c then
               if skippedFolder (JS.toLowerCase name) then loop rest
               else (findInTree fullPath pattern c ++ loop rest)%list
             else if isRegular c && JS.endsWith (JS.toLowerCase name) ".md" then
               if matchesPattern pattern name then fullPath :: loop rest
               else loop rest
             else loop rest
         end) entries
  end.

Definition findMarkdownFiles (dirPath : string) (pattern : option string)
  : M (list string) :=
  try_catch (entries <- readdir cwd dirPath ;;
             ret (findInTree dirPath pattern (Dir entries)))
            (fun _ => ret []).

Definition searchInFile (filePath : string) (query : option string)
  : M (list Match) :=
  try_catch (
    content <- readFile cwd filePath ;;
    let lines := JS.split_lines content in
    match query with
    | Some q => ret (matchesFrom 0 (JS.toLowerCase q) lines)
    | None =>
        throw (Error "Cannot read properties of undefined (reading 'toLowerCase')")
    end)
  (fun _ => ret []).

(** The loop and the sort of [buildFileTree] over a directory that could be
    read. *)
Fixpoint buildTree (dirPath : string) (n : Node) {struct n} : list FileNode :=
  match n with
  | File _ => []
  | Dir entries =>
      FileActions.sortNodes localeCompare
        ((fix loop (es : list (string * Node)) : list FileNode :=
            match es with
            | [] => []
            | (name, c) :: rest =>
                let fullPath := Path.join dirPath name in
                if skippedEntry (JS.toLowerCase name) then loop rest
                else
                  (if isDir c then
                     mkFileNode name fullPath directory None
                                (Some (buildTree fullPath c))
                   else
                     mkFileNode name fullPath file
                                (Some (JS.toLowerCase (Path.extname name))) None)
                  :: loop rest
            end) entries)
  end.

(** The test of that loop, on an entry of the listing, and the node the
    loop pushes for an entry it keeps. *)
Definition shown (e : string * Node) : bool :=
  negb (skippedEntry (JS.toLowerCase (fst e))).

Definition treeNode (dirPath : string) (e : string * Node) : FileNode :=
  let fullPath := Path.join dirPath (fst e) in
  if isDir (snd e) then
    mkFileNode (fst e) fullPath directory None (Some (buildTree fullPath (snd e)))
  else
    mkFileNode (fst e) fullPath file
               (Some (JS.toLowerCase (Path.extname (fst e)))) None.

Definition buildFileTree (dirPath : string) : M (list FileNode) :=
  try_catch (entries <- readdir cwd dirPath ;;
             ret (buildTree dirPath (Dir entries)))
            (fun _ => ret []).

(** [if (rootDirectory)] *)
Definition configuredRoot (request : Request) : option string :=
  match requestRoot request with
  | Some r => if JS.truthy r then Some r else None
  | None => None
  end.

(** [const { property } = parameters] *)
Definition destructure (property : string) (request : Request) : M Parameters :=
  match parameters request with
  | Some p => ret p
  | None => throw (Error (cannotDestructure property))
  end.

(** The [for] loop of the [searchMarkdownContent] case. *)
Fixpoint searchEach (rootDirectory : string) (files : list string)
         (query : option string) : M (list FileMatches) :=
  match files with
  | [] => ret []
  | f :: rest =>
      matches <- searchInFile f query ;;
      results <- searchEach rootDirectory rest query ;;
      ret (if (0 <? List.length matches)%nat
           then mkFileMatches f (Path.relative cwd rootDirectory f) matches :: results
           else results)
  end.

Definition readMarkdownFile (request : Request) : M Reply :=
  params <- destructure "filePath" request ;;
  isValid <-
    match configuredRoot request with
    | Some root =>
        match p_filePath params with
        | Some filePath => ret (validatePath filePath root)
        | None => throw (Error undefinedPathsArgument)
        end
    | None => ret true
    end ;;
  if negb isValid then
    ret (error_reply 200 "Access denied: Path is outside the allowed directory")
  else
    try_catch (
      match p_filePath params with
      | None => throw (Error undefinedPathArgument)
      | Some filePath =>
          content <- readFile cwd filePath ;;
          stats <- stat cwd filePath ;;
          ret (ok_reply (ReadData filePath content (Path.basename filePath)
                                  (st_size stats)))
      end)
    (fun e => ret (error_reply 200 (message_or "Failed to read file" e))).

Definition searchMarkdownFiles (request : Request) : M Reply :=
  params <- destructure "pattern" request ;;
  match configuredRoot request with
  | None => ret (error_reply 200 "No root directory configured")
  | Some root =>
      try_catch (
        files <- findMarkdownFiles root (p_pattern params) ;;
        ret (ok_reply
               (FilesData
                  (map (fun f => mkFoundFile f (Path.basename f)
                                             (Path.relative cwd root f)) files)
                  (List.length files)
                  (match p_pattern params with
                   | Some p => JS.or_else p "*"
                   | None => "*"
                   end))))
      (fun e => ret (error_reply 200 (message_or "Failed to search files" e)))
  end.

Definition searchMarkdownContent (request : Request) : M Reply :=
  params <- destructure "query" request ;;
  match configuredRoot request with
  | None => ret (error_reply 200 "No root directory configured")
  | Some root =>
      try_catch (
        files <- findMarkdownFiles root (p_filePattern params) ;;
        results <- searchEach root files (p_query params) ;;
        ret (ok_reply
               (ContentData (p_query params) results
                  (List.length files) (List.length results)
                  (fold_left (fun sum r => sum + List.length (fm_matches r))%nat
                             results 0%nat))))
      (fun e => ret (error_reply 200 (message_or "Failed to search content" e)))
  end.

Definition listFileTree (request : Request) : M Reply :=
  match configuredRoot request with
  | None => ret (error_reply 200 "No root directory configured")
  | Some root =>
      try_catch (
        tree <- buildFileTree root ;;
        ret (ok_reply (TreeData tree root)))
      (fun e => ret (error_reply 200 (message_or "Failed to list files" e)))
  end.

(** [POST]: [body] is what [req.json()] yields, the request or the exception
    it throws. *)
Definition POST (body : Exn + Request) : M Reply :=
  try_catch (
    match body with
    | inl e => throw e
    | inr request =>
        match toolName request with
        | None => ret (error_reply 400 "Tool name is required")
        | Some tool =>
            if negb (JS.truthy tool) then
              ret (error_reply 400 "Tool name is required")
            else if tool =? "readMarkdownFile" then readMarkdownFile request
            else if tool =? "searchMarkdownFiles" then searchMarkdownFiles request
            else if tool =? "searchMarkdownContent" then searchMarkdownContent request
            else if tool =? "listFileTree" then listFileTree request
            else ret (error_reply 400 ("Unknown tool: " ++ tool))
        end
    end)
  (fun e => ret (error_reply 500 (message_or "Internal server error" e))).

End Route.

End ExecuteTool.

(** ** The conversation route (app/api/chat/route.ts) *)

Module Chat.
Import Fs.
Local Open Scope fs_scope.

Definition EDIT_KEYWORDS : list string :=
  [ "save"; "update"; "rewrite"; "edit"; "change"; "modify"; "add"; "remove";
    "delete"; "insert"; "append"; "prepend"; "replace"; "refactor"; "fix";
    "improve"; "optimize"; "summarize into"; "write to"; "put in"; "generate";
    "create"; "make"; "transform"; "convert"; "format"; "restructure" ].

Definition shouldForceToolUse (message : string) : bool :=
  let lowerMessage := JS.toLowerCase message in
  existsb (fun keyword => JS.includes lowerMessage keyword) EDIT_KEYWORDS.

(** What [proposeDocumentChange] returns: [{ success: false, type: "error",
    error, hint }] or [{ success: true, type: "proposal", message, path,
    proposedContent, summary, contentLength, timestamp }]. *)
Inductive ProposalResult : Type :=
| ProposalError (error hint : string)
| Proposal (message path proposedContent summary : string)
           (contentLength : nat) (timestamp : string).

Definition proposal_success (r : ProposalResult) : bool :=
  match r with Proposal _ _ _ _ _ _ => true | ProposalError _ _ => false end.

Record PermissionRequest : Type := mkPermissionRequest {
  pr_toolName : string;
  pr_filePath : option string;
  pr_pattern : option string;
  pr_query : option string;
  pr_filePattern : option string;
  pr_reason : string;
  pr_action : string
}.

(** What a gated tool returns on a call by the agent. *)
Record GatedResult : Type := mkGated {
  g_success : bool;
  g_error : option string;
  g_requiresPermission : bool;
  g_permissionRequest : option PermissionRequest;
  g_message : option string
}.

Definition refused (msg : string) : GatedResult :=
  mkGated false (Some msg) false None None.

(** The message of the source opens with a warning sign, which lies outside
    the Latin-1 range and is left out. *)
Definition askPermission (request : PermissionRequest) (msg : string) : GatedResult :=
  mkGated false None true (Some request) (Some msg).

Section Tools.

Variable cwd : string.

(** The [rootDirectory] of the request, when it was sent. *)
Variable rootDirectory : option string.

(** [new Date().toISOString()] at the time of the call. *)
Variable now : string.

Definition validatePath (filePath rootDirectory : string) : bool :=
  let resolvedPath := Path.resolve cwd filePath in
  let resolvedRoot := Path.resolve cwd rootDirectory in
  JS.startsWith resolvedPath resolvedRoot.

(** [if (rootDirectory)] *)
Definition rootConfigured : option string :=
  match rootDirectory with
  | Some r => if JS.truthy r then Some r else None
  | None => None
  end.

Definition proposeDocumentChange (targetPath newContent summary : string)
  : M ProposalResult :=
  if negb (JS.truthy targetPath) || (JS.trim targetPath =? "") then
    ret (ProposalError
           "ERROR: No file path provided. The AI must use the exact path from the context."
           "Use the path exactly as shown in the 'Current File Path' context.")
  else
    match rootConfigured with
    | Some root =>
        if negb (validatePath targetPath root) then
          ret (ProposalError
                 ("Access denied: Path '" ++ targetPath
                    ++ "' is outside the allowed directory '" ++ root ++ "'")
                 "Ensure you're using the exact path from the context, not a modified version.")
        else
          ret (Proposal ("Proposed changes ready for review: " ++ summary)
                        targetPath newContent summary (String.length newContent) now)
    | None =>
        ret (Proposal ("Proposed changes ready for review: " ++ summary)
                      targetPath newContent summary (String.length newContent) now)
    end.

(** The checks of [readMarkdownFile] that follow the sandbox check. *)
Definition probeMarkdownFile (filePath reason : string) : M GatedResult :=
  try_catch (
    stats <- stat cwd filePath ;;
    if negb (st_isFile stats) then ret (refused "Path is not a file")
    else if negb (JS.endsWith (JS.toLowerCase filePath) ".md") then
      ret (refused "File is not a markdown file")
    else
      ret (askPermission
             (mkPermissionRequest "readMarkdownFile" (Some filePath) None None None
                                  reason "read")
             ("Permission Required: The AI wants to read '"
                ++ Path.basename filePath ++ "' because: " ++ reason)))
  (fun e => ret (refused (message_or "File not found" e))).

Definition readMarkdownFile (filePath reason : string) : M GatedResult :=
  match rootConfigured with
  | Some root =>
      if negb (validatePath filePath root) then
        ret (refused ("Access denied: Path '" ++ filePath
                        ++ "' is outside the allowed directory"))
      else probeMarkdownFile filePath reason
  | None => probeMarkdownFile filePath reason
  end.

(** [pattern || "*"] *)
Definition patternOrStar (pattern : option string) : string :=
  match pattern with
  | Some p => JS.or_else p "*"
  | None => "*"
  end.

Definition patternGiven (pattern : option string) : bool :=
  match pattern with Some p => JS.truthy p | None => false end.

Definition searchMarkdownFiles (pattern : option string) (reason : string)
  : M GatedResult :=
  match rootConfigured with
  | None => ret (refused "No root directory configured")
  | Some _ =>
      ret (askPermission
             (mkPermissionRequest "searchMarkdownFiles" None
                                  (Some (patternOrStar pattern)) None None
                                  reason "search")
             ("Permission Required: The AI wants to search for markdown files"
                ++ (if patternGiven pattern
                    then " matching '" ++ patternOrStar pattern ++ "'" else "")
                ++ " because: " ++ reason))
  end.

Definition searchMarkdownContent (query : string) (filePattern : option string)
                                 (reason : string) : M GatedResult :=
  match rootConfigured with
  | None => ret (refused "No root directory configured")
  | Some _ =>
      ret (askPermission
             (mkPermissionRequest "searchMarkdownContent" None None (Some query)
                                  (Some (patternOrStar filePattern)) reason
                                  "search-content")
             ("Permission Required: The AI wants to search for '" ++ query
                ++ "' in markdown files because: " ++ reason))
  end.

Definition listFileTree (reason : string) : M GatedResult :=
  match rootConfigured with
  | None => ret (refused "No root directory configured")
  | Some _ =>
      ret (askPermission
             (mkPermissionRequest "listFileTree" None None None None reason
                                  "list-files")
             ("Permission Required: The AI wants to view the file structure because: "
                ++ reason))
  end.

(** The sandbox condition as the tools apply it: the check is made only
    when the request carried a root directory. *)
Definition sandboxValid (p : string) : bool :=
  match rootConfigured with
  | Some root => validatePath p root
  | None => true
  end.

(** A call of one of the four gated tools with its parameters. *)
Inductive GatedCall : Type :=
| CallReadMarkdownFile (filePath reason : string)
| CallSearchMarkdownFiles (pattern : option string) (reason : string)
| CallSearchMarkdownContent (query : string) (filePattern : option string)
                            (reason : string)
| CallListFileTree (reason : string).

Definition execute (call : GatedCall) : M GatedResult :=
  match call with
  | CallReadMarkdownFile filePath reason => readMarkdownFile filePath reason
  | CallSearchMarkdownFiles pattern reason => searchMarkdownFiles pattern reason
  | CallSearchMarkdownContent query filePattern reason =>
      searchMarkdownContent query filePattern reason
  | CallListFileTree reason => listFileTree reason
  end.

(** The read-only preconditions of a gated call: a configured root for the
    searches and the listing; for the read, a sandbox-valid path to an
    existing regular file whose name ends in ".md". *)
Definition preconditions (call : GatedCall) (w : World) : bool :=
  match call with
  | CallReadMarkdownFile filePath _ =>
      sandboxValid filePath
      && match lookup (locate cwd filePath) (disk w) with
         | Some (File _) => true
         | _ => false
         end
      && JS.endsWith (JS.toLowerCase filePath) ".md"
  | _ => match rootConfigured with Some _ => true | None => false end
  end.

End Tools.

(** The [model] field of the request body. *)
Inductive ModelField : Type :=
| ModelMissing
| ModelString (s : string)
| ModelOther.

Record ChatRequest : Type := mkChatRequest {
  lastUserMessage : option string;
  model : ModelField;
  filePath : option string;
  fileContent : option string;
  selectedText : option string;
  requestRoot : option string
}.

Inductive ToolChoice : Type := required | auto.

(** The [ToolLoopAgent] the route builds. *)
Record Agent : Type := mkAgent {
  agentModel : Models.LanguageModel;
  agentProvider : Models.Provider;
  toolsRoot : option string;
  toolChoice : ToolChoice;
  stepCap : nat
}.

Inductive Response : Type :=
| JsonResponse (status : nat) (error : string)
| AgentStream (agent : Agent).

(** [isValidModelId(model)] on whatever the body holds. *)
Definition validModel (field : ModelField) : option string :=
  match field with
  | ModelString m => if Models.isValidModelId m then Some m else None
  | ModelMissing | ModelOther => None
  end.

(** [POST]: [body] is [None] when [req.json()] throws. *)
Definition POST (body : option ChatRequest) : Response :=
  match body with
  | None => JsonResponse 500 "Internal server error"
  | Some request =>
      let model :=
        match model request with
        | ModelMissing => ModelString Models.DEFAULT_MODEL_ID
        | given => given
        end in
      match validModel model with
      | None => JsonResponse 400 "Invalid model"
      | Some m =>
          let forceToolUse :=
            match lastUserMessage request with
            | Some content => shouldForceToolUse content
            | None => false
            end in
          AgentStream
            (mkAgent (Models.getModelInstance m) (Models.getProviderFromModelId m)
                     (requestRoot request)
                     (if forceToolUse then required else auto) 5)
      end
  end.

End Chat.

(** ** The application store and the diff review panel
    (stores/app-store.ts, components/diff-review-panel.tsx) *)

Module DiffReview.
Import Fs.

Record PendingChange : Type := mkPendingChange {
  filePath : string;
  originalContent : string;
  proposedContent : string;
  summary : string;
  timestamp : N
}.

(** The mutations of the store, in the order they are applied. *)
Inductive Mutation : Type :=
| SetEditorContent (content : string)
| SetIsDirty (dirty : bool)
| IncrementEditorVersion
| ClearPendingChange
| TriggerRefresh.

(** The slice of the store the panel works on, the alerts shown, the local
    [isAccepting] flag, and the record of the mutations applied so far. *)
Record AppState : Type := mkAppState {
  editorContent : string;
  isDirty : bool;
  editorVersion : N;
  refreshTrigger : N;
  pendingChange : option PendingChange;
  isAccepting : bool;
  alerts : list string;
  history : list Mutation
}.

Definition setEditorContent (content : string) (s : AppState) : AppState :=
  mkAppState content (isDirty s) (editorVersion s) (refreshTrigger s)
             (pendingChange s) (isAccepting s) (alerts s)
             (history s ++ [SetEditorContent content]).

Definition setIsDirty (dirty : bool) (s : AppState) : AppState :=
  mkAppState (editorContent s) dirty (editorVersion s) (refreshTrigger s)
             (pendingChange s) (isAccepting s) (alerts s)
             (history s ++ [SetIsDirty dirty]).

Definition incrementEditorVersion (s : AppState) : AppState :=
  mkAppState (editorContent s) (isDirty s) (editorVersion s + 1)%N (refreshTrigger s)
             (pendingChange s) (isAccepting s) (alerts s)
             (history s ++ [IncrementEditorVersion]).

Definition clearPendingChange (s : AppState) : AppState :=
  mkAppState (editorContent s) (isDirty s) (editorVersion s) (refreshTrigger s)
             None (isAccepting s) (alerts s)
             (history s ++ [ClearPendingChange]).

Definition triggerRefresh (s : AppState) : AppState :=
  mkAppState (editorContent s) (isDirty s) (editorVersion s) (refreshTrigger s + 1)%N
             (pendingChange s) (isAccepting s) (alerts s)
             (history s ++ [TriggerRefresh]).

Definition setIsAccepting (b : bool) (s : AppState) : AppState :=
  mkAppState (editorContent s) (isDirty s) (editorVersion s) (refreshTrigger s)
             (pendingChange s) b (alerts s) (history s).

Definition alert (msg : string) (s : AppState) : AppState :=
  mkAppState (editorContent s) (isDirty s) (editorVersion s) (refreshTrigger s)
             (pendingChange s) (isAccepting s) (alerts s ++ [msg]) (history s).

Section Panel.

Variable cwd : string.
Variable settings : AppSettings.

(** The five steps after a successful write; [onAccepted] is the page's
    [handleDiffAccepted], which triggers a refresh. *)
Definition applyAccepted (newContent : string) (s : AppState) : AppState :=
  triggerRefresh
    (clearPendingChange
       (incrementEditorVersion
          (setIsDirty false
             (setEditorContent newContent s)))).

Definition handleAccept (s : AppState) (w : World) : AppState * World :=
  match pendingChange s with
  | None => (s, w)
  | Some change =>
      let s1 := setIsAccepting true s in
      match AiChange.acceptProposedChange cwd settings
              (filePath change) (proposedContent change) w with
      | (Ok result, w') =>
          if success result then
            (setIsAccepting false (applyAccepted (proposedContent change) s1), w')
          else
            (setIsAccepting false
               (alert ("Failed to save changes: "
                         ++ match error result with Some e => e | None => "undefined" end)
                      s1), w')
      | (Throw _, w') =>
          (setIsAccepting false
             (alert "An unexpected error occurred while saving changes" s1), w')
      | (Diverge, w') => (s1, w')
      end
  end.

Definition handleReject (s : AppState) : AppState := clearPendingChange s.

End Panel.

(** The effect of the page (app/page.tsx) that runs when the active file or
    the pending change changes. *)
Definition clearStalePendingChange (activeFile : option string) (s : AppState)
  : AppState :=
  match pendingChange s with
  | Some change =>
      if match activeFile with
         | Some p => negb (p =? filePath change)
         | None => true
         end
      then clearPendingChange s
      else s
  | None => s
  end.

End DiffReview.

(** ** The file tree slice of the store (stores/app-store.ts) *)

Module AppStore.

(** A [Set<string>]: its elements in the order they were added. *)
Definition has (s : list string) (p : string) : bool :=
  existsb (fun q => q =? p) s.

Definition add (s : list string) (p : string) : list string :=
  if has s p then s else (s ++ [p])%list.

Definition delete (s : list string) (p : string) : list string :=
  filter (fun q => negb (q =? p)) s.

(** [new Set(iterable)] *)
Definition newSet (l : list string) : list string := fold_left add l [].

Fixpoint folderPathsOf (item : FileNode) : list string :=
  match item with
  | mkFileNode _ path directory _ children =>
      path :: match children with
              | Some items => flat_map folderPathsOf items
              | None => []
              end
  | mkFileNode _ _ file _ _ => []
  end.

Definition getAllFolderPaths (nodes : list FileNode) : list string :=
  flat_map folderPathsOf nodes.

Definition toggleFolder (path : string) (expandedFolders : list string)
  : list string :=
  let next := newSet expandedFolders in
  if has next path then delete next path else add next path.

Definition expandAll (files : list FileNode) : list string :=
  newSet (getAllFolderPaths files).

Definition collapseAll : list string := newSet [].

(** The folders of a tree: [folderAmong nodes p] when [p] is the path of a
    directory node among [nodes] or, through the [children] of directory
    nodes, below them. *)
Inductive folderAmong : list FileNode -> string -> Prop :=
| folder_here (nodes : list FileNode) (n : FileNode) :
    In n nodes -> fn_type n = directory -> folderAmong nodes (fn_path n)
| folder_below (nodes : list FileNode) (n : FileNode) (items : list FileNode)
               (p : string) :
    In n nodes -> fn_type n = directory -> fn_children n = Some items ->
    folderAmong items p -> folderAmong nodes p.

End AppStore.

(** ** A small disk for the concrete cases *)

Definition sample_disk : Fs.Node :=
  Fs.Dir
    [ ("w", Fs.Dir [ ("a.md", Fs.File "# Title");
                     ("b.md", Fs.File "second");
                     ("notes.txt", Fs.File "todo");
                     ("sub", Fs.Dir [ ("inner", Fs.Dir []) ]) ]);
      ("etc", Fs.Dir [ ("passwd", Fs.File "root") ]) ].

Definition sample_world : Fs.World := Fs.mkWorld sample_disk [].

Definition sample_settings : AppSettings :=
  mkSettings "/w" (excludedExtensions DEFAULT_SETTINGS) (excludedFolders DEFAULT_SETTINGS).

(** A collation for the concrete cases: code units, lexicographically. *)
Definition codeUnitCompare (a b : string) : Z :=
  match String_as_OT.compare a b with
  | Lt => (-1)%Z
  | Eq => 0%Z
  | Gt => 1%Z
  end.

(** A directory with a regular file called like an excluded folder and a
    folder with an excluded extension. *)
Definition odd_disk : Fs.Node :=
  Fs.Dir
    [ ("w", Fs.Dir [ ("node_modules", Fs.File "not a folder");
                     ("build.log", Fs.Dir []);
                     ("trace.LOG", Fs.File "excluded");
                     (".Git", Fs.Dir []) ]) ].

Definition odd_world : Fs.World := Fs.mkWorld odd_disk [].

Definition sample_pending : DiffReview.PendingChange :=
  DiffReview.mkPendingChange "/w/a.md" "# Title" "# Hi" "add heading" 0.

Definition sample_state : DiffReview.AppState :=
  DiffReview.mkAppState "# Title" true 0 0 (Some sample_pending) false [] [].

(** The world after the change of [sample_pending] is accepted. *)
Definition sample_world_accepted : Fs.World :=
  Eval vm_compute in
    snd (AiChange.acceptProposedChange "/" sample_settings "/w/a.md" "# Hi"
                                       sample_world).

(** * Properties *)

Unset Implicit Arguments.

(** ** Sanity checks of the path model against Node's documented results *)

Example split_keeps_empty_segments : Path.split "/a//b" = [""; "a"; ""; "b"].
Proof. reflexivity. Qed.

Example resolve_relative : Path.resolve "/w" "a/../b/./c/" = "/w/b/c".
Proof. reflexivity. Qed.

Example resolve_above_root : Path.resolve "/w" "/../.." = "/".
Proof. reflexivity. Qed.

Example resolve_empty_is_cwd : Path.resolve "/w" "" = "/w".
Proof. reflexivity. Qed.

Example join_plain : Path.join "/w/sub/inner" "sub" = "/w/sub/inner/sub".
Proof. reflexivity. Qed.

Example join_relative_dots : Path.join "../a" "../../b" = "../../b".
Proof. reflexivity. Qed.

Example join_keeps_trailing_separator : Path.join "/a/" "" = "/a/".
Proof. reflexivity. Qed.

Example extname_examples :
  Path.extname "/w/a.md" = ".md" /\ Path.extname ".cache" = ""
  /\ Path.extname "..a" = ".a" /\ Path.extname "a." = "."
  /\ Path.extname ".." = "" /\ Path.extname "..." = ".".
Proof. repeat split; reflexivity. Qed.

Example basename_ext_example : Path.basename_ext "/w/a.tar.gz" ".gz" = "a.tar".
Proof. reflexivity. Qed.

Example dirname_examples : Path.dirname "/w/a.md" = "/w" /\ Path.dirname "/w" = "/".
Proof. split; reflexivity. Qed.

Example trim_example : JS.trim "  a b  " = "a b".
Proof. reflexivity. Qed.

Example string_of_N_examples : JS.string_of_N 12 = "12" /\ JS.string_of_N 0 = "0".
Proof. split; reflexivity. Qed.

(** ** The sandbox check *)

(** C1: the check is a plain string-prefix test on the resolved paths, so with
    root "/docs" the path "/docs-other/x" passes every copy of it (tool
    execution, conversation tools, file operations) although its resolved form
    is neither the root nor below it segment by segment. *)
Theorem validatePath_admits_sibling_directory :
  forall cwd : string,
    ExecuteTool.validatePath cwd "/docs-other/x" "/docs" = true
    /\ Chat.validatePath cwd "/docs-other/x" "/docs" = true
    /\ FileManagement.valid
         (FileManagement.validatePathSecurity cwd (mkSettings "/docs" [] [])
            "/docs-other/x") = true
    /\ Fs.is_prefix (Path.resolveSegs cwd "/docs")
                    (Path.resolveSegs cwd "/docs-other/x") = false.
Proof.
  intros cwd. repeat split; reflexivity.
Qed.

(** ** Model selection *)

Lemma isValidModelId_In (m : string) :
  Models.isValidModelId m = true <-> In m Models.ALLOWED_MODEL_IDS.
Proof.
  unfold Models.isValidModelId. rewrite existsb_exists. split.
  - intros [x [Hin Heq]]. apply String.eqb_eq in Heq. now subst.
  - intros Hin. exists m. split; [assumption | apply String.eqb_refl].
Qed.

(** C5: a conversation request whose model identifier is not in the
    allow-list is answered with status 400, and no agent (hence no provider
    client and no model) is built for it. *)
Theorem POST_rejects_unknown_model :
  forall (request : Chat.ChatRequest) (m : string),
    Chat.model request = Chat.ModelString m ->
    ~ In m Models.ALLOWED_MODEL_IDS ->
    Chat.POST (Some request) = Chat.JsonResponse 400 "Invalid model"
    /\ forall agent, Chat.POST (Some request) <> Chat.AgentStream agent.
Proof.
  intros request m Hmodel Hnot.
  assert (Hreject : Chat.POST (Some request) = Chat.JsonResponse 400 "Invalid model").
  { unfold Chat.POST. rewrite Hmodel. unfold Chat.validModel.
    destruct (Models.isValidModelId m) eqn:Hvalid; [| reflexivity].
    apply isValidModelId_In in Hvalid. contradiction. }
  split; [exact Hreject |].
  intros agent Hagent. rewrite Hreject in Hagent. discriminate.
Qed.

Lemma POST_rejects_unknown_model_witness :
  let request :=
    Chat.mkChatRequest (Some "fix the title") (Chat.ModelString "gpt-3")
                       (Some "/w/a.md") (Some "# Hi") None (Some "/w") in
  Chat.model request = Chat.ModelString "gpt-3"
  /\ ~ In "gpt-3" Models.ALLOWED_MODEL_IDS
  /\ Chat.POST (Some request) = Chat.JsonResponse 400 "Invalid model".
Proof.
  intros request.
  assert (Hnot : ~ In "gpt-3" Models.ALLOWED_MODEL_IDS).
  { intros Hin. apply isValidModelId_In in Hin. vm_compute in Hin. discriminate. }
  split; [reflexivity |]. split; [exact Hnot |].
  exact (proj1 (POST_rejects_unknown_model request _ eq_refl Hnot)).
Defined.

(** ** Facts about strings and paths *)

Lemma startsWith_refl (s : string) : JS.startsWith s s = true.
Proof.
  induction s as [| c s IH]; simpl; [reflexivity |].
  now rewrite Ascii.eqb_refl, IH.
Qed.

Lemma startsWith_app (s p t : string) :
  JS.startsWith s p = true -> JS.startsWith (s ++ t) p = true.
Proof.
  revert s. induction p as [| x p IH]; intros s H; [reflexivity |].
  destruct s as [| c s]; simpl in *; [discriminate |].
  apply andb_true_iff in H as [Hc Hs]. rewrite Hc. simpl. now apply IH.
Qed.

Lemma startsWith_prefix (p t : string) : JS.startsWith (p ++ t) p = true.
Proof. apply startsWith_app, startsWith_refl. Qed.

Lemma startsWith_length (s p : string) :
  JS.startsWith s p = true -> String.length p <= String.length s.
Proof.
  revert s. induction p as [| x p IH]; intros s H; simpl; [lia |].
  destruct s as [| c s]; simpl in *; [discriminate |].
  apply andb_true_iff in H as [_ Hs]. apply IH in Hs. lia.
Qed.

Lemma append_assoc (a b c : string) : (a ++ b) ++ c = a ++ (b ++ c).
Proof. induction a as [| x a IH]; simpl; [reflexivity | now rewrite IH]. Qed.

Lemma append_nil_r (a : string) : a ++ "" = a.
Proof. induction a as [| x a IH]; simpl; [reflexivity | now rewrite IH]. Qed.

Lemma append_length (a b : string) :
  String.length (a ++ b) = String.length a + String.length b.
Proof. induction a as [| x a IH]; simpl; [reflexivity | now rewrite IH]. Qed.

Lemma split_not_nil (s : string) : Path.split s <> [].
Proof.
  induction s as [| c s IH]; simpl; [discriminate |].
  destruct (Ascii.eqb c Path.slash); [discriminate |].
  destruct (Path.split s); discriminate.
Qed.

Lemma split_app_slash (a b : string) :
  Path.split (a ++ String Path.slash b) = (Path.split a ++ Path.split b)%list.
Proof.
  induction a as [| c a IH]; simpl.
  - reflexivity.
  - destruct (Ascii.eqb c Path.slash); simpl.
    + now rewrite IH.
    + rewrite IH. destruct (Path.split a) eqn:Ha; [| reflexivity].
      now apply split_not_nil in Ha.
Qed.

Lemma split_slash_free (s : string) :
  Path.slash_free s = true -> Path.split s = [s].
Proof.
  induction s as [| c s IH]; simpl; intros H; [reflexivity |].
  apply andb_true_iff in H as [Hc Hs].
  apply negb_true_iff in Hc. rewrite Hc, (IH Hs). reflexivity.
Qed.

Lemma split_segments_slash_free (s : string) :
  Forall (fun seg => Path.slash_free seg = true) (Path.split s).
Proof.
  induction s as [| c s IH]; simpl.
  - constructor; [reflexivity | constructor].
  - destruct (Ascii.eqb c Path.slash) eqn:Hc.
    + constructor; [reflexivity | assumption].
    + destruct (Path.split s) as [| seg rest].
      * constructor; [simpl; now rewrite Hc | constructor].
      * inversion IH; subst. constructor; [| assumption].
        simpl. now rewrite Hc.
Qed.

Lemma split_concat (segs : list string) :
  segs <> [] ->
  Forall (fun seg => Path.slash_free seg = true) segs ->
  Path.split (String.concat Path.sep segs) = segs.
Proof.
  induction segs as [| x segs IH]; intros Hne Hall; [congruence |].
  inversion Hall as [| ? ? Hx Hrest]; subst.
  destruct segs as [| y segs].
  - simpl. now apply split_slash_free.
  - change (String.concat Path.sep (x :: y :: segs))
      with (x ++ String Path.slash (String.concat Path.sep (y :: segs))).
    rewrite split_app_slash, (split_slash_free _ Hx), IH; [reflexivity | discriminate | assumption].
Qed.

Lemma concat_snoc (segs : list string) (name : string) :
  segs <> [] ->
  String.concat Path.sep (segs ++ [name])%list
  = String.concat Path.sep segs ++ Path.sep ++ name.
Proof.
  induction segs as [| x segs IH]; intros Hne; [congruence |].
  destruct segs as [| y segs]; [reflexivity |].
  change (String.concat Path.sep ((x :: y :: segs) ++ [name])%list)
    with (x ++ Path.sep ++ String.concat Path.sep ((y :: segs) ++ [name])%list).
  rewrite IH by discriminate.
  change (String.concat Path.sep (x :: y :: segs))
    with (x ++ Path.sep ++ String.concat Path.sep (y :: segs)).
  rewrite !append_assoc. reflexivity.
Qed.
Lemma render_snoc (segs : list string) (name : string) :
  segs <> [] ->
  Path.render (segs ++ [name])%list = Path.render segs ++ Path.sep ++ name.
Proof.
  intros Hne. unfold Path.render. rewrite concat_snoc by assumption.
  rewrite !append_assoc. reflexivity.
Qed.

(** *** The segment stack of [normalizeString] *)

Lemma run_app (allow : bool) (st : list string) (l1 l2 : list string) :
  Path.run allow st (l1 ++ l2)%list = Path.run allow (Path.run allow st l1) l2.
Proof. unfold Path.run. apply fold_left_app. Qed.

Lemma plain_inv (s : string) :
  Path.plain s = true -> s <> "" /\ s <> "." /\ s <> "..".
Proof.
  unfold Path.plain. intros H. apply negb_true_iff in H.
  apply orb_false_iff in H as [H H3]. apply orb_false_iff in H as [H1 H2].
  apply String.eqb_neq in H1, H2, H3. auto.
Qed.

Lemma step_plain (allow : bool) (st : list string) (s : string) :
  Path.plain s = true -> Path.step allow st s = s :: st.
Proof.
  intros H. apply plain_inv in H as (H1 & H2 & H3).
  apply String.eqb_neq in H1, H2, H3.
  unfold Path.step. now rewrite H1, H2, H3.
Qed.

Lemma step_skip (allow : bool) (st : list string) (s : string) :
  s = "" \/ s = "." -> Path.step allow st s = st.
Proof. intros [-> | ->]; reflexivity. Qed.

Lemma step_cases (s : string) :
  s = "" \/ s = "." \/ s = ".." \/ Path.plain s = true.
Proof.
  unfold Path.plain.
  destruct (String.eqb_spec s ""); [auto |].
  destruct (String.eqb_spec s "."); [auto |].
  destruct (String.eqb_spec s ".."); auto.
Qed.

Lemma run_plain (allow : bool) (st l : list string) :
  Forall (fun s => Path.plain s = true) l ->
  Path.run allow st l = (rev l ++ st)%list.
Proof.
  revert st. induction l as [| x l IH]; intros st H; [reflexivity |].
  inversion H; subst. simpl. unfold Path.run in *. simpl.
  rewrite step_plain by assumption. rewrite IH by assumption.
  now rewrite <- app_assoc.
Qed.

(** Without [allowAboveRoot] the stack holds names only. *)
Lemma run_false_plain (st l : list string) :
  Forall (fun s => Path.plain s = true) st ->
  Forall (fun s => Path.plain s = true) (Path.run false st l).
Proof.
  revert st. induction l as [| x l IH]; intros st H; [exact H |].
  unfold Path.run in *. simpl. apply IH.
  destruct (step_cases x) as [-> | [-> | [-> | Hx]]]; try exact H.
  - unfold Path.step. simpl. destruct st as [| top rest]; [constructor |].
    inversion H; subst. destruct (top =? ".."); assumption.
  - rewrite step_plain by assumption. now constructor.
Qed.

(** With [allowAboveRoot] it holds names and "..". *)
Lemma run_true_shape (st l : list string) :
  Forall (fun s => s = ".." \/ Path.plain s = true) st ->
  Forall (fun s => s = ".." \/ Path.plain s = true) (Path.run true st l).
Proof.
  revert st. induction l as [| x l IH]; intros st H; [exact H |].
  unfold Path.run in *. simpl. apply IH.
  destruct (step_cases x) as [-> | [-> | [-> | Hx]]]; try exact H.
  - unfold Path.step. simpl. destruct st as [| top rest].
    + constructor; [now left | constructor].
    + inversion H; subst. destruct (top =? "..").
      * constructor; [now left | assumption].
      * assumption.
  - rewrite step_plain by assumption. constructor; [now right | assumption].
Qed.

Lemma run_snoc (allow : bool) (st l : list string) (x : string) :
  Path.run allow st (l ++ [x])%list = Path.step allow (Path.run allow st l) x.
Proof. now rewrite run_app. Qed.

(** Normalizing relative to nothing first and resolving afterwards is
    resolving at once. *)
Lemma run_false_after_true (st l : list string) :
  Path.run false st (rev (Path.run true [] l)) = Path.run false st l.
Proof.
  induction l as [| x l IH] using rev_ind; [reflexivity |].
  rewrite !run_snoc, <- IH.
  assert (Hshape := run_true_shape [] l (Forall_nil _)).
  set (r := Path.run true [] l) in *.
  destruct (step_cases x) as [-> | [-> | [-> | Hx]]].
  - reflexivity.
  - reflexivity.
  - destruct r as [| top rest].
    + reflexivity.
    + inversion Hshape as [| ? ? Htop Hrest]; subst.
      unfold Path.step at 1. simpl.
      destruct (String.eqb_spec top "..") as [-> | Hneq].
      * change (rev (".." :: ".." :: rest)) with (rev (".." :: rest) ++ [".."])%list.
        now rewrite run_snoc.
      * destruct Htop as [Htop | Htop]; [contradiction |].
        simpl. rewrite run_snoc, (step_plain _ _ _ Htop).
        unfold Path.step. simpl.
        apply String.eqb_neq in Hneq. now rewrite Hneq.
  - rewrite (step_plain _ _ _ Hx). simpl. rewrite run_snoc.
    reflexivity.
Qed.

Lemma run_false_idempotent (st l : list string) :
  Path.run false st (rev (Path.run false [] l)) = (Path.run false [] l ++ st)%list.
Proof.
  rewrite run_plain.
  - now rewrite rev_involutive.
  - apply Forall_rev, run_false_plain. constructor.
Qed.

(** *** [path.resolve] and [path.join] on segments *)

Lemma run_skip_empty (st l : list string) :
  Path.run false st (l ++ [""])%list = Path.run false st l.
Proof. now rewrite run_snoc. Qed.

Lemma resolveSegs_run (cwd p : string) :
  Path.resolveSegs cwd p
  = rev (Path.run false (Path.base_stack cwd p) (Path.split p)).
Proof.
  unfold Path.resolveSegs, Path.normalizeSegs, Path.resolve_input, Path.base_stack.
  destruct (String.eqb_spec p "") as [-> | Hp].
  - change (cwd ++ Path.sep) with (cwd ++ String Path.slash "").
    rewrite split_app_slash. simpl Path.split. simpl Path.isAbsolute.
    rewrite run_skip_empty. reflexivity.
  - destruct (Path.isAbsolute p) eqn:Habs.
    + change (p ++ Path.sep) with (p ++ String Path.slash "").
      rewrite split_app_slash. simpl Path.split. now rewrite run_skip_empty.
    + change (cwd ++ Path.sep ++ p ++ Path.sep)
        with (cwd ++ String Path.slash (p ++ String Path.slash "")).
      rewrite !split_app_slash. simpl (Path.split ""). rewrite app_assoc.
      rewrite run_skip_empty, run_app. reflexivity.
Qed.

Lemma split_render (segs : list string) :
  segs <> [] ->
  Forall (fun seg => Path.slash_free seg = true) segs ->
  Path.split (Path.render segs) = "" :: segs.
Proof.
  intros Hne Hall. unfold Path.render. simpl. now rewrite split_concat.
Qed.

Lemma entry_name_inv (s : string) :
  Path.entry_name s = true -> Path.plain s = true /\ Path.slash_free s = true.
Proof. unfold Path.entry_name. intros H. now apply andb_true_iff in H. Qed.

Lemma Forall_entry_name (segs : list string) :
  Forall (fun s => Path.entry_name s = true) segs ->
  Forall (fun s => Path.plain s = true) segs
  /\ Forall (fun s => Path.slash_free s = true) segs.
Proof.
  intros H. split; eapply Forall_impl; try exact H;
    intros s Hs; now apply entry_name_inv in Hs.
Qed.

(** Resolving a printed absolute path gives its segments back. *)
Lemma resolveSegs_render (cwd : string) (segs : list string) :
  Forall (fun s => Path.entry_name s = true) segs ->
  Path.resolveSegs cwd (Path.render segs) = segs.
Proof.
  intros H. apply Forall_entry_name in H as [Hplain Hfree].
  rewrite resolveSegs_run. unfold Path.base_stack.
  change (Path.isAbsolute (Path.render segs)) with true. cbv iota.
  destruct segs as [| x segs]; [reflexivity |].
  rewrite split_render by (assumption || discriminate).
  change (Path.run false [] ("" :: x :: segs)) with (Path.run false [] (x :: segs)).
  rewrite run_plain by assumption. rewrite app_nil_r. apply rev_involutive.
Qed.

Lemma run_preserves (P : string -> Prop) (allow : bool) (st l : list string) :
  Forall P st -> Forall P l -> Forall P (Path.run allow st l).
Proof.
  revert st. induction l as [| x l IH]; intros st Hst Hl; [exact Hst |].
  inversion Hl; subst. unfold Path.run in *. simpl. apply IH; [| assumption].
  unfold Path.step.
  destruct ((x =? "") || (x =? ".")); [assumption |].
  destruct (x =? "..").
  - destruct st as [| top rest].
    + destruct allow; [constructor; [assumption | constructor] | constructor].
    + inversion Hst; subst. destruct (top =? "..").
      * destruct allow; [constructor |]; assumption.
      * assumption.
  - now constructor.
Qed.

Lemma resolveSegs_entry_names (cwd p : string) :
  Forall (fun s => Path.entry_name s = true) (Path.resolveSegs cwd p).
Proof.
  rewrite resolveSegs_run. apply Forall_rev.
  assert (Hbase_free :
            Forall (fun s => Path.slash_free s = true) (Path.base_stack cwd p)).
  { unfold Path.base_stack. destruct (Path.isAbsolute p); [constructor |].
    apply run_preserves; [constructor | apply split_segments_slash_free]. }
  assert (Hbase_plain :
            Forall (fun s => Path.plain s = true) (Path.base_stack cwd p)).
  { unfold Path.base_stack. destruct (Path.isAbsolute p); [constructor |].
    apply run_false_plain. constructor. }
  assert (Hfree := run_preserves _ false _ _ Hbase_free (split_segments_slash_free p)).
  assert (Hplain := run_false_plain _ (Path.split p) Hbase_plain).
  rewrite Forall_forall in *. intros s Hs. unfold Path.entry_name.
  now rewrite (Hplain s Hs), (Hfree s Hs).
Qed.

Lemma concat_nonempty (x : string) (l : list string) :
  x <> "" -> String.concat Path.sep (x :: l) <> "".
Proof.
  intros Hx. destruct l as [| y l]; simpl; [assumption |].
  destruct x; [congruence | discriminate].
Qed.

Lemma isAbsolute_concat (x : string) (l : list string) (t : string) :
  x <> "" -> Path.slash_free x = true ->
  Path.isAbsolute (String.concat Path.sep (x :: l) ++ t) = false.
Proof.
  intros Hx Hfree. destruct x as [| c x]; [congruence |].
  simpl in Hfree. apply andb_true_iff in Hfree as [Hc _].
  apply negb_true_iff in Hc. unfold Path.slash in Hc.
  destruct l as [| y l]; unfold Path.isAbsolute; simpl; now rewrite Hc.
Qed.

Lemma split_trailing (x : string) (t : bool) :
  Path.split (x ++ (if t then "/" else ""))
  = (Path.split x ++ (if t then [""] else []))%list.
Proof.
  destruct t.
  - change "/" with (String Path.slash ""). now rewrite split_app_slash.
  - now rewrite append_nil_r, app_nil_r.
Qed.

Lemma run_trailing (st l : list string) (t : bool) :
  Path.run false st (l ++ (if t then [""] else []))%list = Path.run false st l.
Proof. destruct t; [apply run_skip_empty | now rewrite app_nil_r]. Qed.

Lemma isAbsolute_cons (p : string) :
  Path.isAbsolute p = true -> exists q, p = String Path.slash q.
Proof.
  unfold Path.isAbsolute. destruct p as [| c q]; simpl; [discriminate |].
  rewrite andb_true_r. intros H. apply Ascii.eqb_eq in H. subst. now exists q.
Qed.

(** [path.normalize] does not change what a path resolves to. *)
Lemma resolveSegs_normalize (cwd p : string) :
  p <> "" -> Path.resolveSegs cwd (Path.normalize p) = Path.resolveSegs cwd p.
Proof.
  intros Hp. unfold Path.normalize.
  apply String.eqb_neq in Hp. rewrite Hp.
  rewrite (resolveSegs_run cwd p). unfold Path.base_stack.
  unfold Path.normalizeString, Path.normalizeSegs.
  set (trailing := JS.endsWith p Path.sep).
  destruct (Path.isAbsolute p) eqn:Habs; simpl negb.
  - (* absolute *)
    assert (Hplain := run_false_plain [] (Path.split p) (Forall_nil _)).
    assert (Hfree := run_preserves (fun s => Path.slash_free s = true) false []
                       (Path.split p) (Forall_nil _) (split_segments_slash_free p)).
    apply Forall_rev in Hplain, Hfree.
    remember (rev (Path.run false [] (Path.split p))) as out eqn:Hout.
    destruct out as [| x rest].
    + reflexivity.
    + inversion Hplain as [| ? ? Hx Hrest]; subst.
      pose proof (plain_inv x Hx) as (Hxne & _ & _).
      pose proof (concat_nonempty x rest Hxne) as Hbody.
      apply String.eqb_neq in Hbody. rewrite Hbody.
      rewrite resolveSegs_run. unfold Path.base_stack.
      change (Path.isAbsolute ("/" ++ ?b)) with true. cbv iota.
      change ("/" ++ String.concat Path.sep (x :: rest) ++ (if trailing then "/" else ""))
        with (String Path.slash
                (String.concat Path.sep (x :: rest) ++ (if trailing then "/" else ""))).
      change (Path.split (String Path.slash ?b)) with ("" :: Path.split b).
      change (Path.run false [] ("" :: ?l)) with (Path.run false [] l).
      rewrite split_trailing, split_concat, run_trailing by (assumption || discriminate).
      rewrite run_plain by (now constructor).
      now rewrite app_nil_r, rev_involutive.
  - (* relative *)
    assert (Hshape := run_true_shape [] (Path.split p) (Forall_nil _)).
    assert (Hfree := run_preserves (fun s => Path.slash_free s = true) true []
                       (Path.split p) (Forall_nil _) (split_segments_slash_free p)).
    rewrite <- (run_false_after_true _ (Path.split p)).
    apply Forall_rev in Hshape, Hfree.
    remember (rev (Path.run true [] (Path.split p))) as out eqn:Hout.
    clear Hout.
    destruct out as [| x rest].
    + simpl String.concat. simpl (_ =? _).
      destruct trailing; rewrite resolveSegs_run; reflexivity.
    + inversion Hshape as [| ? ? Hx Hrest]; subst.
      inversion Hfree as [| ? ? Hxfree Hrestfree]; subst.
      assert (Hxne : x <> "").
      { destruct Hx as [-> | Hx]; [discriminate |]. now apply plain_inv in Hx. }
      pose proof (concat_nonempty x rest Hxne) as Hbody.
      apply String.eqb_neq in Hbody. rewrite Hbody.
      change ("" ++ ?b) with b.
      rewrite resolveSegs_run. unfold Path.base_stack.
      rewrite (isAbsolute_concat x rest _ Hxne Hxfree).
      rewrite split_trailing, split_concat, run_trailing by (assumption || discriminate).
      reflexivity.
Qed.

Lemma isAbsolute_app (a t : string) :
  a <> "" -> Path.isAbsolute (a ++ t) = Path.isAbsolute a.
Proof. destruct a; [congruence | reflexivity]. Qed.

Lemma isAbsolute_slash_free (b : string) :
  Path.slash_free b = true -> Path.isAbsolute b = false.
Proof.
  destruct b as [| c b]; [reflexivity |]. simpl. intros H.
  apply andb_true_iff in H as [Hc _]. apply negb_true_iff in Hc.
  unfold Path.slash in Hc. unfold Path.isAbsolute. simpl. now rewrite Hc.
Qed.

Lemma resolveSegs_empty (cwd : string) :
  Path.resolveSegs cwd "" = rev (Path.run false [] (Path.split cwd)).
Proof. now rewrite resolveSegs_run. Qed.

(** [path.join(a, name)] resolves to the entry [name] of what [a] resolves
    to. *)
Lemma resolveSegs_join_name (cwd a b : string) :
  Path.entry_name b = true ->
  Path.resolveSegs cwd (Path.join a b) = (Path.resolveSegs cwd a ++ [b])%list.
Proof.
  intros Hb. apply entry_name_inv in Hb as [Hplain Hfree].
  pose proof (plain_inv b Hplain) as (Hbne & _ & _).
  unfold Path.join.
  destruct (String.eqb_spec a "") as [-> | Ha].
  - apply String.eqb_neq in Hbne. rewrite Hbne. apply String.eqb_neq in Hbne.
    rewrite resolveSegs_normalize by assumption.
    rewrite resolveSegs_empty, resolveSegs_run. unfold Path.base_stack.
    rewrite (isAbsolute_slash_free b Hfree), (split_slash_free b Hfree).
    unfold Path.run at 1. simpl. now rewrite step_plain.
  - apply String.eqb_neq in Hbne. rewrite Hbne.
    assert (Hjoined : a ++ Path.sep ++ b <> "").
    { destruct a; [congruence | discriminate]. }
    apply String.eqb_neq in Hjoined. rewrite Hjoined. apply String.eqb_neq in Hjoined.
    rewrite resolveSegs_normalize by assumption.
    rewrite !resolveSegs_run. unfold Path.base_stack.
    rewrite (isAbsolute_app a _ Ha).
    change (a ++ Path.sep ++ b) with (a ++ String Path.slash b).
    rewrite split_app_slash, (split_slash_free b Hfree), run_snoc.
    now rewrite step_plain.
Qed.

Lemma resolveSegs_join_empty (cwd a : string) :
  Path.resolveSegs cwd (Path.join a "") = Path.resolveSegs cwd a.
Proof.
  unfold Path.join.
  destruct (String.eqb_spec a "") as [-> | Ha].
  - simpl. now rewrite !resolveSegs_run.
  - simpl (""=? "")%string. cbv iota.
    pose proof Ha as Ha'. apply String.eqb_neq in Ha'. rewrite Ha'.
    now apply resolveSegs_normalize.
Qed.

(** What [basename] and [dirname] give on a resolved path. *)
Lemma filter_nonempty_names (segs : list string) :
  Forall (fun s => Path.entry_name s = true) segs ->
  filter Path.nonempty segs = segs.
Proof.
  induction 1 as [| x l Hx Hl IH]; [reflexivity |].
  simpl. apply entry_name_inv in Hx as [Hx _].
  apply plain_inv in Hx as (Hx & _ & _). apply String.eqb_neq in Hx.
  unfold Path.nonempty in *. rewrite Hx. simpl. now rewrite IH.
Qed.

Lemma components_render (segs : list string) :
  Forall (fun s => Path.entry_name s = true) segs ->
  filter Path.nonempty (Path.split (Path.render segs)) = segs.
Proof.
  intros H. destruct segs as [| x l]; [reflexivity |].
  rewrite split_render.
  - change (filter Path.nonempty ("" :: x :: l)) with (filter Path.nonempty (x :: l)).
    now apply filter_nonempty_names.
  - discriminate.
  - now apply Forall_entry_name in H.
Qed.

Lemma basename_render (segs : list string) :
  Forall (fun s => Path.entry_name s = true) segs ->
  Path.basename (Path.render segs) = last segs "".
Proof. intros H. unfold Path.basename. now rewrite components_render. Qed.

Lemma dirname_render (segs : list string) :
  Forall (fun s => Path.entry_name s = true) segs ->
  Path.dirname (Path.render segs) = Path.render (removelast segs).
Proof.
  intros H. unfold Path.dirname. rewrite components_render by assumption.
  reflexivity.
Qed.

Lemma Forall_removelast {A} (P : A -> Prop) (l : list A) :
  Forall P l -> Forall P (removelast l).
Proof.
  induction 1 as [| x l Hx Hl IH]; [constructor |].
  simpl. destruct l; [constructor | now constructor].
Qed.

Lemma last_In_or_default {A} (l : list A) (d : A) :
  l <> [] -> In (last l d) l.
Proof.
  induction l as [| x l IH]; [congruence |]. intros _.
  destruct l as [| y l]; [now left |]. right. apply IH. discriminate.
Qed.

(** ** The half of the sandbox property that the prefix test gives *)

Lemma is_prefix_app (a b : list string) :
  Fs.is_prefix a b = true -> exists c, b = (a ++ c)%list.
Proof.
  revert b. induction a as [| x a IH]; intros b H; [now exists b |].
  destruct b as [| y b]; [discriminate |]. simpl in H.
  apply andb_true_iff in H as [Hxy Hrest]. apply String.eqb_eq in Hxy. subst y.
  destruct (IH b Hrest) as (c & ->). now exists c.
Qed.

Lemma concat_app_prefix (a c : list string) :
  exists t, String.concat Path.sep (a ++ c)%list = String.concat Path.sep a ++ t.
Proof.
  destruct a as [| x a].
  - exists (String.concat Path.sep c). reflexivity.
  - destruct c as [| z c].
    + exists "". now rewrite app_nil_r, append_nil_r.
    + exists (Path.sep ++ String.concat Path.sep (z :: c)).
      revert x. induction a as [| y a IH]; intros x; [reflexivity |].
      change (String.concat Path.sep ((x :: y :: a) ++ z :: c)%list)
        with (x ++ Path.sep ++ String.concat Path.sep ((y :: a) ++ z :: c)%list).
      change (String.concat Path.sep (x :: y :: a))
        with (x ++ Path.sep ++ String.concat Path.sep (y :: a)).
      rewrite IH, !append_assoc. reflexivity.
Qed.

(** A path whose resolved segments extend those of the root passes the
    check; what the check lacks is the converse. *)
Lemma sandbox_check_accepts_descendants (cwd filePath rootDirectory : string) :
  Fs.is_prefix (Path.resolveSegs cwd rootDirectory) (Path.resolveSegs cwd filePath)
  = true ->
  ExecuteTool.validatePath cwd filePath rootDirectory = true.
Proof.
  intros H. unfold ExecuteTool.validatePath, Path.resolve, Path.render.
  apply is_prefix_app in H as (c & ->).
  destruct (concat_app_prefix (Path.resolveSegs cwd rootDirectory) c) as (t & ->).
  rewrite <- append_assoc. apply startsWith_prefix.
Qed.

(** ** The agent tools *)

Lemma trim_nonblank_truthy (s : string) :
  JS.trim s <> "" -> JS.truthy s = true.
Proof. destruct s; [intros H; now elim H | reflexivity]. Qed.

(** C3 (as amended): a path that is blank, that is empty or made of white
    space only, yields an error result; for a path that is not blank and
    passes the sandbox check, [proposeDocumentChange] leaves the disk as it
    was and returns the proposal with the path and the new content
    unchanged. *)
Theorem proposeDocumentChange_stages_without_io :
  forall (cwd : string) (rootDirectory : option string) (now : string)
         (targetPath newContent summary : string) (w : Fs.World),
    (JS.trim targetPath = "" ->
     exists e h,
       Chat.proposeDocumentChange cwd rootDirectory now targetPath newContent summary w
       = (Fs.Ok (Chat.ProposalError e h), w))
    /\ (JS.trim targetPath <> "" ->
        Chat.sandboxValid cwd rootDirectory targetPath = true ->
        Chat.proposeDocumentChange cwd rootDirectory now targetPath newContent summary w
        = (Fs.Ok (Chat.Proposal ("Proposed changes ready for review: " ++ summary)
                                targetPath newContent summary
                                (String.length newContent) now), w)).
Proof.
  intros cwd rootDirectory now targetPath newContent summary w. split.
  - intros Hblank. unfold Chat.proposeDocumentChange.
    rewrite Hblank. simpl (_ =? _). rewrite orb_true_r.
    do 2 eexists. reflexivity.
  - intros Hnonblank Hvalid. unfold Chat.proposeDocumentChange.
    rewrite (trim_nonblank_truthy _ Hnonblank).
    apply String.eqb_neq in Hnonblank. rewrite Hnonblank. simpl.
    unfold Chat.sandboxValid in Hvalid.
    destruct (Chat.rootConfigured rootDirectory) as [root |]; [| reflexivity].
    rewrite Hvalid. reflexivity.
Qed.

Lemma proposeDocumentChange_stages_without_io_witness :
  JS.trim "/w/a.md" <> ""
  /\ Chat.sandboxValid "/" (Some "/w") "/w/a.md" = true
  /\ Chat.proposeDocumentChange "/" (Some "/w") "2026-01-01T00:00:00.000Z"
       "/w/a.md" "# Hi" "add heading" sample_world
     = (Fs.Ok (Chat.Proposal "Proposed changes ready for review: add heading"
                             "/w/a.md" "# Hi" "add heading" 4
                             "2026-01-01T00:00:00.000Z"), sample_world).
Proof.
  assert (Hnonblank : JS.trim "/w/a.md" <> "") by (vm_compute; discriminate).
  split; [exact Hnonblank |]. split; [reflexivity |].
  exact (proj2 (proposeDocumentChange_stages_without_io
                  "/" (Some "/w") "2026-01-01T00:00:00.000Z"
                  "/w/a.md" "# Hi" "add heading" sample_world)
               Hnonblank eq_refl).
Defined.

(** C3, the claim as stated fails: the path made of one space is not empty
    and passes the sandbox check, yet the result is the error result. *)
Lemma proposeDocumentChange_blank_path_is_refused :
  " " <> ""
  /\ Chat.sandboxValid "/w" (Some "/w") " " = true
  /\ Chat.proposeDocumentChange "/w" (Some "/w") "2026-01-01T00:00:00.000Z"
       " " "# Hi" "add heading" sample_world
     = (Fs.Ok (Chat.ProposalError
                 "ERROR: No file path provided. The AI must use the exact path from the context."
                 "Use the path exactly as shown in the 'Current File Path' context."),
        sample_world).
Proof.
  split; [discriminate |]. split; reflexivity.
Qed.

(** C2 (as amended): a call of a gated tool never changes the disk or the
    recent-files record and never reports success; it asks for permission,
    with the request attached, exactly when the read-only preconditions of
    the call hold, and otherwise reports an error without asking. *)
Theorem gated_tools_only_probe :
  forall (cwd : string) (rootDirectory : option string)
         (call : Chat.GatedCall) (w : Fs.World),
  exists r,
    Chat.execute cwd rootDirectory call w = (Fs.Ok r, w)
    /\ Chat.g_success r = false
    /\ Chat.g_requiresPermission r = Chat.preconditions cwd rootDirectory call w
    /\ (Chat.g_requiresPermission r = true -> Chat.g_permissionRequest r <> None)
    /\ (Chat.g_requiresPermission r = false -> Chat.g_error r <> None).
Proof.
  intros cwd rootDirectory call w.
  assert (Hprobe : forall filePath reason,
    exists r,
      Chat.probeMarkdownFile cwd filePath reason w = (Fs.Ok r, w)
      /\ Chat.g_success r = false
      /\ Chat.g_requiresPermission r
         = (match Fs.lookup (Fs.locate cwd filePath) (Fs.disk w) with
            | Some (Fs.File _) => true
            | _ => false
            end && JS.endsWith (JS.toLowerCase filePath) ".md")
      /\ (Chat.g_requiresPermission r = true -> Chat.g_permissionRequest r <> None)
      /\ (Chat.g_requiresPermission r = false -> Chat.g_error r <> None)).
  { intros filePath reason.
    unfold Chat.probeMarkdownFile, Fs.try_catch, Fs.bind, Fs.stat, Fs.query.
    destruct (Fs.lookup (Fs.locate cwd filePath) (Fs.disk w)) as [[c | es] |];
      simpl.
    - destruct (JS.endsWith (JS.toLowerCase filePath) ".md"); simpl;
        (eexists; split; [reflexivity |]; simpl; repeat split;
         intros; discriminate).
    - eexists; split; [reflexivity |]; simpl; repeat split; intros; discriminate.
    - eexists; split; [reflexivity |]; simpl; repeat split; intros; discriminate. }
  destruct call as [filePath reason | pattern reason | query filePattern reason | reason];
    simpl Chat.execute; unfold Chat.preconditions.
  - unfold Chat.readMarkdownFile, Chat.sandboxValid.
    destruct (Chat.rootConfigured rootDirectory) as [root |].
    + destruct (Chat.validatePath cwd filePath root); simpl.
      * apply Hprobe.
      * eexists; split; [reflexivity |]; simpl; repeat split; intros; discriminate.
    + simpl. apply Hprobe.
  - unfold Chat.searchMarkdownFiles.
    destruct (Chat.rootConfigured rootDirectory);
      eexists; (split; [reflexivity |]); simpl; repeat split; intros; discriminate.
  - unfold Chat.searchMarkdownContent.
    destruct (Chat.rootConfigured rootDirectory);
      eexists; (split; [reflexivity |]); simpl; repeat split; intros; discriminate.
  - unfold Chat.listFileTree.
    destruct (Chat.rootConfigured rootDirectory);
      eexists; (split; [reflexivity |]); simpl; repeat split; intros; discriminate.
Qed.

(** C2, the claim as stated fails: inside the sandbox, on an existing
    regular file that is not a markdown file, the first call of
    [readMarkdownFile] answers with [requiresPermission: false]; so does
    [listFileTree] when the request carried no root directory. *)
Lemma gated_call_may_be_refused_outright :
  Chat.execute "/" (Some "/w") (Chat.CallReadMarkdownFile "/w/notes.txt" "check content")
               sample_world
  = (Fs.Ok (Chat.mkGated false (Some "File is not a markdown file") false None None),
     sample_world)
  /\ Chat.execute "/" None (Chat.CallListFileTree "see the files") sample_world
     = (Fs.Ok (Chat.mkGated false (Some "No root directory configured") false None None),
        sample_world).
Proof. split; reflexivity. Qed.

(** ** Facts about the disk *)

Lemma assoc_set_entry_same (k : string) (v : Fs.Node) (es : list (string * Fs.Node)) :
  Fs.assoc k (Fs.set_entry k v es) = Some v.
Proof.
  induction es as [| [k' x] es IH]; simpl.
  - now rewrite String.eqb_refl.
  - destruct (String.eqb_spec k' k) as [-> | Hneq]; simpl.
    + now rewrite String.eqb_refl.
    + apply String.eqb_neq in Hneq. now rewrite Hneq.
Qed.

Lemma assoc_set_entry_other (k k' : string) (v : Fs.Node) (es : list (string * Fs.Node)) :
  k' <> k -> Fs.assoc k' (Fs.set_entry k v es) = Fs.assoc k' es.
Proof.
  intros Hneq. induction es as [| [j x] es IH]; simpl.
  - apply not_eq_sym in Hneq. apply String.eqb_neq in Hneq. now rewrite Hneq.
  - destruct (String.eqb_spec j k) as [-> | Hjk]; simpl.
    + apply not_eq_sym in Hneq. apply String.eqb_neq in Hneq. now rewrite Hneq.
    + now rewrite IH.
Qed.

(** What was put at a path is found there. *)
Lemma lookup_put_same (segs : list string) (v d d' : Fs.Node) :
  Fs.put segs v d = Some d' -> Fs.lookup segs d' = Some v.
Proof.
  revert d d'. induction segs as [| s rest IH]; intros d d' H; simpl in *.
  - now injection H as ->.
  - destruct d as [c | es]; [discriminate |].
    destruct rest as [| s' rest'].
    + injection H as <-. simpl. now rewrite assoc_set_entry_same.
    + destruct (Fs.assoc s es) as [c |]; [| discriminate].
      destruct (Fs.put (s' :: rest') v c) as [c' |] eqn:Hput; [| discriminate].
      injection H as <-. simpl Fs.lookup at 1.
      rewrite assoc_set_entry_same. now apply (IH c).
Qed.

(** Putting a node where there was none leaves every regular file as it
    was. *)
Lemma put_fresh_keeps_files (segs : list string) (v d d' : Fs.Node) :
  Fs.lookup segs d = None ->
  Fs.put segs v d = Some d' ->
  forall q c, Fs.lookup q d = Some (Fs.File c) -> Fs.lookup q d' = Some (Fs.File c).
Proof.
  revert d d'. induction segs as [| s rest IH]; intros d d' Hnone Hput q c Hq.
  - discriminate.
  - destruct d as [c0 | es]; [discriminate |].
    destruct q as [| y q']; [discriminate |].
    simpl in Hq. destruct (Fs.assoc y es) as [cy |] eqn:Hy; [| discriminate].
    simpl in Hnone, Hput.
    destruct rest as [| s' rest'].
    + injection Hput as <-. simpl.
      destruct (Fs.assoc s es) eqn:Hs; [discriminate |].
      assert (Hneq : y <> s) by (intros ->; congruence).
      now rewrite assoc_set_entry_other, Hy.
    + destruct (Fs.assoc s es) as [cs |] eqn:Hs; [| discriminate].
      destruct (Fs.put (s' :: rest') v cs) as [cs' |] eqn:Hput'; [| discriminate].
      injection Hput as <-. simpl.
      destruct (String.eqb_spec y s) as [-> | Hneq].
      * rewrite assoc_set_entry_same.
        assert (cy = cs) by congruence. subst cy.
        now apply (IH cs cs').
      * now rewrite assoc_set_entry_other, Hy.
Qed.

(** ** Running computations *)

Lemma bind_ok_inv {A B} (m : Fs.M A) (k : A -> Fs.M B) (w w' : Fs.World) (b : B) :
  Fs.bind m k w = (Fs.Ok b, w') ->
  exists a w1, m w = (Fs.Ok a, w1) /\ k a w1 = (Fs.Ok b, w').
Proof.
  unfold Fs.bind. destruct (m w) as [[a | e |] w1]; intros H;
    [eauto | discriminate | discriminate].
Qed.

Lemma bind_ok {A B} (m : Fs.M A) (k : A -> Fs.M B) (w w1 : Fs.World) (a : A) :
  m w = (Fs.Ok a, w1) -> Fs.bind m k w = k a w1.
Proof. unfold Fs.bind. now intros ->. Qed.

Lemma bind_throw {A B} (m : Fs.M A) (k : A -> Fs.M B) (w w1 : Fs.World) (e : Fs.Exn) :
  m w = (Fs.Throw e, w1) -> Fs.bind m k w = (Fs.Throw e, w1).
Proof. unfold Fs.bind. now intros ->. Qed.

Lemma try_catch_ok {A} (body : Fs.M A) (h : Fs.Exn -> Fs.M A) (w w1 : Fs.World) (a : A) :
  body w = (Fs.Ok a, w1) -> Fs.try_catch body h w = (Fs.Ok a, w1).
Proof. unfold Fs.try_catch. now intros ->. Qed.

Lemma try_catch_throw {A} (body : Fs.M A) (h : Fs.Exn -> Fs.M A)
      (w w1 : Fs.World) (e : Fs.Exn) :
  body w = (Fs.Throw e, w1) -> Fs.try_catch body h w = h e w1.
Proof. unfold Fs.try_catch. now intros ->. Qed.

Lemma try_catch_ok_inv {A} (body : Fs.M A) (h : Fs.Exn -> Fs.M A)
      (w w' : Fs.World) (a : A) :
  Fs.try_catch body h w = (Fs.Ok a, w') ->
  body w = (Fs.Ok a, w')
  \/ exists e w1, body w = (Fs.Throw e, w1) /\ h e w1 = (Fs.Ok a, w').
Proof.
  unfold Fs.try_catch. destruct (body w) as [[x | e |] w1]; intros H.
  - now left.
  - right. eauto.
  - discriminate.
Qed.

(** A probe tells whether the path exists and changes nothing. *)
Lemma succeeds_access (cwd p : string) (w : Fs.World) :
  Fs.succeeds (Fs.access cwd p) w
  = (Fs.Ok (match Fs.lookup (Fs.locate cwd p) (Fs.disk w) with
            | Some _ => true
            | None => false
            end), w).
Proof.
  unfold Fs.succeeds, Fs.try_catch, Fs.bind, Fs.access, Fs.query.
  now destruct (Fs.lookup (Fs.locate cwd p) (Fs.disk w)).
Qed.

Lemma stat_run (cwd p : string) (w : Fs.World) :
  Fs.stat cwd p w
  = (match Fs.lookup (Fs.locate cwd p) (Fs.disk w) with
     | Some n => Fs.Ok (Fs.stats_of n)
     | None => Fs.Throw (Fs.SystemError Fs.ENOENT)
     end, w).
Proof. reflexivity. Qed.

Lemma writeFile_ok_inv (cwd p content : string) (w w' : Fs.World) (u : unit) :
  Fs.writeFile cwd p content w = (Fs.Ok u, w') ->
  exists d',
    Fs.put (Fs.locate cwd p) (Fs.File content) (Fs.disk w) = Some d'
    /\ w' = Fs.with_disk w d'
    /\ (forall es, Fs.lookup (Fs.locate cwd p) (Fs.disk w) <> Some (Fs.Dir es)).
Proof.
  unfold Fs.writeFile, Fs.update.
  destruct (Fs.lookup (Fs.locate cwd p) (Fs.disk w)) as [[c | es] |];
    try discriminate;
    (destruct (Fs.put (Fs.locate cwd p) (Fs.File content) (Fs.disk w)) as [d' |];
     [| discriminate]);
    intros H; injection H as _ <-; exists d'; repeat split; intros; discriminate.
Qed.

(** ** The accept path *)

Lemma acceptProposedChange_success
      (cwd : string) (settings : AppSettings) (filePath X : string)
      (w w' : Fs.World) (r : Result nat) :
  AiChange.acceptProposedChange cwd settings filePath X w = (Fs.Ok r, w') ->
  success r = true ->
  JS.startsWith (Path.resolve cwd filePath)
                (Path.resolve cwd (rootDirectory settings)) = true
  /\ Fs.lookup (Fs.locate cwd (Path.resolve cwd filePath)) (Fs.disk w')
     = Some (Fs.File X)
  /\ payload r = Some (JS.utf8_length X).
Proof.
  unfold AiChange.acceptProposedChange. intros H Hs.
  apply try_catch_ok_inv in H as [H | (e & w1 & _ & H)].
  2: { injection H as <- _. discriminate. }
  destruct (JS.startsWith (Path.resolve cwd filePath)
                          (Path.resolve cwd (rootDirectory settings))) eqn:Hvalid;
    cbn [negb] in H.
  2: { injection H as <- _. discriminate. }
  apply bind_ok_inv in H as (u1 & w1 & _ & H).
  apply bind_ok_inv in H as (u2 & w2 & Hwrite & H).
  apply bind_ok_inv in H as (stats & w3 & Hstat & H).
  apply writeFile_ok_inv in Hwrite as (d' & Hput & -> & _).
  apply lookup_put_same in Hput.
  rewrite stat_run in Hstat. cbn [Fs.disk Fs.with_disk] in Hstat.
  rewrite Hput in Hstat. injection Hstat as <- <-.
  injection H as <- <-. cbn [Fs.disk Fs.with_disk]. auto.
Qed.

Lemma locate_resolve (cwd p : string) :
  Fs.locate cwd (Path.resolve cwd p) = Path.resolveSegs cwd p.
Proof.
  unfold Fs.locate, Path.resolve. apply resolveSegs_render, resolveSegs_entry_names.
Qed.



(** ** Creating, renaming and moving *)

Lemma present_run (cwd p : string) (w : Fs.World) {B} (k : bool -> Fs.M B) :
  Fs.lookup (Fs.locate cwd p) (Fs.disk w) <> None ->
  Fs.bind (Fs.succeeds (Fs.access cwd p)) k w = k true w.
Proof.
  intros H. rewrite (bind_ok _ _ _ _ _ (succeeds_access cwd p w)).
  destruct (Fs.lookup (Fs.locate cwd p) (Fs.disk w)); [reflexivity | congruence].
Qed.

(** C8 (as amended): when the target path of a create, rename or move
    exists on disk the operation fails and changes nothing; when moreover
    the guards before the existence check pass (every path argument inside
    the sandbox and, for a move, the target not below the source) the error
    is the already-exists error of the operation. *)
Theorem naming_never_overwrites :
  forall (cwd : string) (settings : AppSettings)
         (op : FileManagement.Naming) (w : Fs.World),
    Fs.lookup (Fs.locate cwd (FileManagement.target cwd settings op)) (Fs.disk w)
      <> None ->
    exists msg,
      FileManagement.perform cwd settings op w = (Fs.Ok (fail msg), w)
      /\ (FileManagement.admitted cwd settings op = true ->
          msg = FileManagement.collisionMessage op).
Proof.
  intros cwd settings op w Hexists.
  destruct op as [parentPath fileName content | oldPath newName
                 | sourcePath targetFolderPath];
    cbn [FileManagement.perform FileManagement.target FileManagement.admitted
         FileManagement.collisionMessage] in *.
  - unfold FileManagement.createFile, FileManagement.caught.
    cbn [FileManagement.validatePathSecurity FileManagement.valid
         FileManagement.resolvedPath].
    destruct (JS.startsWith _ (Path.resolve cwd (rootDirectory settings))) eqn:Hvalid;
      cbn [negb].
    + eexists. split; [| reflexivity].
      apply try_catch_ok. now rewrite present_run.
    + eexists. split; [apply try_catch_ok; reflexivity | discriminate].
  - unfold FileManagement.renameItem, FileManagement.caught, FileManagement.inSandbox.
    cbn [FileManagement.validatePathSecurity FileManagement.valid
         FileManagement.resolvedPath].
    destruct (JS.startsWith (Path.resolve cwd oldPath) _) eqn:Hold; cbn [negb andb].
    2: { eexists. split; [apply try_catch_ok; reflexivity | discriminate]. }
    destruct (JS.startsWith (Path.resolve cwd (Path.join _ newName)) _) eqn:Hnew;
      cbn [negb].
    + eexists. split; [| reflexivity].
      apply try_catch_ok. now rewrite present_run.
    + eexists. split; [apply try_catch_ok; reflexivity | discriminate].
  - unfold FileManagement.moveItem, FileManagement.caught, FileManagement.inSandbox.
    cbn [FileManagement.validatePathSecurity FileManagement.valid
         FileManagement.resolvedPath].
    destruct (JS.startsWith (Path.resolve cwd sourcePath) _) eqn:Hsrc; cbn [negb andb].
    2: { eexists. split; [apply try_catch_ok; reflexivity | discriminate]. }
    destruct (JS.startsWith (Path.resolve cwd (Path.join targetFolderPath _))
                            (Path.resolve cwd (rootDirectory settings))) eqn:Hdest;
      cbn [negb andb].
    2: { eexists. split; [apply try_catch_ok; reflexivity | discriminate]. }
    destruct (JS.startsWith (Path.resolve cwd (Path.join targetFolderPath _))
                            (Path.resolve cwd sourcePath ++ Path.sep)) eqn:Hinto;
      cbn [negb].
    + eexists. split; [apply try_catch_ok; reflexivity | discriminate].
    + eexists. split; [| reflexivity].
      apply try_catch_ok. now rewrite present_run.
Qed.

Lemma naming_never_overwrites_witness :
  let op := FileManagement.Rename "/w/a.md" "b.md" in
  Fs.lookup (Fs.locate "/" (FileManagement.target "/" sample_settings op))
            (Fs.disk sample_world) <> None
  /\ FileManagement.admitted "/" sample_settings op = true
  /\ FileManagement.renameItem "/" sample_settings "/w/a.md" "b.md" sample_world
     = (Fs.Ok (fail "An item with this name already exists"), sample_world).
Proof.
  intros op.
  assert (Hexists :
            Fs.lookup (Fs.locate "/" (FileManagement.target "/" sample_settings op))
                      (Fs.disk sample_world) <> None)
    by (vm_compute; discriminate).
  split; [exact Hexists |]. split; [reflexivity |].
  destruct (naming_never_overwrites "/" sample_settings op sample_world Hexists)
    as (msg & Hrun & Hmsg).
  rewrite (Hmsg eq_refl) in Hrun. exact Hrun.
Defined.

(** C8, the claim as stated fails: the target "/etc/passwd" exists on disk,
    yet the create is refused by the sandbox guard and the error is not an
    already-exists error. *)
Lemma collision_hidden_by_sandbox_guard :
  Fs.lookup (Fs.locate "/" (FileManagement.target "/" sample_settings
                              (FileManagement.Create "/etc" "passwd" "x")))
            (Fs.disk sample_world) = Some (Fs.File "root")
  /\ FileManagement.createFile "/" sample_settings "/etc" "passwd" "x" sample_world
     = (Fs.Ok (fail "Access denied: Path is outside the allowed directory"),
        sample_world).
Proof. split; reflexivity. Qed.

(** ** Moving a folder into itself *)

Lemma render_cons_length (x : string) (l : list string) :
  x <> "" -> 2 <= String.length (Path.render (x :: l)).
Proof.
  intros Hx. unfold Path.render.
  destruct x as [| c x]; [congruence |].
  destruct l; simpl; lia.
Qed.

Lemma resolveSegs_root (cwd : string) : Path.resolveSegs cwd "/" = [].
Proof. reflexivity. Qed.

(** C7: when the target directory resolves to the source or to a path that
    starts with the source followed by the separator, the move fails with an
    error and the disk and the recent-files record are unchanged. *)
Theorem move_into_itself_fails :
  forall (cwd : string) (settings : AppSettings)
         (sourcePath targetFolderPath : string) (w : Fs.World),
    Path.resolve cwd targetFolderPath = Path.resolve cwd sourcePath
    \/ JS.startsWith (Path.resolve cwd targetFolderPath)
                     (Path.resolve cwd sourcePath ++ Path.sep) = true ->
    exists msg,
      FileManagement.moveItem cwd settings sourcePath targetFolderPath w
      = (Fs.Ok (fail msg), w).
Proof.
  intros cwd settings sourcePath targetFolderPath w Hinside.
  unfold FileManagement.moveItem, FileManagement.caught.
  cbn [FileManagement.validatePathSecurity FileManagement.valid
       FileManagement.resolvedPath].
  destruct (JS.startsWith (Path.resolve cwd sourcePath) _); cbn [negb].
  2: { eexists. apply try_catch_ok. reflexivity. }
  destruct (JS.startsWith (Path.resolve cwd (Path.join targetFolderPath _))
                          (Path.resolve cwd (rootDirectory settings))); cbn [negb].
  2: { eexists. apply try_catch_ok. reflexivity. }
  destruct (JS.startsWith (Path.resolve cwd (Path.join targetFolderPath _))
                          (Path.resolve cwd sourcePath ++ Path.sep)) eqn:Hinto.
  { eexists. apply try_catch_ok. reflexivity. }
  (* the guard did not fire: source and target are the root, which exists *)
  unfold Path.resolve in Hinto, Hinside |- *.
  pose proof (resolveSegs_entry_names cwd sourcePath) as Hsrc.
  rewrite (basename_render _ Hsrc) in Hinto |- *.
  destruct (Path.resolveSegs cwd sourcePath) as [| x l] eqn:Hssegs.
  - cbn [last] in Hinto |- *. rewrite resolveSegs_join_empty in Hinto |- *.
    destruct Hinside as [Hsame | Hbelow]; [| congruence].
    rewrite Hsame. eexists. apply try_catch_ok.
    rewrite present_run; [reflexivity |].
    unfold Fs.locate. change (Path.render []) with "/".
    rewrite resolveSegs_root. discriminate.
  - exfalso.
    assert (Hname : Path.entry_name (last (x :: l) "") = true).
    { rewrite Forall_forall in Hsrc. apply Hsrc, last_In_or_default. discriminate. }
    rewrite (resolveSegs_join_name _ _ _ Hname) in Hinto.
    assert (Hx : x <> "").
    { inversion Hsrc as [| ? ? Hx _]; subst.
      apply entry_name_inv in Hx as [Hx _]. now apply plain_inv in Hx. }
    pose proof (render_cons_length x l Hx) as Hlen.
    assert (Htarget : Path.resolveSegs cwd targetFolderPath <> []).
    { intros Hnil. rewrite Hnil in Hinside. destruct Hinside as [Hsame | Hbelow].
      - rewrite <- Hsame in Hlen. simpl in Hlen. lia.
      - apply startsWith_length in Hbelow. rewrite append_length in Hbelow.
        simpl in Hbelow, Hlen. lia. }
    rewrite (render_snoc _ _ Htarget) in Hinto.
    destruct Hinside as [Hsame | Hbelow].
    + rewrite Hsame, <- append_assoc, startsWith_prefix in Hinto. discriminate.
    + rewrite (startsWith_app _ _ _ Hbelow) in Hinto. discriminate.
Qed.

Lemma move_into_itself_fails_witness :
  JS.startsWith (Path.resolve "/" "/w/sub/inner") (Path.resolve "/" "/w/sub" ++ Path.sep)
  = true
  /\ exists msg,
       FileManagement.moveItem "/" sample_settings "/w/sub" "/w/sub/inner" sample_world
       = (Fs.Ok (fail msg), sample_world).
Proof.
  split; [reflexivity |].
  apply move_into_itself_fails. right. reflexivity.
Defined.

Example move_into_descendant_message :
  FileManagement.moveItem "/" sample_settings "/w/sub" "/w/sub/inner" sample_world
  = (Fs.Ok (fail "Cannot move a folder into itself"), sample_world).
Proof. reflexivity. Qed.

(** ** Duplicating a file *)

Lemma slash_free_app (a b : string) :
  Path.slash_free (a ++ b) = Path.slash_free a && Path.slash_free b.
Proof.
  induction a as [| c a IH]; simpl; [reflexivity |].
  now rewrite IH, andb_assoc.
Qed.

Lemma slash_free_substring (s : string) (n m : nat) :
  Path.slash_free s = true -> Path.slash_free (substring n m s) = true.
Proof.
  revert n m. induction s as [| c s IH]; intros n m H.
  - destruct n, m; reflexivity.
  - simpl in H. apply andb_true_iff in H as [Hc Hs].
    destruct n as [| n].
    + destruct m as [| m]; [reflexivity |]. simpl. now rewrite Hc, IH.
    + simpl. now apply IH.
Qed.

Lemma slash_free_last_dot_suffix (s e : string) :
  Path.slash_free s = true -> Path.last_dot_suffix s = Some e ->
  Path.slash_free e = true.
Proof.
  revert e. induction s as [| c s IH]; intros e H He; simpl in *; [discriminate |].
  apply andb_true_iff in H as [Hc Hs].
  destruct (Path.last_dot_suffix s) as [e' |].
  - injection He as <-. now apply IH.
  - destruct (Ascii.eqb c "."); [| discriminate].
    injection He as <-. simpl. now rewrite Hc, Hs.
Qed.

Lemma slash_free_extname_component (b : string) :
  Path.slash_free b = true -> Path.slash_free (Path.extname_component b) = true.
Proof.
  intros H. unfold Path.extname_component.
  destruct b as [| c rest]; [reflexivity |].
  destruct (String c rest =? ".."); [reflexivity |].
  destruct (Path.last_dot_suffix rest) as [e |] eqn:He; [| reflexivity].
  simpl in H. apply andb_true_iff in H as [_ Hrest].
  now apply (slash_free_last_dot_suffix rest).
Qed.

Lemma slash_free_digits (d : Decimal.uint) :
  Path.slash_free (NilEmpty.string_of_uint d) = true.
Proof. induction d; simpl; auto. Qed.

Lemma slash_free_string_of_N (n : N) : Path.slash_free (JS.string_of_N n) = true.
Proof.
  unfold JS.string_of_N, NilZero.string_of_uint.
  destruct (N.to_uint n); try reflexivity; apply slash_free_digits.
Qed.

Lemma to_uint_not_Nil (n : N) : N.to_uint n <> Decimal.Nil.
Proof.
  destruct n as [| p]; [discriminate |]. apply Unsigned.to_uint_nonnil.
Qed.

Lemma string_of_N_inj (n m : N) : JS.string_of_N n = JS.string_of_N m -> n = m.
Proof.
  unfold JS.string_of_N. intros H.
  apply DecimalN.Unsigned.to_uint_inj.
  assert (Hn := NilZero.usu _ (to_uint_not_Nil n)).
  assert (Hm := NilZero.usu _ (to_uint_not_Nil m)).
  rewrite H in Hn. congruence.
Qed.

Lemma append_inv_head (a b c : string) : a ++ b = a ++ c -> b = c.
Proof.
  induction a as [| x a IH]; simpl; intros H; [assumption |].
  injection H as H. now apply IH.
Qed.

Lemma append_inv_tail (a b c : string) : a ++ c = b ++ c -> a = b.
Proof.
  revert b. induction a as [| x a IH]; intros [| y b] H; simpl in H.
  - reflexivity.
  - apply (f_equal String.length) in H. simpl in H.
    rewrite append_length in H. lia.
  - apply (f_equal String.length) in H. simpl in H.
    rewrite append_length in H. lia.
  - injection H as -> H. f_equal. now apply IH.
Qed.

Lemma plain_long (s : string) : 3 <= String.length s -> Path.plain s = true.
Proof.
  destruct s as [| a [| b [| c s]]]; simpl; try lia. intros _.
  unfold Path.plain. apply negb_true_iff.
  repeat (apply orb_false_iff; split); apply String.eqb_neq; discriminate.
Qed.

(** The candidate names are names of directory entries. *)
Lemma copy_name_is_entry_name (baseName ext middle : string) :
  Path.slash_free baseName = true -> Path.slash_free ext = true ->
  Path.slash_free middle = true ->
  Path.entry_name (baseName ++ " copy" ++ middle ++ ext) = true.
Proof.
  intros Hb He Hm. unfold Path.entry_name. apply andb_true_iff. split.
  - apply plain_long. rewrite !append_length. simpl. lia.
  - rewrite !slash_free_app, Hb, He, Hm. reflexivity.
Qed.

Lemma lookup_snoc (dsegs : list string) (name : string) (d : Fs.Node) :
  Fs.lookup (dsegs ++ [name])%list d
  = match Fs.lookup dsegs d with
    | Some (Fs.Dir es) => Fs.assoc name es
    | _ => None
    end.
Proof.
  revert d. induction dsegs as [| s rest IH]; intros d; simpl.
  - destruct d as [c | es]; [reflexivity |].
    destruct (Fs.assoc name es); reflexivity.
  - destruct d as [c | es]; [reflexivity |].
    destruct (Fs.assoc s es); [apply IH | reflexivity].
Qed.

Lemma put_snoc_ok (dsegs : list string) (name : string) (v d : Fs.Node)
      (es : list (string * Fs.Node)) :
  Fs.lookup dsegs d = Some (Fs.Dir es) ->
  exists d', Fs.put (dsegs ++ [name])%list v d = Some d'.
Proof.
  revert d. induction dsegs as [| s rest IH]; intros d H; simpl in *.
  - injection H as ->. eauto.
  - destruct d as [c | es0]; [discriminate |].
    destruct (Fs.assoc s es0) as [child |]; [| discriminate].
    destruct (IH child H) as (child' & Hput). rewrite Hput.
    destruct (rest ++ [name])%list eqn:Hrest; [| eauto].
    now destruct rest.
Qed.

Lemma assoc_In (name : string) (es : list (string * Fs.Node)) :
  Fs.assoc name es <> None -> In name (map fst es).
Proof.
  induction es as [| [k v] es IH]; simpl; [congruence |].
  destruct (String.eqb_spec k name); [now left | right; now apply IH].
Qed.

Lemma removelast_last {A} (l : list A) (d : A) :
  l <> [] -> l = (removelast l ++ [last l d])%list.
Proof. intros H. now apply app_removelast_last. Qed.

(** The loop returns the first candidate that does not exist; it runs out
    of fuel only when every candidate it looked at exists. *)
Lemma findFreePath_run (cwd baseName ext dir : string) (w : Fs.World) :
  forall (fuel : nat) (newPath : string) (counter : N),
    match FileManagement.findFreePath cwd fuel baseName ext dir newPath counter w with
    | (Fs.Ok p, w') =>
        w' = w
        /\ Fs.lookup (Fs.locate cwd p) (Fs.disk w) = None
        /\ (p = newPath
            \/ exists k, (counter < k)%N
                 /\ p = Path.join dir (baseName ++ " copy " ++ JS.string_of_N k ++ ext))
    | (Fs.Diverge, w') =>
        w' = w
        /\ (0 < fuel -> Fs.lookup (Fs.locate cwd newPath) (Fs.disk w) <> None)
        /\ (forall k, (counter < k < counter + N.of_nat fuel)%N ->
              Fs.lookup
                (Fs.locate cwd
                   (Path.join dir (baseName ++ " copy " ++ JS.string_of_N k ++ ext)))
                (Fs.disk w) <> None)
    | (Fs.Throw _, _) => False
    end.
Proof.
  induction fuel as [| fuel IH]; intros newPath counter.
  - simpl. split; [reflexivity |]. split; [lia |]. intros k Hk. lia.
  - cbn [FileManagement.findFreePath].
    rewrite (bind_ok _ _ _ _ _ (succeeds_access cwd newPath w)).
    destruct (Fs.lookup (Fs.locate cwd newPath) (Fs.disk w)) as [n |] eqn:Hcur.
    + specialize (IH (Path.join dir (baseName ++ " copy "
                                       ++ JS.string_of_N (counter + 1) ++ ext))
                     (counter + 1)%N).
      destruct (FileManagement.findFreePath cwd fuel baseName ext dir _ _ w)
        as [[p | e |] w'].
      * destruct IH as (Hw & Hfree & Hform). split; [assumption |].
        split; [assumption |]. right. destruct Hform as [-> | (k & Hk & ->)].
        -- exists (counter + 1)%N. split; [lia | reflexivity].
        -- exists k. split; [lia | reflexivity].
      * exact IH.
      * destruct IH as (Hw & Hfirst & Hrest). split; [assumption |].
        split; [intros _; congruence |].
        intros k Hk. destruct (N.eq_dec k (counter + 1)) as [-> | Hneq].
        -- apply Hfirst. lia.
        -- apply Hrest. lia.
    + cbn. split; [reflexivity |]. split; [assumption |]. now left.
Qed.

(** A directory with [n] entries cannot hold [n + 1] numbered copies. *)
Lemma numbered_copies_run_out (baseName ext : string) (es : list (string * Fs.Node)) :
  ~ (forall k, (1 < k < N.of_nat (List.length es) + 3)%N ->
       Fs.assoc (baseName ++ " copy " ++ JS.string_of_N k ++ ext) es <> None).
Proof.
  intros Hall.
  set (name := fun i : nat => baseName ++ " copy " ++ JS.string_of_N (N.of_nat i) ++ ext).
  set (candidates := map name (seq 2 (S (List.length es)))).
  assert (Hnodup : NoDup candidates).
  { apply Finite.Injective_map_NoDup_in; [| apply seq_NoDup].
    intros i j _ _ Heq. unfold name in Heq.
    apply append_inv_head in Heq.
    change (" copy " ++ ?x) with (" copy " ++ x) in Heq.
    apply (append_inv_head " copy ") in Heq.
    apply append_inv_tail, string_of_N_inj in Heq. lia. }
  assert (Hincl : incl candidates (map fst es)).
  { intros x Hx. apply in_map_iff in Hx as (i & <- & Hi). apply in_seq in Hi.
    apply assoc_In, Hall. lia. }
  apply NoDup_incl_length in Hincl; [| assumption].
  unfold candidates in Hincl. rewrite !length_map, length_seq in Hincl. lia.
Qed.

Lemma stat_found (cwd p : string) (w : Fs.World) (n : Fs.Node) :
  Fs.lookup (Fs.locate cwd p) (Fs.disk w) = Some n ->
  Fs.stat cwd p w = (Fs.Ok (Fs.stats_of n), w).
Proof. intros H. rewrite stat_run. now rewrite H. Qed.

Lemma stat_missing (cwd p : string) (w : Fs.World) :
  Fs.lookup (Fs.locate cwd p) (Fs.disk w) = None ->
  Fs.stat cwd p w = (Fs.Throw (Fs.SystemError Fs.ENOENT), w).
Proof. intros H. rewrite stat_run. now rewrite H. Qed.

Lemma readFile_found (cwd p c : string) (w : Fs.World) :
  Fs.lookup (Fs.locate cwd p) (Fs.disk w) = Some (Fs.File c) ->
  Fs.readFile cwd p w = (Fs.Ok c, w).
Proof. intros H. unfold Fs.readFile, Fs.query. now rewrite H. Qed.

Lemma basename_parts_slash_free (b : string) :
  Path.slash_free b = true ->
  let ext := Path.extname_component b in
  forall p, Path.basename p = b ->
    Path.slash_free (Path.basename_ext p ext) = true.
Proof.
  intros Hb ext p Hp. unfold Path.basename_ext. rewrite Hp.
  destruct (Path.nonempty ext && (ext =? p)); [reflexivity |].
  destruct (Path.nonempty ext && JS.endsWith b ext
            && (String.length ext <? String.length b)%nat);
    [now apply slash_free_substring | assumption].
Qed.

(** Where the candidates of [duplicateFile] lie: in the directory of the
    file, under their own name. *)
Lemma candidate_location (cwd filePath middle : string) :
  let resolved := Path.resolve cwd filePath in
  let segs := Path.resolveSegs cwd filePath in
  let ext := Path.extname resolved in
  let baseName := Path.basename_ext resolved ext in
  let dir := Path.dirname resolved in
  Path.slash_free middle = true ->
  Fs.locate cwd (Path.join dir (baseName ++ " copy" ++ middle ++ ext))
  = (removelast segs ++ [(baseName ++ " copy" ++ middle ++ ext)%string])%list.
Proof.
  intros resolved segs ext baseName dir Hmiddle.
  pose proof (resolveSegs_entry_names cwd filePath) as Hnames. fold segs in Hnames.
  assert (Hbase : Path.basename resolved = last segs "")
    by (apply basename_render; assumption).
  assert (Hlast : Path.slash_free (last segs "") = true).
  { destruct segs as [| x l] eqn:Hsegs; [reflexivity |].
    rewrite Forall_forall in Hnames.
    apply entry_name_inv, Hnames, last_In_or_default. discriminate. }
  assert (Hext : Path.slash_free ext = true).
  { unfold ext, Path.extname. rewrite Hbase.
    now apply slash_free_extname_component. }
  assert (HbaseName : Path.slash_free baseName = true).
  { unfold baseName, ext, Path.extname. rewrite Hbase.
    now apply (basename_parts_slash_free (last segs "")). }
  assert (Hdir : dir = Path.render (removelast segs))
    by (apply dirname_render; assumption).
  unfold Fs.locate.
  rewrite resolveSegs_join_name by (apply copy_name_is_entry_name; assumption).
  rewrite Hdir, resolveSegs_render; [reflexivity |].
  now apply Forall_removelast.
Qed.

Lemma numbered_location (cwd filePath : string) (k : N) :
  let resolved := Path.resolve cwd filePath in
  let segs := Path.resolveSegs cwd filePath in
  let ext := Path.extname resolved in
  let baseName := Path.basename_ext resolved ext in
  let dir := Path.dirname resolved in
  Fs.locate cwd (Path.join dir (baseName ++ " copy " ++ JS.string_of_N k ++ ext))
  = (removelast segs
       ++ [(baseName ++ " copy " ++ JS.string_of_N k ++ ext)%string])%list.
Proof.
  intros resolved segs ext baseName dir.
  apply (candidate_location cwd filePath (" " ++ JS.string_of_N k)).
  simpl. apply slash_free_string_of_N.
Qed.

(** With fuel for one more candidate than the directory has entries, the
    loop finds a path at which nothing exists, without touching the
    world. *)
Lemma findFreePath_finds (cwd filePath : string) (w : Fs.World) (fuel : nat) :
  let resolved := Path.resolve cwd filePath in
  let segs := Path.resolveSegs cwd filePath in
  let ext := Path.extname resolved in
  let baseName := Path.basename_ext resolved ext in
  let dir := Path.dirname resolved in
  List.length (Fs.entries_at (removelast segs) (Fs.disk w)) + 2 <= fuel ->
  exists newPath name,
    FileManagement.findFreePath cwd fuel baseName ext dir
      (Path.join dir (baseName ++ " copy" ++ ext)) 1 w = (Fs.Ok newPath, w)
    /\ Fs.lookup (Fs.locate cwd newPath) (Fs.disk w) = None
    /\ Fs.locate cwd newPath = (removelast segs ++ [name])%list
    /\ (newPath = Path.join dir (baseName ++ " copy" ++ ext)
        \/ exists k, (2 <= k)%N
             /\ newPath
                = Path.join dir (baseName ++ " copy " ++ JS.string_of_N k ++ ext)).
Proof.
  intros resolved segs ext baseName dir Hfuel.
  pose proof (findFreePath_run cwd baseName ext dir w fuel
                (Path.join dir (baseName ++ " copy" ++ ext)) 1%N) as Hloop.
  destruct (FileManagement.findFreePath cwd fuel baseName ext dir _ 1 w)
    as [[newPath | e |] w1] eqn:Hrun.
  - destruct Hloop as (-> & Hfree & Hform).
    exists newPath.
    destruct Hform as [-> | (k & Hk & ->)].
    + eexists. split; [reflexivity |]. split; [assumption |].
      split; [apply (candidate_location cwd filePath ""); reflexivity | now left].
    + eexists. split; [reflexivity |]. split; [assumption |].
      split; [apply numbered_location |].
      right. exists k. split; [lia | reflexivity].
  - contradiction.
  - exfalso. destruct Hloop as (_ & _ & Hall).
    assert (Hentries : forall k, (1 < k < 1 + N.of_nat fuel)%N ->
              Fs.assoc (baseName ++ " copy " ++ JS.string_of_N k ++ ext)
                       (Fs.entries_at (removelast segs) (Fs.disk w)) <> None).
    { intros k Hk. specialize (Hall k Hk).
      unfold baseName, ext, dir, resolved in Hall.
      rewrite numbered_location, lookup_snoc in Hall.
      unfold Fs.entries_at. fold segs in Hall.
      destruct (Fs.lookup (removelast segs) (Fs.disk w)) as [[c | es] |];
        [congruence | exact Hall | congruence]. }
    apply (numbered_copies_run_out baseName ext
             (Fs.entries_at (removelast segs) (Fs.disk w))).
    intros k Hk. apply Hentries. lia.
Qed.



Example duplicate_of_a_md :
  fst (FileManagement.duplicateFile "/" sample_settings 6 "/w/a.md" sample_world)
  = Fs.Ok (succeed "/w/a copy.md").
Proof. reflexivity. Qed.

(** ** Results of the file operations *)

Lemma structured_fail {A} (msg : string) : structured (@fail A msg).
Proof. right. simpl. eauto. Qed.

Lemma structured_succeed {A} (a : A) : structured (succeed a).
Proof. left. now split. Qed.

Lemma structured_succeed_plain {A} : structured (@succeed_plain A).
Proof. left. now split. Qed.

Lemma settles_ret {A} (P : A -> Prop) (a : A) (w : Fs.World) :
  P a -> Fs.settles P (Fs.ret a) w.
Proof. intros H. exact H. Qed.

Lemma settles_throw {A} (P : A -> Prop) (e : Fs.Exn) (w : Fs.World) :
  Fs.settles P (Fs.throw e) w.
Proof. exact I. Qed.

Lemma settles_bind {A B} (Q : A -> Prop) (P : B -> Prop)
      (m : Fs.M A) (k : A -> Fs.M B) (w : Fs.World) :
  Fs.settles Q m w ->
  (forall a w1, m w = (Fs.Ok a, w1) -> Q a -> Fs.settles P (k a) w1) ->
  Fs.settles P (Fs.bind m k) w.
Proof.
  unfold Fs.settles, Fs.bind. intros Hm Hk.
  destruct (m w) as [[a | e |] w1]; simpl in *.
  - now apply (Hk a w1).
  - exact I.
  - contradiction.
Qed.

Lemma settles_bind_ok {A B} (P : B -> Prop)
      (m : Fs.M A) (k : A -> Fs.M B) (w w1 : Fs.World) (a : A) :
  m w = (Fs.Ok a, w1) -> Fs.settles P (k a) w1 -> Fs.settles P (Fs.bind m k) w.
Proof. unfold Fs.settles, Fs.bind. now intros ->. Qed.

Lemma settles_try_catch {A} (P : A -> Prop)
      (body : Fs.M A) (h : Fs.Exn -> Fs.M A) (w : Fs.World) :
  Fs.settles P body w ->
  (forall e w1, Fs.settles P (h e) w1) ->
  Fs.settles P (Fs.try_catch body h) w.
Proof.
  unfold Fs.settles, Fs.try_catch. intros Hbody Hh.
  destruct (body w) as [[a | e |] w1]; simpl in *.
  - assumption.
  - apply Hh.
  - contradiction.
Qed.

Lemma settles_weaken {A} (P Q : A -> Prop) (m : Fs.M A) (w : Fs.World) :
  (forall a, P a -> Q a) -> Fs.settles P m w -> Fs.settles Q m w.
Proof.
  unfold Fs.settles. intros H. destruct (fst (m w)); auto.
Qed.

(** A body that settles, under the [catch] that turns an exception into a
    failure, returns a well-formed result. *)
Lemma caught_structured {A} (body : Fs.M (Result A)) (fallback : string) (w : Fs.World) :
  Fs.settles structured body w ->
  exists r w',
    Fs.try_catch body (fun e => Fs.ret (fail (Fs.message_or fallback e))) w
    = (Fs.Ok r, w')
    /\ structured r.
Proof.
  unfold Fs.settles, Fs.try_catch. intros H.
  destruct (body w) as [[r | e |] w1]; simpl in *.
  - eauto.
  - eexists _, _. split; [reflexivity | apply structured_fail].
  - contradiction.
Qed.

Lemma settles_query {A} (f : Fs.Node -> Fs.Outcome A) (w : Fs.World) :
  (forall d, f d <> Fs.Diverge) -> Fs.settles (fun _ => True) (Fs.query f) w.
Proof.
  unfold Fs.settles, Fs.query. intros H. simpl.
  specialize (H (Fs.disk w)). now destruct (f (Fs.disk w)).
Qed.

Lemma settles_update (f : Fs.Node -> Fs.Outcome Fs.Node) (w : Fs.World) :
  (forall d, f d <> Fs.Diverge) -> Fs.settles (fun _ => True) (Fs.update f) w.
Proof.
  unfold Fs.settles, Fs.update. intros H.
  specialize (H (Fs.disk w)). now destruct (f (Fs.disk w)).
Qed.

Lemma settles_succeeds {A} (call : Fs.M A) (w : Fs.World) :
  Fs.settles (fun _ => True) call w ->
  Fs.settles (fun _ => True) (Fs.succeeds call) w.
Proof.
  intros H. unfold Fs.succeeds. apply settles_try_catch.
  - apply (settles_bind (fun _ => True)); [assumption |]. intros. exact I.
  - intros. exact I.
Qed.

Lemma settles_access (cwd p : string) (w : Fs.World) :
  Fs.settles (fun _ => True) (Fs.access cwd p) w.
Proof.
  apply settles_query. intros d. destruct (Fs.lookup _ d); discriminate.
Qed.

Lemma settles_stat (cwd p : string) (w : Fs.World) :
  Fs.settles (fun _ => True) (Fs.stat cwd p) w.
Proof.
  apply settles_query. intros d. destruct (Fs.lookup _ d); discriminate.
Qed.

Lemma settles_readFile (cwd p : string) (w : Fs.World) :
  Fs.settles (fun _ => True) (Fs.readFile cwd p) w.
Proof.
  apply settles_query. intros d. destruct (Fs.lookup _ d) as [[c | es] |]; discriminate.
Qed.

Lemma settles_writeFile (cwd p c : string) (w : Fs.World) :
  Fs.settles (fun _ => True) (Fs.writeFile cwd p c) w.
Proof.
  apply settles_update. intros d.
  destruct (Fs.lookup _ d) as [[c0 | es] |]; try discriminate;
    destruct (Fs.put _ _ d); discriminate.
Qed.

Lemma settles_mkdir_recursive (cwd p : string) (w : Fs.World) :
  Fs.settles (fun _ => True) (Fs.mkdir_recursive cwd p) w.
Proof.
  apply settles_update. intros d. destruct (Fs.mkdir_p _ d); discriminate.
Qed.

Lemma rename_tree_ends (old new : list string) (d : Fs.Node) :
  Fs.rename_tree old new d <> Fs.Diverge.
Proof.
  unfold Fs.rename_tree.
  destruct (Fs.lookup old d) as [src |]; [| discriminate].
  destruct (Fs.list_eqb old new); [discriminate |].
  destruct (Fs.is_prefix old new); [discriminate |].
  assert (Hmove : match Fs.remove old d with
                  | Some n1 => match Fs.put new src n1 with
                               | Some n2 => Fs.Ok n2
                               | None => Fs.Throw (Fs.SystemError Fs.ENOENT)
                               end
                  | None => Fs.Throw (Fs.SystemError Fs.ENOENT)
                  end <> Fs.Diverge).
  { destruct (Fs.remove old d) as [n1 |]; [| discriminate].
    destruct (Fs.put new src n1); discriminate. }
  destruct (Fs.lookup new d) as [[c | [| e es]] |]; try assumption;
    destruct (Fs.isDir src); (assumption || discriminate).
Qed.

Lemma settles_rename (cwd old new : string) (w : Fs.World) :
  Fs.settles (fun _ => True) (Fs.rename cwd old new) w.
Proof. apply settles_update. intros d. apply rename_tree_ends. Qed.

Lemma settles_rm_recursive (cwd p : string) (w : Fs.World) :
  Fs.settles (fun _ => True) (Fs.rm_recursive cwd p) w.
Proof.
  apply settles_update. intros d. destruct (Fs.remove _ d); discriminate.
Qed.

Lemma settles_unlink (cwd p : string) (w : Fs.World) :
  Fs.settles (fun _ => True) (Fs.unlink cwd p) w.
Proof.
  apply settles_update. intros d.
  destruct (Fs.lookup _ d) as [[c | es] |]; try discriminate.
  destruct (Fs.remove _ d); discriminate.
Qed.

Lemma settles_trash (trashPackage : string -> Fs.World -> option Fs.Exn * Fs.World)
      (p : string) (w : Fs.World) :
  Fs.settles (fun _ => True) (FileManagement.trash trashPackage p) w.
Proof.
  unfold Fs.settles, FileManagement.trash.
  now destruct (trashPackage p w) as [[e |] w1].
Qed.

Lemma settles_removeRecentFile (p : string) (w : Fs.World) :
  Fs.settles (fun _ => True) (RecentFiles.removeRecentFile p) w.
Proof. exact I. Qed.

Create HintDb settle.

#[local] Hint Resolve settles_access settles_stat settles_readFile settles_writeFile
  settles_mkdir_recursive settles_rename settles_rm_recursive settles_unlink
  settles_trash settles_removeRecentFile settles_succeeds : settle.

(** One step of a computation whose intermediate value does not matter. *)
Ltac settle_step :=
  match goal with
  | |- Fs.settles _ (Fs.ret _) _ =>
      apply settles_ret;
      first [apply structured_fail | apply structured_succeed
            | apply structured_succeed_plain | exact I]
  | |- Fs.settles _ (Fs.throw _) _ => apply settles_throw
  | |- Fs.settles _ (if ?b then _ else _) _ => destruct b
  | |- Fs.settles _ (Fs.bind _ _) _ =>
      apply (settles_bind (fun _ => True)); [auto with settle | intros ? ? _ _]
  | |- Fs.settles _ (Fs.try_catch _ _) _ => apply settles_try_catch; [| intros ? ?]
  end.

Ltac settle := repeat settle_step; auto with settle.

Lemma settles_deletePermanently (cwd : string) (stats : Fs.Stats) (p : string)
      (w : Fs.World) :
  Fs.settles (fun _ => True) (FileManagement.deletePermanently cwd stats p) w.
Proof. unfold FileManagement.deletePermanently. settle. Qed.




(** ** Listing a directory *)

Lemma shouldExclude_spec (name : string) (isDirectory : bool) (settings : AppSettings) :
  FileActions.shouldExclude name isDirectory settings = true
  <-> FileActions.Excluded name isDirectory settings.
Proof.
  unfold FileActions.shouldExclude, FileActions.Excluded.
  destruct isDirectory; rewrite existsb_exists; split.
  - intros (folder & Hin & Hmatch). left. split; [reflexivity |].
    exists folder. split; [assumption |].
    apply orb_true_iff in Hmatch as [Heq | Heq]; apply String.eqb_eq in Heq;
      [now subst | assumption].
  - intros [(_ & folder & Hin & Heq) | (Hfalse & _)]; [| discriminate].
    exists folder. split; [assumption |].
    apply orb_true_iff. right. now apply String.eqb_eq.
  - intros (ext & Hin & Hmatch). right. split; [reflexivity |].
    exists ext. split; [assumption | now apply String.eqb_eq].
  - intros [(Hfalse & _) | (_ & ext & Hin & Heq)]; [discriminate |].
    exists ext. split; [assumption | now apply String.eqb_eq].
Qed.

Section Listing.

Variable settings : AppSettings.
Variable localeCompare : string -> string -> Z.

(** The collation is a total preorder. *)
Hypothesis localeCompare_total :
  forall a b, (0 < localeCompare a b)%Z -> (localeCompare b a <= 0)%Z.
Hypothesis localeCompare_trans :
  forall a b c, (localeCompare a b <= 0)%Z -> (localeCompare b c <= 0)%Z ->
                (localeCompare a c <= 0)%Z.

Local Abbreviation le := (FileActions.nodeLe localeCompare).
Local Abbreviation byName := (FileActions.byName localeCompare).

Lemma listTree_Dir (targetPath : string) (es : list (string * Fs.Node)) :
  FileActions.listTree settings localeCompare targetPath (Fs.Dir es)
  = FileActions.sortNodes localeCompare
      (map (FileActions.entryNode settings localeCompare targetPath)
           (filter (FileActions.kept settings) es)).
Proof.
  cbn [FileActions.listTree]. f_equal.
  induction es as [| [name c] es IH]; [reflexivity |].
  cbn [filter]. unfold FileActions.kept at 1. cbn [fst snd].
  destruct (FileActions.shouldExclude name (Fs.isDir c) settings); cbn [negb].
  - exact IH.
  - cbn [map]. rewrite <- IH. unfold FileActions.entryNode. cbn [fst snd].
    reflexivity.
Qed.

Lemma compareNodes_total (a b : FileNode) : le a b \/ le b a.
Proof.
  unfold FileActions.nodeLe, FileActions.compareNodes.
  destruct (fn_type a), (fn_type b); simpl; try lia.
  - destruct (Z_lt_le_dec 0 (localeCompare (fn_name a) (fn_name b))) as [H | H];
      [right; now apply localeCompare_total | now left].
  - destruct (Z_lt_le_dec 0 (localeCompare (fn_name a) (fn_name b))) as [H | H];
      [right; now apply localeCompare_total | now left].
Qed.

Lemma compareNodes_trans (a b c : FileNode) : le a b -> le b c -> le a c.
Proof.
  unfold FileActions.nodeLe, FileActions.compareNodes.
  destruct (fn_type a), (fn_type b), (fn_type c); simpl; try lia;
    apply localeCompare_trans.
Qed.

Lemma insertNode_perm (x : FileNode) (l : list FileNode) :
  Permutation (FileActions.insertNode localeCompare x l) (x :: l).
Proof.
  induction l as [| y l IH]; simpl; [reflexivity |].
  destruct (FileActions.compareNodes localeCompare x y <=? 0)%Z; [reflexivity |].
  rewrite IH. apply perm_swap.
Qed.

Lemma sortNodes_perm (l : list FileNode) :
  Permutation (FileActions.sortNodes localeCompare l) l.
Proof.
  induction l as [| x l IH]; simpl; [reflexivity |].
  rewrite insertNode_perm. now constructor.
Qed.

Lemma insertNode_sorted (x : FileNode) (l : list FileNode) :
  StronglySorted le l -> StronglySorted le (FileActions.insertNode localeCompare x l).
Proof.
  induction 1 as [| y l Hsorted IH Hall]; simpl.
  - constructor; [constructor | constructor].
  - destruct (FileActions.compareNodes localeCompare x y <=? 0)%Z eqn:Hcmp.
    + apply Z.leb_le in Hcmp. constructor; [now constructor |].
      constructor; [exact Hcmp |].
      eapply Forall_impl; [| exact Hall]. intros z Hz.
      now apply (compareNodes_trans x y z).
    + apply Z.leb_gt in Hcmp. constructor; [exact IH |].
      assert (Hyx : le y x).
      { destruct (compareNodes_total x y) as [H | H]; [unfold FileActions.nodeLe in H; lia | exact H]. }
      rewrite Forall_forall in *. intros z Hz.
      apply (Permutation_in _ (insertNode_perm x l)) in Hz.
      destruct Hz as [<- | Hz]; [exact Hyx | now apply Hall].
Qed.

Lemma sortNodes_sorted (l : list FileNode) :
  StronglySorted le (FileActions.sortNodes localeCompare l).
Proof.
  induction l as [| x l IH]; simpl; [constructor | now apply insertNode_sorted].
Qed.

(** A list sorted by the comparator is its directories, by name, followed by
    its files, by name. *)
Lemma sorted_groups (l : list FileNode) :
  StronglySorted le l ->
  exists dirs files,
    l = (dirs ++ files)%list
    /\ Forall (fun n => fn_type n = directory) dirs
    /\ Forall (fun n => fn_type n = file) files
    /\ StronglySorted byName dirs
    /\ StronglySorted byName files.
Proof.
  induction 1 as [| x l Hsorted IH Hall].
  - exists [], []. repeat split; constructor.
  - destruct IH as (dirs & files & -> & Hdirs & Hfiles & Hsd & Hsf).
    destruct (fn_type x) eqn:Hx.
    + (* a file: nothing after it is a directory *)
      destruct dirs as [| d dirs].
      * exists [], (x :: files). simpl in *.
        repeat split; try constructor; try assumption.
        rewrite Forall_forall in *. intros z Hz.
        specialize (Hall z Hz). specialize (Hfiles z Hz).
        unfold FileActions.nodeLe, FileActions.compareNodes in Hall. rewrite Hx, Hfiles in Hall.
        exact Hall.
      * exfalso. inversion Hall as [| ? ? Hxd _]; subst.
        inversion Hdirs as [| ? ? Hd _]; subst.
        unfold FileActions.nodeLe, FileActions.compareNodes in Hxd. rewrite Hx, Hd in Hxd.
        simpl in Hxd. lia.
    + exists (x :: dirs), files. simpl. repeat split; try assumption.
      * now constructor.
      * constructor; [assumption |].
        apply Forall_app in Hall as [Hall _].
        rewrite Forall_forall in *. intros z Hz.
        specialize (Hall z Hz). specialize (Hdirs z Hz).
        unfold FileActions.nodeLe, FileActions.compareNodes in Hall. rewrite Hx, Hdirs in Hall.
        exact Hall.
Qed.

End Listing.

(** C9 (as amended): for a directory that exists, [readDirectory] returns,
    leaving the disk as it was, the nodes of exactly the entries that are not
    excluded, where a directory is excluded when its name equals an excluded
    folder name up to case and any other entry when its extension equals an
    excluded extension up to case; the nodes come with all directories before
    all files, each group ordered by name under the collation. *)
Theorem readDirectory_filters_and_sorts :
  forall (cwd : string) (settings : AppSettings)
         (localeCompare : string -> string -> Z)
         (dirPath : string) (w : Fs.World) (es : list (string * Fs.Node)),
    (forall a b, (0 < localeCompare a b)%Z -> (localeCompare b a <= 0)%Z) ->
    (forall a b c, (localeCompare a b <= 0)%Z -> (localeCompare b c <= 0)%Z ->
                   (localeCompare a c <= 0)%Z) ->
    let targetPath := JS.or_else dirPath (rootDirectory settings) in
    Fs.lookup (Fs.locate cwd targetPath) (Fs.disk w) = Some (Fs.Dir es) ->
    exists result,
      FileActions.readDirectory cwd settings localeCompare dirPath w = (Fs.Ok result, w)
      /\ Permutation result
           (map (FileActions.entryNode settings localeCompare targetPath)
                (filter (FileActions.kept settings) es))
      /\ (forall e, FileActions.kept settings e = false
                    <-> FileActions.Excluded (fst e) (Fs.isDir (snd e)) settings)
      /\ exists dirs files,
           result = (dirs ++ files)%list
           /\ Forall (fun n => fn_type n = directory) dirs
           /\ Forall (fun n => fn_type n = file) files
           /\ StronglySorted (FileActions.byName localeCompare) dirs
           /\ StronglySorted (FileActions.byName localeCompare) files.
Proof.
  intros cwd settings localeCompare dirPath w es Htotal Htrans targetPath Hdir.
  exists (FileActions.listTree settings localeCompare targetPath (Fs.Dir es)).
  split.
  { unfold FileActions.readDirectory. fold targetPath.
    rewrite (bind_ok _ _ _ _ _ (succeeds_access cwd targetPath w)).
    rewrite Hdir. cbn [negb].
    unfold Fs.bind, Fs.readdir, Fs.query. rewrite Hdir. reflexivity. }
  rewrite listTree_Dir. split; [apply sortNodes_perm |]. split.
  { intros e. unfold FileActions.kept. rewrite negb_false_iff.
    apply shouldExclude_spec. }
  apply sorted_groups, sortNodes_sorted; assumption.
Qed.

Lemma codeUnitCompare_total (a b : string) :
  (0 < codeUnitCompare a b)%Z -> (codeUnitCompare b a <= 0)%Z.
Proof.
  unfold codeUnitCompare.
  destruct (String_as_OT.compare_spec a b) as [Heq | Hlt | Hgt]; try lia.
  intros _. unfold String_as_OT.lt in Hgt. rewrite Hgt. lia.
Qed.

Lemma codeUnitCompare_trans (a b c : string) :
  (codeUnitCompare a b <= 0)%Z -> (codeUnitCompare b c <= 0)%Z ->
  (codeUnitCompare a c <= 0)%Z.
Proof.
  unfold codeUnitCompare.
  destruct (String_as_OT.compare_spec a b) as [Hab | Hab | Hab].
  - unfold String_as_OT.eq in Hab. subst. intros _ H. exact H.
  - destruct (String_as_OT.compare_spec b c) as [Hbc | Hbc | Hbc].
    + unfold String_as_OT.eq in Hbc. subst. intros _ _.
      unfold String_as_OT.lt in Hab. rewrite Hab. lia.
    + intros _ _.
      assert (Hac : String_as_OT.lt a c)
        by (eapply (@RelationClasses.StrictOrder_Transitive
                      _ _ String_as_OT.lt_strorder); eassumption).
      unfold String_as_OT.lt in Hac. rewrite Hac. lia.
    + intros _ H. lia.
  - intros H. lia.
Qed.

Lemma readDirectory_filters_and_sorts_witness :
  Fs.lookup (Fs.locate "/" (JS.or_else "" (rootDirectory sample_settings)))
            (Fs.disk sample_world)
  = Some (Fs.Dir (Fs.entries_at ["w"] sample_disk))
  /\ exists result,
       FileActions.readDirectory "/" sample_settings codeUnitCompare "" sample_world
       = (Fs.Ok result, sample_world)
       /\ Permutation result
            (map (FileActions.entryNode sample_settings codeUnitCompare "/w")
                 (filter (FileActions.kept sample_settings)
                         (Fs.entries_at ["w"] sample_disk))).
Proof.
  split; [reflexivity |].
  destruct (readDirectory_filters_and_sorts "/" sample_settings codeUnitCompare ""
              sample_world (Fs.entries_at ["w"] sample_disk)
              codeUnitCompare_total codeUnitCompare_trans eq_refl)
    as (result & Hrun & Hperm & _).
  exists result. split; assumption.
Defined.

Example readDirectory_of_sample :
  option_map (map (fun n => (fn_name n, fn_type n)))
    (match fst (FileActions.readDirectory "/" sample_settings codeUnitCompare ""
                  sample_world) with
     | Fs.Ok nodes => Some nodes
     | _ => None
     end)
  = Some [("sub", directory); ("a.md", file); ("b.md", file); ("notes.txt", file)].
Proof. reflexivity. Qed.

(** C9, the claim as stated fails: with the default exclusions, the regular
    file "node_modules" is listed although its name is an excluded folder
    name, and the folder "build.log" is listed although its extension is in
    the excluded-extension set. *)
Lemma exclusion_depends_on_the_kind_of_entry :
  In "node_modules" (excludedFolders sample_settings)
  /\ In (Path.extname "build.log") (excludedExtensions sample_settings)
  /\ FileActions.readDirectory "/" sample_settings codeUnitCompare "" odd_world
     = (Fs.Ok [ mkFileNode "build.log" "/w/build.log" directory None (Some []);
                mkFileNode "node_modules" "/w/node_modules" file (Some "") None ],
        odd_world).
Proof.
  split; [simpl; tauto |]. split; [simpl; tauto |]. reflexivity.
Qed.

(** ** The model served by the conversation route *)

Lemma getModelConfig_id (m : string) (config : Models.ModelConfig) :
  Models.getModelConfig m = Some config -> Models.id config = m.
Proof.
  unfold Models.getModelConfig. intros H.
  apply find_some in H as [_ H]. now apply String.eqb_eq in H.
Qed.

Lemma isValidModelId_config (m : string) :
  Models.isValidModelId m = true ->
  exists config, Models.getModelConfig m = Some config.
Proof.
  intros H. apply isValidModelId_In in H.
  unfold Models.ALLOWED_MODEL_IDS in H. apply in_map_iff in H as (config & Hid & Hin).
  unfold Models.getModelConfig.
  destruct (find (fun c => Models.id c =? m) Models.MODELS) as [found |] eqn:Hfind;
    [eauto |].
  apply (find_none _ _ Hfind) in Hin. rewrite Hid, String.eqb_refl in Hin.
  discriminate.
Qed.

(** Whenever the route builds an agent, its model is the requested one (the
    default when the request names none), found in the table with its own
    provider: the fallback of [getModelInstance] is never taken. *)
Lemma POST_serves_the_requested_model
      (request : Chat.ChatRequest) (agent : Chat.Agent) :
  Chat.POST (Some request) = Chat.AgentStream agent ->
  exists m config,
    (Chat.model request = Chat.ModelString m
     \/ (Chat.model request = Chat.ModelMissing /\ m = Models.DEFAULT_MODEL_ID))
    /\ In m Models.ALLOWED_MODEL_IDS
    /\ Models.getModelConfig m = Some config
    /\ Chat.agentModel agent = Models.mkLanguageModel (Models.provider config) m
    /\ Chat.agentProvider agent = Models.provider config.
Proof.
  unfold Chat.POST. intros H.
  assert (Hserved : forall m,
            Models.isValidModelId m = true ->
            forall choice,
              Chat.AgentStream
                (Chat.mkAgent (Models.getModelInstance m)
                              (Models.getProviderFromModelId m)
                              (Chat.requestRoot request) choice 5)
              = Chat.AgentStream agent ->
              exists config,
                In m Models.ALLOWED_MODEL_IDS
                /\ Models.getModelConfig m = Some config
                /\ Chat.agentModel agent
                   = Models.mkLanguageModel (Models.provider config) m
                /\ Chat.agentProvider agent = Models.provider config).
  { intros m Hvalid choice Heq.
    destruct (isValidModelId_config m Hvalid) as (config & Hconfig).
    exists config. split; [now apply isValidModelId_In |]. split; [assumption |].
    injection Heq as <-. unfold Models.getModelInstance, Models.getProviderFromModelId.
    rewrite Hconfig. now split. }
  destruct (Chat.model request) as [| m |] eqn:Hmodel; cbn [Chat.validModel] in H.
  - destruct (Models.isValidModelId Models.DEFAULT_MODEL_ID) eqn:Hvalid;
      [| discriminate].
    destruct (Hserved _ Hvalid _ H) as (config & Hrest).
    exists Models.DEFAULT_MODEL_ID, config. split; [right; now split | exact Hrest].
  - destruct (Models.isValidModelId m) eqn:Hvalid; [| discriminate].
    destruct (Hserved _ Hvalid _ H) as (config & Hrest).
    exists m, config. split; [now left | exact Hrest].
  - discriminate.
Qed.

(** ** The scenarios of the specification, run on the sample disk *)

(** Listing a directory that does not exist creates it and returns no
    node. *)
Example scenario_listing_a_missing_directory :
  let run := FileActions.readDirectory "/" sample_settings codeUnitCompare "/w/new"
               sample_world in
  fst run = Fs.Ok []
  /\ Fs.lookup ["w"; "new"] (Fs.disk sample_world) = None
  /\ Fs.lookup ["w"; "new"] (Fs.disk (snd run)) = Some (Fs.Dir []).
Proof. repeat split; reflexivity. Qed.

(** A first call of [readMarkdownFile] on a markdown file of the sandbox asks
    for permission and reads nothing. *)
Example scenario_read_asks_for_permission :
  Chat.readMarkdownFile "/" (Some "/w") "/w/a.md" "check content" sample_world
  = (Fs.Ok (Chat.mkGated false None true
              (Some (Chat.mkPermissionRequest "readMarkdownFile" (Some "/w/a.md")
                       None None None "check content" "read"))
              (Some "Permission Required: The AI wants to read 'a.md' because: check content")),
     sample_world).
Proof. reflexivity. Qed.

(** Renaming onto an existing name is refused and nothing is renamed. *)
Example scenario_rename_collision :
  FileManagement.renameItem "/" sample_settings "/w/a.md" "b.md" sample_world
  = (Fs.Ok (fail "An item with this name already exists"), sample_world).
Proof. reflexivity. Qed.

(** A rename to a free name moves the file. *)
Example scenario_rename_to_free_name :
  let run := FileManagement.renameItem "/" sample_settings "/w/a.md" "c.md"
               sample_world in
  fst run = Fs.Ok (succeed "/w/c.md")
  /\ Fs.lookup ["w"; "a.md"] (Fs.disk (snd run)) = None
  /\ Fs.lookup ["w"; "c.md"] (Fs.disk (snd run)) = Some (Fs.File "# Title").
Proof. repeat split; reflexivity. Qed.

(** Rejecting a pending change clears it and touches neither the editor
    content nor the disk. *)
Example scenario_reject :
  DiffReview.pendingChange (DiffReview.handleReject sample_state) = None
  /\ DiffReview.editorContent (DiffReview.handleReject sample_state)
     = DiffReview.editorContent sample_state.
Proof. split; reflexivity. Qed.

(** * Further properties of the code *)

(** ** More on the disk *)

Lemma set_entry_same_value (k : string) (v : Fs.Node) (es : list (string * Fs.Node)) :
  Fs.assoc k es = Some v -> Fs.set_entry k v es = es.
Proof.
  induction es as [|[k' x] es IH]; simpl; [discriminate|].
  destruct (k' =? k) eqn:E.
  - intros H. injection H as ->. reflexivity.
  - intros H. rewrite (IH H). reflexivity.
Qed.

Lemma mkdir_p_existing (segs : list string) (d : Fs.Node) (es : list (string * Fs.Node)) :
  Fs.lookup segs d = Some (Fs.Dir es) -> Fs.mkdir_p segs d = Some d.
Proof.
  revert d. induction segs as [|s rest IH]; intros d H.
  - simpl in H. injection H as ->. reflexivity.
  - destruct d as [c|ds]; [discriminate|]. simpl in H. simpl.
    destruct (Fs.assoc s ds) as [c|] eqn:A; [|discriminate].
    rewrite (IH c H). rewrite (set_entry_same_value s c ds A). reflexivity.
Qed.

Lemma mkdir_p_makes_directory (segs : list string) (d d' : Fs.Node) :
  Fs.mkdir_p segs d = Some d' ->
  exists es, Fs.lookup segs d' = Some (Fs.Dir es).
Proof.
  revert d d'. induction segs as [|s rest IH]; intros d d' H.
  - destruct d as [c|ds]; [discriminate|]. simpl in H. injection H as <-.
    exists ds. reflexivity.
  - destruct d as [c|ds]; [discriminate|]. simpl in H.
    destruct (Fs.mkdir_p rest _) as [c'|] eqn:M; [|discriminate].
    injection H as <-. simpl. rewrite assoc_set_entry_same.
    exact (IH _ _ M).
Qed.

(** What is outside the path made is as it was. *)
Lemma mkdir_p_keeps (segs : list string) (d d' : Fs.Node) :
  Fs.mkdir_p segs d = Some d' ->
  forall q n, Fs.is_prefix q segs = false ->
              Fs.lookup q d = Some n -> Fs.lookup q d' = Some n.
Proof.
  revert d d'. induction segs as [|s rest IH]; intros d d' H q n P L.
  - destruct d as [c|ds]; [discriminate|]. simpl in H. injection H as <-. exact L.
  - destruct d as [c|ds]; [discriminate|]. simpl in H.
    destruct (Fs.mkdir_p rest _) as [c'|] eqn:M; [|discriminate].
    injection H as <-.
    destruct q as [|k q']; [discriminate|].
    simpl in P, L |- *.
    destruct (k =? s) eqn:E.
    + apply String.eqb_eq in E. subst k. rewrite assoc_set_entry_same.
      destruct (Fs.assoc s ds) as [c|] eqn:A; [|discriminate].
      simpl in P. exact (IH _ _ M q' n P L).
    + apply String.eqb_neq in E. rewrite (assoc_set_entry_other s k c' ds E).
      exact L.
Qed.

Lemma is_prefix_file_false (q segs : list string) (d : Fs.Node) (c : string) :
  Fs.lookup q d = Some (Fs.File c) ->
  Fs.mkdir_p segs d <> None ->
  Fs.is_prefix q segs = false.
Proof.
  revert d segs. induction q as [|k q' IH]; intros d segs L M.
  - simpl in L. injection L as ->. destruct segs; simpl in M; congruence.
  - destruct segs as [|s rest]; [reflexivity|].
    simpl. destruct (k =? s) eqn:E; [|reflexivity]. simpl.
    apply String.eqb_eq in E. subst k.
    destruct d as [x|ds]; [discriminate|]. simpl in L, M.
    destruct (Fs.assoc s ds) as [c0|] eqn:A; [|discriminate].
    apply (IH c0 rest L). destruct (Fs.mkdir_p rest c0); congruence.
Qed.

Lemma mkdir_p_keeps_files (segs : list string) (d d' : Fs.Node) :
  Fs.mkdir_p segs d = Some d' ->
  forall q c, Fs.lookup q d = Some (Fs.File c) -> Fs.lookup q d' = Some (Fs.File c).
Proof.
  intros H q c L. apply (mkdir_p_keeps segs d d' H); [|exact L].
  apply (is_prefix_file_false q segs d c L). congruence.
Qed.

(** A file written over nothing or over a file leaves the other files. *)
Lemma put_keeps_files (segs : list string) (v d d' : Fs.Node) :
  Fs.put segs v d = Some d' ->
  (forall es, Fs.lookup segs d <> Some (Fs.Dir es)) ->
  forall q c, q <> segs -> Fs.lookup q d = Some (Fs.File c) ->
              Fs.lookup q d' = Some (Fs.File c).
Proof.
  revert d d'. induction segs as [|s rest IH]; intros d d' H ND q c NE L.
  - simpl in ND. destruct d as [x|ds]; [|exfalso; exact (ND ds eq_refl)].
    destruct q as [|k q']; [congruence|discriminate].
  - destruct d as [x|ds]; [discriminate|].
    destruct q as [|k q']; [discriminate|].
    simpl in H, ND, L |- *.
    destruct rest as [|r rest'].
    + injection H as <-. simpl.
      destruct (k =? s) eqn:E.
      * apply String.eqb_eq in E. subst k. exfalso.
        destruct (Fs.assoc s ds) as [x|] eqn:A; [|discriminate].
        destruct q' as [|k' q'']; [congruence|].
        destruct x as [y|xs]; [discriminate|]. exact (ND xs eq_refl).
      * apply String.eqb_neq in E. rewrite (assoc_set_entry_other s k v ds E).
        exact L.
    + destruct (Fs.assoc s ds) as [c0|] eqn:A; [|discriminate].
      destruct (Fs.put (r :: rest') v c0) as [c'|] eqn:P; [|discriminate].
      injection H as <-. simpl.
      destruct (k =? s) eqn:E.
      * apply String.eqb_eq in E. subst k. rewrite assoc_set_entry_same.
        rewrite A in L. apply (IH c0 c' P ND q' c); [congruence|exact L].
      * apply String.eqb_neq in E. rewrite (assoc_set_entry_other s k c' ds E).
        exact L.
Qed.

(** ** What the operations of the file manager leave on the disk *)

Lemma resolve_resolve (cwd p : string) :
  Path.resolve cwd (Path.resolve cwd p) = Path.resolve cwd p.
Proof.
  unfold Path.resolve. f_equal.
  apply resolveSegs_render, resolveSegs_entry_names.
Qed.

Lemma probe_inv (cwd p : string) (w w1 : Fs.World) (b : bool) :
  Fs.succeeds (Fs.access cwd p) w = (Fs.Ok b, w1) ->
  w1 = w
  /\ b = match Fs.lookup (Fs.locate cwd p) (Fs.disk w) with
         | Some _ => true
         | None => false
         end.
Proof. rewrite succeeds_access. intros H. injection H as <- <-. auto. Qed.

Lemma mkdir_recursive_ok_inv (cwd p : string) (w w' : Fs.World) (u : unit) :
  Fs.mkdir_recursive cwd p w = (Fs.Ok u, w') ->
  exists d', Fs.mkdir_p (Fs.locate cwd p) (Fs.disk w) = Some d'
             /\ w' = Fs.with_disk w d'.
Proof.
  unfold Fs.mkdir_recursive, Fs.update.
  destruct (Fs.mkdir_p (Fs.locate cwd p) (Fs.disk w)) as [d' |]; [| discriminate].
  intros H. injection H as _ <-. eauto.
Qed.

Lemma failed_is_no_success {A} (msg : string) (r : Result A) (w w' : Fs.World) :
  Fs.ret (fail msg) w = (Fs.Ok r, w') -> success r = true -> False.
Proof. intros H. injection H as <- _. discriminate. Qed.

Lemma locate_dirname (cwd p : string) :
  Fs.locate cwd (Path.dirname (Path.resolve cwd p))
  = removelast (Path.resolveSegs cwd p).
Proof.
  unfold Path.resolve. rewrite dirname_render by apply resolveSegs_entry_names.
  unfold Fs.locate. apply resolveSegs_render.
  apply Forall_removelast, resolveSegs_entry_names.
Qed.

(** The steps of a computation that returned a value, one by one. *)
Ltac run_inv H :=
  repeat
    match type of H with
    | Fs.try_catch _ _ _ = (Fs.Ok _, _) =>
        apply try_catch_ok_inv in H as [H | (? & ? & _ & H)];
        [| solve [exfalso; eauto using failed_is_no_success]]
    | Fs.bind _ _ _ = (Fs.Ok _, _) =>
        let a := fresh "a" in
        let w1 := fresh "w" in
        let Hstep := fresh "Hstep" in
        apply bind_ok_inv in H as (a & w1 & Hstep & H)
    end.



Lemma mkdir_p_fresh_is_empty (segs : list string) (d d' : Fs.Node) :
  Fs.mkdir_p segs d = Some d' ->
  Fs.lookup segs d = None ->
  Fs.lookup segs d' = Some (Fs.Dir []).
Proof.
  revert d d'. induction segs as [|s rest IH]; intros d d' H L; [discriminate|].
  destruct d as [c|ds]; [discriminate|]. simpl in H, L.
  destruct (Fs.mkdir_p rest _) as [c'|] eqn:M; [|discriminate].
  injection H as <-. simpl. rewrite assoc_set_entry_same.
  destruct (Fs.assoc s ds) as [c0|] eqn:A.
  - exact (IH _ _ M L).
  - destruct rest as [|r rest'].
    + simpl in M. injection M as <-. reflexivity.
    + exact (IH _ _ M eq_refl).
Qed.

(** X2: [createFolder] never touches an entry that exists: on an existing target
    inside the sandbox it fails with the already-exists message and changes
    nothing; when it succeeds, the target was not there, is now an empty
    directory, and every file is as it was. *)
Theorem createFolder_makes_an_empty_directory :
  forall (cwd : string) (settings : AppSettings)
         (parentPath folderName : string) (w : Fs.World),
    let target :=
      Path.resolveSegs cwd
        (Path.join (JS.or_else parentPath (rootDirectory settings)) folderName) in
    (Fs.lookup target (Fs.disk w) <> None ->
     JS.startsWith (Path.render target) (Path.resolve cwd (rootDirectory settings))
     = true ->
     FileManagement.createFolder cwd settings parentPath folderName w
     = (Fs.Ok (fail "A folder with this name already exists"), w))
    /\ (forall w' r,
          FileManagement.createFolder cwd settings parentPath folderName w
          = (Fs.Ok r, w') ->
          success r = true ->
          payload r = Some (Path.render target)
          /\ Fs.lookup target (Fs.disk w) = None
          /\ Fs.lookup target (Fs.disk w') = Some (Fs.Dir [])
          /\ (forall q c, Fs.lookup q (Fs.disk w) = Some (Fs.File c) ->
                          Fs.lookup q (Fs.disk w') = Some (Fs.File c))
          /\ Fs.recentFiles w' = Fs.recentFiles w).
Proof.
  intros cwd settings parentPath folderName w target.
  unfold FileManagement.createFolder, FileManagement.caught.
  cbn [FileManagement.validatePathSecurity FileManagement.valid
       FileManagement.resolvedPath].
  set (p := Path.join (JS.or_else parentPath (rootDirectory settings)) folderName) in *.
  change (Path.render target) with (Path.resolve cwd p).
  split.
  - intros Hexists Hvalid. rewrite Hvalid. cbn [negb].
    apply try_catch_ok. rewrite present_run; [reflexivity |].
    rewrite locate_resolve. exact Hexists.
  - intros w' r H Hs.
    run_inv H.
    destruct (JS.startsWith (Path.resolve cwd p)
                            (Path.resolve cwd (rootDirectory settings))) eqn:Hvalid;
      cbn [negb] in H; [| exfalso; eauto using failed_is_no_success].
    run_inv H.
    apply probe_inv in Hstep as [-> ->].
    rewrite locate_resolve in H. fold target in H.
    destruct (Fs.lookup target (Fs.disk w)) eqn:Habsent;
      [exfalso; eauto using failed_is_no_success |].
    run_inv H.
    apply mkdir_recursive_ok_inv in Hstep as (d1 & Hmk & ->).
    injection H as <- <-.
    rewrite locate_resolve in Hmk. fold target in Hmk.
    cbn [Fs.disk Fs.with_disk Fs.recentFiles].
    repeat split; try reflexivity.
    + exact (mkdir_p_fresh_is_empty _ _ _ Hmk Habsent).
    + intros q c Hq. exact (mkdir_p_keeps_files _ _ _ Hmk q c Hq).
Qed.

Lemma createFolder_makes_an_empty_directory_witness :
  Fs.lookup (Path.resolveSegs "/" (Path.join "/w" "sub")) (Fs.disk sample_world) <> None
  /\ FileManagement.createFolder "/" sample_settings "/w" "sub" sample_world
     = (Fs.Ok (fail "A folder with this name already exists"), sample_world)
  /\ exists w',
       FileManagement.createFolder "/" sample_settings "/w/sub" "new" sample_world
       = (Fs.Ok (succeed "/w/sub/new"), w')
       /\ Fs.lookup ["w"; "sub"; "new"] (Fs.disk w') = Some (Fs.Dir []).
Proof.
  split; [vm_compute; discriminate |].
  split.
  - apply (proj1 (createFolder_makes_an_empty_directory "/" sample_settings
                    "/w" "sub" sample_world));
      [vm_compute; discriminate | reflexivity].
  - eexists. split; [vm_compute; reflexivity |].
    apply (proj2 (createFolder_makes_an_empty_directory "/" sample_settings
                    "/w/sub" "new" sample_world) _ _ eq_refl eq_refl).
Defined.

(** ** Removing *)

Lemma well_formed_cons (name : string) (c : Fs.Node) (rest : list (string * Fs.Node)) :
  Fs.well_formed (Fs.Dir ((name, c) :: rest))
  = Path.entry_name name
    && negb (existsb (fun e => fst e =? name) rest)
    && Fs.well_formed c
    && Fs.well_formed (Fs.Dir rest).
Proof. reflexivity. Qed.

Lemma well_formed_child (s : string) (es : list (string * Fs.Node)) (c : Fs.Node) :
  Fs.well_formed (Fs.Dir es) = true -> Fs.assoc s es = Some c ->
  Fs.well_formed c = true.
Proof.
  induction es as [|[k x] es IH]; [discriminate|].
  rewrite well_formed_cons. intros W A. simpl in A.
  apply andb_prop in W as [W W3]. apply andb_prop in W as [W W2].
  destruct (k =? s); [injection A as <-; exact W2 | exact (IH W3 A)].
Qed.

Lemma well_formed_lookup (segs : list string) (d n : Fs.Node) :
  Fs.well_formed d = true -> Fs.lookup segs d = Some n -> Fs.well_formed n = true.
Proof.
  revert d. induction segs as [|s rest IH]; intros d W L.
  - simpl in L. injection L as <-. exact W.
  - destruct d as [c|es]; [discriminate|]. simpl in L.
    destruct (Fs.assoc s es) as [c|] eqn:A; [|discriminate].
    exact (IH c (well_formed_child s es c W A) L).
Qed.

Lemma assoc_absent (s : string) (es : list (string * Fs.Node)) :
  existsb (fun e => fst e =? s) es = false -> Fs.assoc s es = None.
Proof.
  induction es as [|[k x] es IH]; [reflexivity|]. simpl.
  destruct (k =? s); [discriminate | exact IH].
Qed.

Lemma assoc_remove_entry_same (s : string) (es : list (string * Fs.Node)) :
  Fs.well_formed (Fs.Dir es) = true -> Fs.assoc s (Fs.remove_entry s es) = None.
Proof.
  induction es as [|[k x] es IH]; [reflexivity|].
  rewrite well_formed_cons. intros W.
  apply andb_prop in W as [W W3]. apply andb_prop in W as [W W2].
  apply andb_prop in W as [W0 W1]. apply negb_true_iff in W1.
  simpl. destruct (k =? s) eqn:E.
  - apply String.eqb_eq in E. subst k. exact (assoc_absent s es W1).
  - simpl. rewrite E. exact (IH W3).
Qed.

Lemma assoc_remove_entry_other (k k' : string) (es : list (string * Fs.Node)) :
  k' <> k -> Fs.assoc k' (Fs.remove_entry k es) = Fs.assoc k' es.
Proof.
  intros NE. induction es as [|[a x] es IH]; [reflexivity|]. simpl.
  destruct (a =? k) eqn:E.
  - apply String.eqb_eq in E. subst a.
    destruct (k =? k') eqn:E'; [apply String.eqb_eq in E'; congruence | reflexivity].
  - simpl. rewrite IH. reflexivity.
Qed.

(** On a well-formed disk, what was removed is gone. *)
Lemma remove_gone (segs : list string) (d d' : Fs.Node) :
  Fs.well_formed d = true ->
  Fs.remove segs d = Some d' -> Fs.lookup segs d' = None.
Proof.
  revert d d'. induction segs as [|s rest IH]; intros d d' W H; [discriminate|].
  destruct d as [c|es]; [discriminate|]. simpl in H.
  destruct (Fs.assoc s es) as [c|] eqn:A; [|discriminate].
  destruct rest as [|r rest'].
  - injection H as <-. simpl. now rewrite assoc_remove_entry_same.
  - destruct (Fs.remove (r :: rest') c) as [c'|] eqn:R; [|discriminate].
    injection H as <-.
    change (Fs.lookup (s :: r :: rest') (Fs.Dir (Fs.set_entry s c' es)))
      with (match Fs.assoc s (Fs.set_entry s c' es) with
            | Some x => Fs.lookup (r :: rest') x
            | None => None
            end).
    rewrite assoc_set_entry_same.
    exact (IH c c' (well_formed_child s es c W A) R).
Qed.

(** Removing leaves what is not below the removed path. *)
Lemma remove_keeps_files (segs : list string) (d d' : Fs.Node) :
  Fs.remove segs d = Some d' ->
  forall q c, Fs.is_prefix segs q = false ->
              Fs.lookup q d = Some (Fs.File c) -> Fs.lookup q d' = Some (Fs.File c).
Proof.
  revert d d'. induction segs as [|s rest IH]; intros d d' H q c P L; [discriminate|].
  destruct d as [x|es]; [discriminate|]. simpl in H.
  destruct (Fs.assoc s es) as [c0|] eqn:A; [|discriminate].
  destruct q as [|k q']; [discriminate|].
  simpl in P, L.
  destruct rest as [|r rest'].
  - injection H as <-. simpl.
    destruct (s =? k) eqn:E; [destruct q'; discriminate|].
    apply String.eqb_neq in E.
    rewrite assoc_remove_entry_other by congruence. exact L.
  - destruct (Fs.remove (r :: rest') c0) as [c'|] eqn:R; [|discriminate].
    injection H as <-.
    change (Fs.lookup (k :: q') (Fs.Dir (Fs.set_entry s c' es)))
      with (match Fs.assoc k (Fs.set_entry s c' es) with
            | Some x => Fs.lookup q' x
            | None => None
            end).
    destruct (s =? k) eqn:E.
    + apply String.eqb_eq in E. subst k. rewrite assoc_set_entry_same.
      rewrite A in L. simpl in P. exact (IH c0 c' R q' c P L).
    + apply String.eqb_neq in E.
      rewrite assoc_set_entry_other by congruence. exact L.
Qed.

Lemma nothing_below_a_file (segs q : list string) (d n : Fs.Node) (c : string) :
  Fs.lookup segs d = Some (Fs.File c) -> Fs.lookup q d = Some n ->
  Fs.is_prefix segs q = true -> q = segs.
Proof.
  revert d q. induction segs as [|s rest IH]; intros d q L Lq P.
  - simpl in L. injection L as ->. destruct q; [reflexivity | discriminate].
  - destruct q as [|k q']; [discriminate|]. simpl in P.
    apply andb_prop in P as [E P]. apply String.eqb_eq in E. subst k.
    destruct d as [x|es]; [discriminate|]. simpl in L, Lq.
    destruct (Fs.assoc s es) as [c0|]; [|discriminate].
    f_equal. exact (IH c0 q' L Lq P).
Qed.

Lemma unlink_ok_inv (cwd p : string) (w w' : Fs.World) (u : unit) :
  Fs.unlink cwd p w = (Fs.Ok u, w') ->
  exists c d',
    Fs.lookup (Fs.locate cwd p) (Fs.disk w) = Some (Fs.File c)
    /\ Fs.remove (Fs.locate cwd p) (Fs.disk w) = Some d'
    /\ w' = Fs.with_disk w d'.
Proof.
  unfold Fs.unlink, Fs.update.
  destruct (Fs.lookup (Fs.locate cwd p) (Fs.disk w)) as [[c | es] |];
    try discriminate.
  destruct (Fs.remove (Fs.locate cwd p) (Fs.disk w)) as [d' |]; [| discriminate].
  intros H. injection H as _ <-. eauto.
Qed.

(** X3: [deleteFile] removes regular files only: on a directory it fails and
    changes nothing; when it succeeds the path was a regular file inside the
    sandbox, is gone afterwards, and every other file is as it was. *)
Theorem deleteFile_removes_regular_files_only :
  forall (cwd : string) (settings : AppSettings) (filePath : string) (w : Fs.World),
    let segs := Path.resolveSegs cwd filePath in
    (forall es, Fs.lookup segs (Fs.disk w) = Some (Fs.Dir es) ->
                exists msg,
                  FileActions.deleteFile cwd settings filePath w
                  = (Fs.Ok (fail msg), w))
    /\ (forall r w',
          FileActions.deleteFile cwd settings filePath w = (Fs.Ok r, w') ->
          success r = true ->
          JS.startsWith (Path.resolve cwd filePath)
                        (Path.resolve cwd (rootDirectory settings)) = true
          /\ (exists c, Fs.lookup segs (Fs.disk w) = Some (Fs.File c))
          /\ (Fs.well_formed (Fs.disk w) = true -> Fs.lookup segs (Fs.disk w') = None)
          /\ (forall q c, q <> segs -> Fs.lookup q (Fs.disk w) = Some (Fs.File c) ->
                          Fs.lookup q (Fs.disk w') = Some (Fs.File c))
          /\ Fs.recentFiles w' = Fs.recentFiles w).
Proof.
  intros cwd settings filePath w segs.
  unfold FileActions.deleteFile.
  destruct (JS.startsWith (Path.resolve cwd filePath)
                          (Path.resolve cwd (rootDirectory settings))) eqn:Hvalid;
    cbn [negb].
  - split.
    + intros es Hdir. eexists.
      erewrite try_catch_throw; [reflexivity |].
      apply bind_throw. unfold Fs.unlink, Fs.update.
      rewrite locate_resolve. fold segs. rewrite Hdir. reflexivity.
    + intros r w' H Hs. run_inv H.
      apply unlink_ok_inv in Hstep as (c & d' & Hfile & Hrm & ->).
      rewrite locate_resolve in Hfile, Hrm. fold segs in Hfile, Hrm.
      injection H as <- <-. cbn [Fs.disk Fs.with_disk Fs.recentFiles].
      split; [reflexivity |]. split; [eauto |].
      split; [intros W; exact (remove_gone _ _ _ W Hrm) |].
      split; [| reflexivity].
      intros q c' NE Hq. apply (remove_keeps_files _ _ _ Hrm); [| exact Hq].
      destruct (Fs.is_prefix segs q) eqn:P; [| reflexivity].
      exfalso. apply NE. exact (nothing_below_a_file _ _ _ _ _ Hfile Hq P).
  - split.
    + intros es _. eexists. rewrite (try_catch_throw _ _ w w
        (Fs.Error "Access denied: File is outside the allowed directory"));
        reflexivity.
    + intros r w' H Hs. exfalso.
      apply try_catch_ok_inv in H as [H | (e & w1 & _ & H)];
        [discriminate | eauto using failed_is_no_success].
Qed.

Lemma deleteFile_removes_regular_files_only_witness :
  Fs.lookup (Path.resolveSegs "/" "/w/sub") (Fs.disk sample_world)
  = Some (Fs.Dir [("inner", Fs.Dir [])])
  /\ (exists msg,
        FileActions.deleteFile "/" sample_settings "/w/sub" sample_world
        = (Fs.Ok (fail msg), sample_world))
  /\ Fs.well_formed (Fs.disk sample_world) = true
  /\ exists w',
       FileActions.deleteFile "/" sample_settings "/w/a.md" sample_world
       = (Fs.Ok succeed_plain, w')
       /\ Fs.lookup ["w"; "a.md"] (Fs.disk w') = None
       /\ Fs.lookup ["w"; "b.md"] (Fs.disk w') = Some (Fs.File "second").
Proof.
  split; [reflexivity |].
  split.
  - exact (proj1 (deleteFile_removes_regular_files_only "/" sample_settings
                    "/w/sub" sample_world) _ eq_refl).
  - split; [reflexivity |].
    eexists. split; [vm_compute; reflexivity |].
    pose proof (proj2 (deleteFile_removes_regular_files_only "/" sample_settings
                         "/w/a.md" sample_world) _ _ eq_refl eq_refl)
      as (_ & _ & Hgone & Hkeep & _).
    split; [exact (Hgone eq_refl) |].
    apply Hkeep; [discriminate | reflexivity].
Defined.

(** ** Writing and reading back *)



(** X5: [getCurrentFileContent] is [readFile] with its exceptions turned into
    failure results: it always returns a structured result, changes nothing,
    and succeeds with a content exactly when [readFile] returns it. *)
Theorem getCurrentFileContent_is_readFile_caught :
  forall (cwd : string) (settings : AppSettings) (filePath : string) (w : Fs.World),
  exists r,
    AiChange.getCurrentFileContent cwd settings filePath w = (Fs.Ok r, w)
    /\ structured r
    /\ (forall c, r = succeed c
                  <-> FileActions.readFile cwd settings filePath w = (Fs.Ok c, w))
    /\ (forall e, FileActions.readFile cwd settings filePath w = (Fs.Throw e, w) ->
                  r = fail (Fs.message_or "Unknown error occurred" e)).
Proof.
  intros cwd settings filePath w.
  unfold AiChange.getCurrentFileContent, FileActions.readFile.
  destruct (JS.startsWith (Path.resolve cwd filePath)
                          (Path.resolve cwd (rootDirectory settings))) eqn:Hvalid;
    cbn [negb].
  - unfold Fs.try_catch, Fs.bind, Fs.readFile, Fs.query, Fs.ret.
    destruct (Fs.lookup (Fs.locate cwd (Path.resolve cwd filePath)) (Fs.disk w))
      as [[c | es] |].
    + exists (succeed c). split; [reflexivity |].
      split; [apply structured_succeed |]. split.
      * intros c'. split; intros H; [injection H as <- | injection H as ->];
          reflexivity.
      * discriminate.
    + eexists. split; [reflexivity |]. split; [apply structured_fail |]. split.
      * intros c'. split; discriminate.
      * intros e H. injection H as <-. reflexivity.
    + eexists. split; [reflexivity |]. split; [apply structured_fail |]. split.
      * intros c'. split; discriminate.
      * intros e H. injection H as <-. reflexivity.
  - eexists. split; [reflexivity |]. split; [apply structured_fail |]. split.
    + intros c'. split; discriminate.
    + intros e H. injection H as <-. reflexivity.
Qed.

(** ** Ends of strings *)

Lemma list_ascii_app (a b : string) :
  list_ascii_of_string (a ++ b)
  = (list_ascii_of_string a ++ list_ascii_of_string b)%list.
Proof. induction a as [|c a IH]; simpl; [reflexivity | now rewrite IH]. Qed.

Lemma string_of_list_app (a b : list ascii) :
  string_of_list_ascii (a ++ b)%list
  = string_of_list_ascii a ++ string_of_list_ascii b.
Proof. induction a as [|c a IH]; simpl; [reflexivity | now rewrite IH]. Qed.

Lemma rev_string_app (a b : string) :
  JS.rev_string (a ++ b) = JS.rev_string b ++ JS.rev_string a.
Proof.
  unfold JS.rev_string. now rewrite list_ascii_app, rev_app_distr, string_of_list_app.
Qed.

Lemma rev_string_involutive (s : string) : JS.rev_string (JS.rev_string s) = s.
Proof.
  unfold JS.rev_string.
  now rewrite list_ascii_of_string_of_list_ascii, rev_involutive,
    string_of_list_ascii_of_string.
Qed.

Lemma startsWith_inv (s p : string) :
  JS.startsWith s p = true -> exists t, s = p ++ t.
Proof.
  revert s. induction p as [|x p IH]; intros s H.
  - exists s. reflexivity.
  - destruct s as [|c s]; [discriminate|]. simpl in H.
    apply andb_prop in H as [E H]. apply Ascii.eqb_eq in E. subst c.
    destruct (IH s H) as [t ->]. exists t. reflexivity.
Qed.

Lemma endsWith_inv (s p : string) :
  JS.endsWith s p = true -> exists t, s = t ++ p.
Proof.
  unfold JS.endsWith. intros H. apply startsWith_inv in H as [t H].
  exists (JS.rev_string t).
  rewrite <- (rev_string_involutive s), H, rev_string_app, rev_string_involutive.
  reflexivity.
Qed.

Lemma endsWith_app (a s p : string) :
  JS.endsWith s p = true -> JS.endsWith (a ++ s) p = true.
Proof.
  unfold JS.endsWith. intros H. rewrite rev_string_app. now apply startsWith_app.
Qed.

Lemma endsWith_suffix (t p : string) : JS.endsWith (t ++ p) p = true.
Proof. apply endsWith_app. unfold JS.endsWith. apply startsWith_refl. Qed.

Lemma substring_prefix (t p : string) : substring 0 (String.length t) (t ++ p) = t.
Proof.
  induction t as [|c t IH]; simpl.
  - destruct p; reflexivity.
  - now rewrite IH.
Qed.

(** The name [createMarkdownFile] gives a file is its title followed by
    ".md". *)
Lemma strip_md_name (fileName : string) :
  (if JS.endsWith fileName ".md" then fileName else fileName ++ ".md")
  = JS.strip_md fileName ++ ".md".
Proof.
  unfold JS.strip_md. destruct (JS.endsWith fileName ".md") eqn:E; [| reflexivity].
  apply endsWith_inv in E as [t ->].
  rewrite append_length. cbn [String.length].
  replace (String.length t + 3 - 3) with (String.length t) by lia.
  now rewrite substring_prefix.
Qed.

(** ** The last segment of a path *)

Lemma split_app_slash_free (a b : string) :
  Path.slash_free b = true ->
  Path.split (a ++ b)
  = (removelast (Path.split a) ++ [(last (Path.split a) "" ++ b)%string])%list.
Proof.
  intros Hb. induction a as [|c a IH].
  - simpl. now rewrite split_slash_free.
  - cbn [append Path.split]. destruct (Ascii.eqb c Path.slash).
    + rewrite IH. pose proof (split_not_nil a) as NN.
      destruct (Path.split a) as [|x l]; [congruence|]. reflexivity.
    + rewrite IH. pose proof (split_not_nil a) as NN.
      destruct (Path.split a) as [|x l]; [congruence|].
      destruct l as [|y l']; reflexivity.
Qed.

Lemma split_ends (p suffix : string) :
  Path.slash_free suffix = true ->
  JS.endsWith p suffix = true ->
  exists l seg, Path.split p = (l ++ [seg])%list /\ JS.endsWith seg suffix = true.
Proof.
  intros Hs H. apply endsWith_inv in H as [t ->].
  rewrite (split_app_slash_free t suffix Hs).
  eexists _, _. split; [reflexivity | apply endsWith_suffix].
Qed.

Lemma endsWith_length (s p : string) :
  JS.endsWith s p = true -> String.length p <= String.length s.
Proof. intros H. apply endsWith_inv in H as [t ->]. rewrite append_length. lia. Qed.

(** A path whose last segment is a name resolves to a path that ends with
    that segment. *)
Lemma resolveSegs_last_segment (cwd p : string) (l : list string) (seg : string) :
  Path.split p = (l ++ [seg])%list -> Path.plain seg = true ->
  exists dir, Path.resolveSegs cwd p = (dir ++ [seg])%list.
Proof.
  intros Hsplit Hplain. rewrite resolveSegs_run, Hsplit, run_snoc.
  rewrite step_plain by exact Hplain. simpl. eauto.
Qed.

Lemma join_last_segment (cwd a b : string) (l : list string) (seg : string) :
  Path.split b = (l ++ [seg])%list -> Path.plain seg = true ->
  exists dir, Path.resolveSegs cwd (Path.join a b) = (dir ++ [seg])%list.
Proof.
  intros Hsplit Hplain.
  assert (Hb : b <> "").
  { intros ->. destruct l as [|x l]; simpl in Hsplit.
    - injection Hsplit as <-. discriminate.
    - injection Hsplit as _ Hl. destruct l; discriminate. }
  unfold Path.join.
  set (joined := if a =? "" then b else if b =? "" then a else a ++ Path.sep ++ b).
  assert (Hj : exists l', Path.split joined = (l' ++ [seg])%list).
  { unfold joined. destruct (a =? ""); [eauto |].
    destruct (b =? "") eqn:E; [apply String.eqb_eq in E; congruence |].
    change (a ++ Path.sep ++ b) with (a ++ String Path.slash b).
    rewrite split_app_slash, Hsplit, app_assoc. eauto. }
  destruct Hj as [l' Hj].
  assert (Hne : joined <> "").
  { intros E. rewrite E in Hj. destruct l' as [|x l'']; simpl in Hj.
    - injection Hj as <-. discriminate.
    - injection Hj as _ Hl. destruct l''; discriminate. }
  destruct (joined =? "") eqn:E; [apply String.eqb_eq in E; congruence |].
  rewrite resolveSegs_normalize by exact Hne.
  exact (resolveSegs_last_segment cwd joined l' seg Hj Hplain).
Qed.

Lemma render_ends (dir : list string) (seg suffix : string) :
  JS.endsWith seg suffix = true ->
  JS.endsWith (Path.render (dir ++ [seg])%list) suffix = true.
Proof.
  intros H. destruct dir as [|x dir].
  - unfold Path.render. simpl. change (String "/" seg) with ("/" ++ seg).
    now apply endsWith_app.
  - rewrite render_snoc by discriminate. rewrite <- append_assoc.
    now apply endsWith_app.
Qed.

Lemma put_needs_parent (segs : list string) (v d d' : Fs.Node) :
  segs <> [] -> Fs.put segs v d = Some d' ->
  exists es, Fs.lookup (removelast segs) d = Some (Fs.Dir es).
Proof.
  revert d d'. induction segs as [|s rest IH]; intros d d' NE H; [congruence|].
  destruct d as [x|ds]; [discriminate|].
  destruct rest as [|r rest'].
  - exists ds. reflexivity.
  - change (Fs.put (s :: r :: rest') v (Fs.Dir ds))
      with (match Fs.assoc s ds with
            | Some c =>
                match Fs.put (r :: rest') v c with
                | Some c' => Some (Fs.Dir (Fs.set_entry s c' ds))
                | None => None
                end
            | None => None
            end) in H.
    destruct (Fs.assoc s ds) as [c0|] eqn:A; [|discriminate].
    destruct (Fs.put (r :: rest') v c0) as [c'|] eqn:P; [|discriminate].
    change (removelast (s :: r :: rest')) with (s :: removelast (r :: rest')).
    cbn [Fs.lookup]. rewrite A. apply (IH c0 c'); [discriminate | exact P].
Qed.

Lemma update_throw_inv (f : Fs.Node -> Fs.Outcome Fs.Node) (w w1 : Fs.World)
      (e : Fs.Exn) :
  Fs.update f w = (Fs.Throw e, w1) -> w1 = w.
Proof.
  unfold Fs.update. destruct (f (Fs.disk w)); intros H; inversion H; reflexivity.
Qed.

(** X6: [createMarkdownFile]: a failure leaves the world as it was; a success
    made a file that was not there, in a directory that was (no directory is
    created), whose name is the title followed by ".md" and whose text is
    the heading with the title and the standard first line; the other files
    are as they were. *)
Theorem createMarkdownFile_names_and_heads_the_file :
  forall (cwd : string) (settings : AppSettings) (parentPath fileName : string)
         (w w' : Fs.World) (r : Result string),
    FileActions.createMarkdownFile cwd settings parentPath fileName w = (Fs.Ok r, w') ->
    let target :=
      Path.resolveSegs cwd
        (Path.join (JS.or_else parentPath (rootDirectory settings))
                   (JS.strip_md fileName ++ ".md")) in
    (success r = false -> w' = w)
    /\ (success r = true ->
        payload r = Some (Path.render target)
        /\ JS.endsWith (Path.render target) ".md" = true
        /\ Fs.lookup target (Fs.disk w) = None
        /\ (exists es, Fs.lookup (removelast target) (Fs.disk w) = Some (Fs.Dir es))
        /\ FileActions.readFile cwd settings (Path.render target) w'
           = (Fs.Ok ("# " ++ JS.strip_md fileName ++ JS.lf ++ JS.lf
                          ++ "Start writing here..." ++ JS.lf), w')
        /\ (forall q c, Fs.lookup q (Fs.disk w) = Some (Fs.File c) ->
                        Fs.lookup q (Fs.disk w') = Some (Fs.File c))).
Proof.
  intros cwd settings parentPath fileName w w' r H target.
  unfold FileActions.createMarkdownFile in H.
  rewrite strip_md_name in H.
  set (p := Path.join (JS.or_else parentPath (rootDirectory settings))
                      (JS.strip_md fileName ++ ".md")) in *.
  assert (Hlast : exists dir seg, target = (dir ++ [seg])%list
                                  /\ JS.endsWith seg ".md" = true).
  { destruct (split_ends (JS.strip_md fileName ++ ".md") ".md" eq_refl
                         (endsWith_suffix _ _)) as (l & seg & Hsplit & Hend).
    assert (Hplain : Path.plain seg = true).
    { apply plain_long. exact (endsWith_length _ _ Hend). }
    destruct (join_last_segment cwd (JS.or_else parentPath (rootDirectory settings))
                _ l seg Hsplit Hplain) as [dir Hdir].
    exists dir, seg. split; [exact Hdir | exact Hend]. }
  destruct (JS.startsWith (Path.resolve cwd p)
                          (Path.resolve cwd (rootDirectory settings))) eqn:Hvalid;
    cbn [negb] in H.
  2: { rewrite (try_catch_throw _ _ w w
                  (Fs.Error "Access denied: Path is outside the allowed directory"))
         in H by reflexivity.
       unfold Fs.ret in H. injection H as <- <-. split; [reflexivity | discriminate]. }
  unfold Fs.try_catch in H.
  rewrite (bind_ok _ _ _ _ _ (succeeds_access cwd (Path.resolve cwd p) w)) in H.
  rewrite locate_resolve in H. fold target in H.
  destruct (Fs.lookup target (Fs.disk w)) eqn:Habsent.
  { unfold Fs.ret in H. injection H as <- <-. split; [reflexivity | discriminate]. }
  unfold Fs.bind at 1 in H.
  destruct (Fs.writeFile cwd (Path.resolve cwd p) _ w) as [[u | e |] w1] eqn:Hwrite.
  - injection H as <- <-. split; [discriminate | intros _].
    apply writeFile_ok_inv in Hwrite as (d2 & Hput & -> & Hnodir).
    rewrite locate_resolve in Hput, Hnodir. fold target in Hput, Hnodir.
    cbn [Fs.disk Fs.with_disk payload].
    assert (Hnew := lookup_put_same _ _ _ _ Hput).
    split; [reflexivity |].
    split. { destruct Hlast as (dir & seg & -> & Hend). now apply render_ends. }
    split; [reflexivity |].
    split.
    { refine (put_needs_parent target _ _ _ _ Hput).
      destruct Hlast as (dir & seg & E & _). rewrite E. now destruct dir. }
    split.
    + unfold FileActions.readFile.
      change (Path.render target) with (Path.resolve cwd p).
      rewrite resolve_resolve, Hvalid. cbn [negb].
      apply readFile_found. rewrite locate_resolve. exact Hnew.
    + intros q c Hq. apply (put_keeps_files _ _ _ _ Hput Hnodir); [| exact Hq].
      intros ->. congruence.
  - unfold Fs.writeFile in Hwrite. apply update_throw_inv in Hwrite as ->.
    unfold Fs.ret in H. injection H as <- <-. split; [reflexivity | discriminate].
  - discriminate.
Qed.

Lemma createMarkdownFile_names_and_heads_the_file_witness :
  exists w',
    FileActions.createMarkdownFile "/" sample_settings "/w/sub" "plan" sample_world
    = (Fs.Ok (succeed "/w/sub/plan.md"), w')
    /\ JS.endsWith "/w/sub/plan.md" ".md" = true
    /\ FileActions.readFile "/" sample_settings "/w/sub/plan.md" w'
       = (Fs.Ok ("# plan" ++ JS.lf ++ JS.lf ++ "Start writing here..." ++ JS.lf), w').
Proof.
  eexists. split; [vm_compute; reflexivity |].
  pose proof (proj2 (createMarkdownFile_names_and_heads_the_file "/" sample_settings
                       "/w/sub" "plan" sample_world _ _ eq_refl) eq_refl)
    as (_ & Hend & _ & _ & Hread & _).
  split; [exact Hend | exact Hread].
Defined.

(** ** Deleting *)

Lemma rm_recursive_ok_inv (cwd p : string) (w w' : Fs.World) (u : unit) :
  Fs.rm_recursive cwd p w = (Fs.Ok u, w') ->
  exists d', Fs.remove (Fs.locate cwd p) (Fs.disk w) = Some d'
             /\ w' = Fs.with_disk w d'.
Proof.
  unfold Fs.rm_recursive, Fs.update.
  destruct (Fs.remove (Fs.locate cwd p) (Fs.disk w)) as [d' |]; [| discriminate].
  intros H. injection H as _ <-. eauto.
Qed.

Lemma deletePermanently_ok_inv (cwd : string) (stats : Fs.Stats) (p : string)
      (w w' : Fs.World) (u : unit) :
  FileManagement.deletePermanently cwd stats p w = (Fs.Ok u, w') ->
  exists d', Fs.remove (Fs.locate cwd p) (Fs.disk w) = Some d'
             /\ w' = Fs.with_disk w d'.
Proof.
  unfold FileManagement.deletePermanently. destruct (Fs.st_isDirectory stats).
  - apply rm_recursive_ok_inv.
  - intros H. apply unlink_ok_inv in H as (c & d' & _ & Hrm & ->). eauto.
Qed.

Lemma removeRecentFile_run (p : string) (w : Fs.World) :
  RecentFiles.removeRecentFile p w
  = (Fs.Ok succeed_plain,
     Fs.mkWorld (Fs.disk w)
       (filter (fun f => negb (Fs.recent_path f =? p)) (Fs.recentFiles w))).
Proof. reflexivity. Qed.

Lemma filter_leaves_no_entry (p : string) (l : list Fs.RecentFile) :
  Forall (fun f => Fs.recent_path f <> p)
         (filter (fun f => negb (Fs.recent_path f =? p)) l).
Proof.
  apply Forall_forall. intros f Hin. apply filter_In in Hin as [_ H].
  apply negb_true_iff, String.eqb_neq in H. exact H.
Qed.

(** X7: [deleteItem]: a path that does not exist gives a failure and no change,
    before the trash is tried; after any success the record of recent files
    has no entry for the path; a permanent deletion that succeeds removes the
    item (a directory with all below it), takes exactly the entries of the
    path out of the record, and leaves every file that is not below the
    path. *)
Theorem deleteItem_removes_item_and_recent_entry :
  forall (cwd : string) (settings : AppSettings)
         (trashPackage : string -> Fs.World -> option Fs.Exn * Fs.World)
         (itemPath : string) (w : Fs.World),
    let segs := Path.resolveSegs cwd itemPath in
    (Fs.lookup segs (Fs.disk w) = None ->
     forall useTrash, exists msg,
       FileManagement.deleteItem cwd settings trashPackage itemPath useTrash w
       = (Fs.Ok (fail msg), w))
    /\ (forall useTrash r w',
          FileManagement.deleteItem cwd settings trashPackage itemPath useTrash w
          = (Fs.Ok r, w') ->
          success r = true ->
          Fs.lookup segs (Fs.disk w) <> None
          /\ Forall (fun f => Fs.recent_path f <> Path.render segs)
                    (Fs.recentFiles w'))
    /\ (forall r w',
          FileManagement.deleteItem cwd settings trashPackage itemPath false w
          = (Fs.Ok r, w') ->
          success r = true ->
          Fs.recentFiles w'
          = filter (fun f => negb (Fs.recent_path f =? Path.render segs))
                   (Fs.recentFiles w)
          /\ (Fs.well_formed (Fs.disk w) = true -> Fs.lookup segs (Fs.disk w') = None)
          /\ (forall q c, Fs.is_prefix segs q = false ->
                          Fs.lookup q (Fs.disk w) = Some (Fs.File c) ->
                          Fs.lookup q (Fs.disk w') = Some (Fs.File c))).
Proof.
  intros cwd settings trashPackage itemPath w segs.
  unfold FileManagement.deleteItem, FileManagement.caught.
  cbn [FileManagement.validatePathSecurity FileManagement.valid
       FileManagement.resolvedPath].
  change (Path.render segs) with (Path.resolve cwd itemPath).
  destruct (JS.startsWith (Path.resolve cwd itemPath)
                          (Path.resolve cwd (rootDirectory settings))) eqn:Hvalid;
    cbn [negb].
  2: { split; [| split].
       - intros _ useTrash. eexists. apply try_catch_ok. reflexivity.
       - intros useTrash r w' H Hs. exfalso. run_inv H.
         eauto using failed_is_no_success.
       - intros r w' H Hs. exfalso. run_inv H.
         eauto using failed_is_no_success. }
  split; [| split].
  - intros Hmissing useTrash. eexists.
    erewrite try_catch_throw; [reflexivity |].
    apply bind_throw. apply stat_missing. rewrite locate_resolve. exact Hmissing.
  - intros useTrash r w' H Hs. run_inv H.
    rewrite stat_run, locate_resolve in Hstep. fold segs in Hstep.
    split.
    + destruct (Fs.lookup segs (Fs.disk w)); [discriminate | inversion Hstep].
    + rewrite removeRecentFile_run in Hstep1. injection Hstep1 as _ <-.
      injection H as _ <-. cbn [Fs.recentFiles]. apply filter_leaves_no_entry.
  - intros r w' H Hs. run_inv H.
    rewrite stat_run in Hstep.
    destruct (Fs.lookup _ (Fs.disk w)); inversion Hstep; subst; clear Hstep.
    apply deletePermanently_ok_inv in Hstep0 as (d' & Hrm & ->).
    rewrite locate_resolve in Hrm. fold segs in Hrm.
    rewrite removeRecentFile_run in Hstep1. injection Hstep1 as _ <-.
    injection H as _ <-. cbn [Fs.disk Fs.with_disk Fs.recentFiles].
    split; [reflexivity |].
    split; [intros W; exact (remove_gone _ _ _ W Hrm) |].
    intros q c P Hq. exact (remove_keeps_files _ _ _ Hrm q c P Hq).
Qed.

Lemma deleteItem_removes_item_and_recent_entry_witness :
  let recent := [Fs.mkRecent "/w/sub" "sub" "open"; Fs.mkRecent "/w/a.md" "a.md" "save"] in
  let w := Fs.mkWorld sample_disk recent in
  let noTrash := fun (_ : string) (w : Fs.World) => (Some Fs.NonError, w) in
  Fs.lookup (Path.resolveSegs "/" "/w/missing") (Fs.disk w) = None
  /\ (exists msg,
        FileManagement.deleteItem "/" sample_settings noTrash "/w/missing" true w
        = (Fs.Ok (fail msg), w))
  /\ Fs.well_formed (Fs.disk w) = true
  /\ exists w',
       FileManagement.deleteItem "/" sample_settings noTrash "/w/sub" false w
       = (Fs.Ok succeed_plain, w')
       /\ Fs.recentFiles w' = [Fs.mkRecent "/w/a.md" "a.md" "save"]
       /\ Fs.lookup ["w"; "sub"] (Fs.disk w') = None
       /\ Fs.lookup ["w"; "a.md"] (Fs.disk w') = Some (Fs.File "# Title").
Proof.
  intros recent w noTrash.
  split; [reflexivity |].
  split.
  - exact (proj1 (deleteItem_removes_item_and_recent_entry "/" sample_settings
                    noTrash "/w/missing" w) eq_refl true).
  - split; [reflexivity |].
    eexists. split; [vm_compute; reflexivity |].
    pose proof (proj2 (proj2 (deleteItem_removes_item_and_recent_entry "/"
                                sample_settings noTrash "/w/sub" w))
                      _ _ eq_refl eq_refl) as (Hrecent & Hgone & Hkeep).
    split; [exact Hrecent |].
    split; [exact (Hgone eq_refl) |].
    apply Hkeep; reflexivity.
Defined.

(** ** Renaming and moving *)

Lemma list_eqb_eq (a b : list string) : Fs.list_eqb a b = true -> a = b.
Proof.
  revert b. induction a as [|x a IH]; intros [|y b] H; try discriminate.
  - reflexivity.
  - simpl in H. apply andb_prop in H as [E H]. apply String.eqb_eq in E.
    subst y. f_equal. exact (IH b H).
Qed.

Lemma prefix_exists (p q : list string) (d n : Fs.Node) :
  Fs.lookup q d = Some n -> Fs.is_prefix p q = true -> Fs.lookup p d <> None.
Proof.
  revert q d. induction p as [|s p IH]; intros q d L P; [discriminate|].
  destruct q as [|k q]; [discriminate|]. simpl in P.
  apply andb_prop in P as [E P]. apply String.eqb_eq in E. subst k.
  destruct d as [x|es]; [discriminate|]. simpl in L |- *.
  destruct (Fs.assoc s es) as [c|]; [| discriminate].
  exact (IH q c L P).
Qed.

Lemma put_keeps_absent (segs : list string) (v d d' : Fs.Node) :
  Fs.put segs v d = Some d' ->
  forall q, Fs.is_prefix segs q = false ->
            Fs.lookup q d = None -> Fs.lookup q d' = None.
Proof.
  revert d d'. induction segs as [|s rest IH]; intros d d' H q P L; [discriminate|].
  destruct d as [x|es]; [discriminate|].
  destruct q as [|k q']; [discriminate|].
  simpl in P, L.
  destruct rest as [|r rest'].
  - simpl in H. injection H as <-. simpl.
    destruct (s =? k) eqn:E; [destruct q'; discriminate|].
    apply String.eqb_neq in E. rewrite assoc_set_entry_other by congruence. exact L.
  - change (Fs.put (s :: r :: rest') v (Fs.Dir es))
      with (match Fs.assoc s es with
            | Some c =>
                match Fs.put (r :: rest') v c with
                | Some c' => Some (Fs.Dir (Fs.set_entry s c' es))
                | None => None
                end
            | None => None
            end) in H.
    destruct (Fs.assoc s es) as [c0|] eqn:A; [|discriminate].
    destruct (Fs.put (r :: rest') v c0) as [c'|] eqn:Hp; [|discriminate].
    injection H as <-.
    change (Fs.lookup (k :: q') (Fs.Dir (Fs.set_entry s c' es)))
      with (match Fs.assoc k (Fs.set_entry s c' es) with
            | Some x => Fs.lookup q' x
            | None => None
            end).
    destruct (s =? k) eqn:E.
    + apply String.eqb_eq in E. subst k. rewrite assoc_set_entry_same.
      rewrite A in L. simpl in P. exact (IH c0 c' Hp q' P L).
    + apply String.eqb_neq in E. rewrite assoc_set_entry_other by congruence.
      exact L.
Qed.

Lemma remove_keeps_absent (segs : list string) (d d' : Fs.Node) :
  Fs.well_formed d = true ->
  Fs.remove segs d = Some d' ->
  forall q, Fs.lookup q d = None -> Fs.lookup q d' = None.
Proof.
  revert d d'. induction segs as [|s rest IH]; intros d d' W H q L; [discriminate|].
  destruct d as [x|es]; [discriminate|]. simpl in H.
  destruct (Fs.assoc s es) as [c0|] eqn:A; [|discriminate].
  destruct q as [|k q']; [discriminate|].
  simpl in L.
  destruct rest as [|r rest'].
  - injection H as <-. simpl.
    destruct (String.eqb_spec k s) as [-> | NE].
    + now rewrite assoc_remove_entry_same.
    + rewrite assoc_remove_entry_other by exact NE. exact L.
  - destruct (Fs.remove (r :: rest') c0) as [c'|] eqn:R; [|discriminate].
    injection H as <-.
    change (Fs.lookup (k :: q') (Fs.Dir (Fs.set_entry s c' es)))
      with (match Fs.assoc k (Fs.set_entry s c' es) with
            | Some x => Fs.lookup q' x
            | None => None
            end).
    destruct (String.eqb_spec k s) as [-> | NE].
    + rewrite assoc_set_entry_same. rewrite A in L.
      exact (IH c0 c' (well_formed_child s es c0 W A) R q' L).
    + rewrite assoc_set_entry_other by exact NE. exact L.
Qed.

Lemma rename_ok_inv (cwd old new : string) (w w' : Fs.World) (u : unit) :
  Fs.rename cwd old new w = (Fs.Ok u, w') ->
  exists d', Fs.rename_tree (Fs.locate cwd old) (Fs.locate cwd new) (Fs.disk w)
             = Fs.Ok d'
             /\ w' = Fs.with_disk w d'.
Proof.
  unfold Fs.rename, Fs.update.
  destruct (Fs.rename_tree _ _ (Fs.disk w)) as [d' | e |]; try discriminate.
  intros H. injection H as _ <-. eauto.
Qed.

(** A rename onto a path where nothing is takes the node out of its place
    and puts it at the new one. *)
Lemma rename_tree_fresh (old new : list string) (d d' : Fs.Node) :
  Fs.lookup new d = None ->
  Fs.rename_tree old new d = Fs.Ok d' ->
  exists src d1,
    Fs.lookup old d = Some src
    /\ Fs.remove old d = Some d1
    /\ Fs.put new src d1 = Some d'
    /\ Fs.is_prefix new old = false
    /\ Fs.is_prefix old new = false.
Proof.
  intros Hnew. unfold Fs.rename_tree.
  destruct (Fs.lookup old d) as [src |] eqn:Hold; [| discriminate].
  destruct (Fs.list_eqb old new) eqn:E.
  { apply list_eqb_eq in E. subst new. congruence. }
  destruct (Fs.is_prefix old new) eqn:P; [discriminate |].
  rewrite Hnew.
  destruct (Fs.remove old d) as [d1 |]; [| discriminate].
  destruct (Fs.put new src d1) as [d2 |] eqn:Hput; [| discriminate].
  intros H. injection H as <-. exists src, d1.
  repeat split; try reflexivity; try assumption.
  destruct (Fs.is_prefix new old) eqn:P'; [| reflexivity].
  exfalso. exact (prefix_exists new old d src Hold P' Hnew).
Qed.

(** The node moved by a rename onto a fresh path: it is at the new path,
    gone from the old one, and the files outside it are as they were. *)
Lemma rename_tree_moves (old new : list string) (d d' : Fs.Node) :
  Fs.well_formed d = true ->
  Fs.lookup new d = None ->
  Fs.rename_tree old new d = Fs.Ok d' ->
  exists n,
    Fs.lookup old d = Some n
    /\ Fs.lookup new d' = Some n
    /\ Fs.lookup old d' = None
    /\ (forall q c, Fs.is_prefix old q = false ->
                    Fs.lookup q d = Some (Fs.File c) ->
                    Fs.lookup q d' = Some (Fs.File c)).
Proof.
  intros W Hnew H.
  destruct (rename_tree_fresh old new d d' Hnew H)
    as (src & d1 & Hold & Hrm & Hput & Pno & Pon).
  exists src. split; [exact Hold |].
  split; [exact (lookup_put_same _ _ _ _ Hput) |].
  split.
  - apply (put_keeps_absent _ _ _ _ Hput old Pno). exact (remove_gone _ _ _ W Hrm).
  - intros q c P Hq.
    assert (Hnew1 : Fs.lookup new d1 = None)
      by exact (remove_keeps_absent _ _ _ W Hrm new Hnew).
    apply (put_keeps_files _ _ _ _ Hput).
    + intros es. congruence.
    + intros ->. congruence.
    + exact (remove_keeps_files _ _ _ Hrm q c P Hq).
Qed.

(** X8: A [renameItem] that succeeds moved the node of the old path to the
    path of the new name in the same directory, where nothing was; the old
    path is gone, the files outside the item are as they were, and the
    record of recent files is not touched. *)
Theorem renameItem_success_moves_the_node :
  forall (cwd : string) (settings : AppSettings) (oldPath newName : string)
         (w w' : Fs.World) (r : Result string),
    Fs.well_formed (Fs.disk w) = true ->
    FileManagement.renameItem cwd settings oldPath newName w = (Fs.Ok r, w') ->
    success r = true ->
    let old := Path.resolveSegs cwd oldPath in
    let new :=
      Path.resolveSegs cwd
        (Path.join (Path.dirname (Path.resolve cwd oldPath)) newName) in
    payload r = Some (Path.render new)
    /\ Fs.lookup new (Fs.disk w) = None
    /\ (exists n, Fs.lookup old (Fs.disk w) = Some n
                  /\ Fs.lookup new (Fs.disk w') = Some n)
    /\ Fs.lookup old (Fs.disk w') = None
    /\ (forall q c, Fs.is_prefix old q = false ->
                    Fs.lookup q (Fs.disk w) = Some (Fs.File c) ->
                    Fs.lookup q (Fs.disk w') = Some (Fs.File c))
    /\ Fs.recentFiles w' = Fs.recentFiles w.
Proof.
  intros cwd settings oldPath newName w w' r W H Hs old new.
  unfold FileManagement.renameItem, FileManagement.caught in H.
  cbn [FileManagement.validatePathSecurity FileManagement.valid
       FileManagement.resolvedPath] in H.
  set (p := Path.join (Path.dirname (Path.resolve cwd oldPath)) newName) in *.
  run_inv H.
  destruct (JS.startsWith (Path.resolve cwd oldPath)
                          (Path.resolve cwd (rootDirectory settings)));
    cbn [negb] in H; [| exfalso; eauto using failed_is_no_success].
  destruct (JS.startsWith (Path.resolve cwd p)
                          (Path.resolve cwd (rootDirectory settings)));
    cbn [negb] in H; [| exfalso; eauto using failed_is_no_success].
  run_inv H.
  apply probe_inv in Hstep as [-> ->].
  rewrite locate_resolve in H. fold new in H.
  destruct (Fs.lookup new (Fs.disk w)) eqn:Habsent;
    [exfalso; eauto using failed_is_no_success |].
  run_inv H.
  apply rename_ok_inv in Hstep as (d' & Hren & ->).
  rewrite !locate_resolve in Hren. fold old new in Hren.
  injection H as <- <-. cbn [Fs.disk Fs.with_disk Fs.recentFiles payload succeed].
  destruct (rename_tree_moves old new (Fs.disk w) d' W Habsent Hren)
    as (n & Hold & Hnew & Hgone & Hkeep).
  repeat split; try reflexivity; try assumption. eauto.
Qed.

Lemma renameItem_success_moves_the_node_witness :
  Fs.well_formed (Fs.disk sample_world) = true
  /\ exists w',
       FileManagement.renameItem "/" sample_settings "/w/sub" "dir" sample_world
       = (Fs.Ok (succeed "/w/dir"), w')
       /\ Fs.lookup ["w"; "dir"] (Fs.disk w') = Some (Fs.Dir [("inner", Fs.Dir [])])
       /\ Fs.lookup ["w"; "sub"] (Fs.disk w') = None.
Proof.
  split; [reflexivity |].
  eexists. split; [vm_compute; reflexivity |].
  pose proof (renameItem_success_moves_the_node "/" sample_settings "/w/sub" "dir"
                sample_world _ _ eq_refl eq_refl eq_refl)
    as (_ & _ & (n & Hold & Hnew) & Hgone & _).
  split; [| exact Hgone].
  vm_compute in Hold. injection Hold as <-. exact Hnew.
Defined.

Lemma mkdir_p_lookup_eq (segs : list string) (d d' : Fs.Node) :
  Fs.mkdir_p segs d = Some d' ->
  forall q, Fs.is_prefix q segs = false -> Fs.lookup q d' = Fs.lookup q d.
Proof.
  revert d d'. induction segs as [|s rest IH]; intros d d' H q P.
  - destruct d as [c|ds]; [discriminate|]. simpl in H. now injection H as <-.
  - destruct d as [c|ds]; [discriminate|]. simpl in H.
    destruct (Fs.mkdir_p rest _) as [c'|] eqn:M; [|discriminate].
    injection H as <-.
    destruct q as [|k q']; [discriminate|].
    simpl in P |- *.
    destruct (k =? s) eqn:E.
    + apply String.eqb_eq in E. subst k. rewrite assoc_set_entry_same.
      simpl in P. rewrite (IH _ _ M q' P).
      destruct (Fs.assoc s ds) as [c0|]; [reflexivity |].
      destruct q'; [discriminate | reflexivity].
    + apply String.eqb_neq in E. now rewrite (assoc_set_entry_other s k c' ds E).
Qed.

Lemma mkdir_p_child_absent (segs : list string) (x : string) (d d' : Fs.Node) :
  Fs.mkdir_p segs d = Some d' ->
  Fs.lookup (segs ++ [x])%list d = None ->
  Fs.lookup (segs ++ [x])%list d' = None.
Proof.
  intros H L. rewrite (mkdir_p_lookup_eq segs d d' H); [exact L |].
  clear. induction segs as [|s rest IH]; [reflexivity |].
  simpl. rewrite IH. apply andb_false_r.
Qed.

Lemma existsb_set_entry (k s : string) (c : Fs.Node) (es : list (string * Fs.Node)) :
  k <> s ->
  existsb (fun e => fst e =? k) (Fs.set_entry s c es)
  = existsb (fun e => fst e =? k) es.
Proof.
  intros NE. induction es as [|[a x] es IH]; simpl.
  - destruct (String.eqb_spec s k); [congruence | reflexivity].
  - destruct (a =? s) eqn:E; simpl; [reflexivity | now rewrite IH].
Qed.

Lemma set_entry_well_formed (s : string) (c : Fs.Node) (es : list (string * Fs.Node)) :
  Fs.well_formed (Fs.Dir es) = true -> Path.entry_name s = true ->
  Fs.well_formed c = true ->
  Fs.well_formed (Fs.Dir (Fs.set_entry s c es)) = true.
Proof.
  intros W Hs Hc. induction es as [|[k x] es IH].
  - simpl. now rewrite Hs, Hc.
  - rewrite well_formed_cons in W.
    apply andb_prop in W as [W W3]. apply andb_prop in W as [W W2].
    apply andb_prop in W as [W0 W1].
    simpl Fs.set_entry. destruct (String.eqb_spec k s) as [-> | NE].
    + rewrite well_formed_cons. now rewrite W0, W1, Hc, W3.
    + rewrite well_formed_cons. rewrite W0, W2, (IH W3).
      rewrite existsb_set_entry by exact NE. now rewrite W1.
Qed.

Lemma mkdir_p_well_formed (segs : list string) (d d' : Fs.Node) :
  Fs.well_formed d = true ->
  Forall (fun s => Path.entry_name s = true) segs ->
  Fs.mkdir_p segs d = Some d' -> Fs.well_formed d' = true.
Proof.
  revert d d'. induction segs as [|s rest IH]; intros d d' W F H.
  - destruct d as [c|ds]; [discriminate|]. simpl in H. now injection H as <-.
  - destruct d as [c|ds]; [discriminate|]. simpl in H.
    destruct (Fs.mkdir_p rest _) as [c'|] eqn:M; [|discriminate].
    injection H as <-. inversion F as [|? ? Hs Hrest]; subst.
    apply set_entry_well_formed; [exact W | exact Hs |].
    apply (IH _ _) with (3 := M); [| exact Hrest].
    destruct (Fs.assoc s ds) as [c0|] eqn:A; [| reflexivity].
    exact (well_formed_child s ds c0 W A).
Qed.

Lemma is_prefix_removelast (old dest : list string) :
  Fs.is_prefix old (removelast dest) = true -> Fs.is_prefix old dest = true.
Proof.
  revert dest. induction old as [|x old IH]; intros dest H; [reflexivity |].
  destruct dest as [|y dest]; [discriminate |].
  destruct dest as [|z dest']; [discriminate |].
  change (removelast (y :: z :: dest')) with (y :: removelast (z :: dest')) in H.
  simpl in H |- *. apply andb_prop in H as [E H]. rewrite E.
  exact (IH (z :: dest') H).
Qed.

(** X9: A [moveItem] that succeeds moved the node of the source to the path of
    its name in the target folder, where nothing was; the source path is
    gone, the files outside the item are as they were, and the record of
    recent files is not touched. *)
Theorem moveItem_success_moves_the_node :
  forall (cwd : string) (settings : AppSettings)
         (sourcePath targetFolderPath : string)
         (w w' : Fs.World) (r : Result string),
    Fs.well_formed (Fs.disk w) = true ->
    FileManagement.moveItem cwd settings sourcePath targetFolderPath w = (Fs.Ok r, w') ->
    success r = true ->
    let old := Path.resolveSegs cwd sourcePath in
    let dest :=
      Path.resolveSegs cwd
        (Path.join targetFolderPath (Path.basename (Path.resolve cwd sourcePath))) in
    payload r = Some (Path.render dest)
    /\ Fs.lookup dest (Fs.disk w) = None
    /\ (exists n, Fs.lookup old (Fs.disk w) = Some n
                  /\ Fs.lookup dest (Fs.disk w') = Some n)
    /\ Fs.lookup old (Fs.disk w') = None
    /\ (forall q c, Fs.is_prefix old q = false ->
                    Fs.lookup q (Fs.disk w) = Some (Fs.File c) ->
                    Fs.lookup q (Fs.disk w') = Some (Fs.File c))
    /\ Fs.recentFiles w' = Fs.recentFiles w.
Proof.
  intros cwd settings sourcePath targetFolderPath w w' r W H Hs old dest.
  unfold FileManagement.moveItem, FileManagement.caught in H.
  cbn [FileManagement.validatePathSecurity FileManagement.valid
       FileManagement.resolvedPath] in H.
  set (p := Path.join targetFolderPath (Path.basename (Path.resolve cwd sourcePath)))
    in *.
  run_inv H.
  destruct (JS.startsWith (Path.resolve cwd sourcePath)
                          (Path.resolve cwd (rootDirectory settings)));
    cbn [negb] in H; [| exfalso; eauto using failed_is_no_success].
  destruct (JS.startsWith (Path.resolve cwd p)
                          (Path.resolve cwd (rootDirectory settings)));
    cbn [negb] in H; [| exfalso; eauto using failed_is_no_success].
  destruct (JS.startsWith (Path.resolve cwd p) (Path.resolve cwd sourcePath ++ Path.sep))
    eqn:Hinto; [exfalso; eauto using failed_is_no_success |].
  run_inv H.
  apply probe_inv in Hstep as [-> ->].
  rewrite locate_resolve in H. fold dest in H.
  destruct (Fs.lookup dest (Fs.disk w)) eqn:Habsent;
    [exfalso; eauto using failed_is_no_success |].
  run_inv H.
  apply mkdir_recursive_ok_inv in Hstep as (d1 & Hmk & ->).
  apply rename_ok_inv in Hstep0 as (d2 & Hren & ->).
  rewrite locate_dirname in Hmk. rewrite !locate_resolve in Hren.
  fold old dest in Hmk, Hren. cbn [Fs.disk Fs.with_disk] in Hren.
  injection H as <- <-. cbn [Fs.disk Fs.with_disk Fs.recentFiles payload succeed].
  assert (Hdest : dest <> []) by (intros E; rewrite E in Habsent; discriminate).
  assert (Habsent1 : Fs.lookup dest d1 = None).
  { rewrite (removelast_last dest "" Hdest) in Habsent |- *.
    exact (mkdir_p_child_absent _ _ _ _ Hmk Habsent). }
  assert (W1 : Fs.well_formed d1 = true).
  { apply (mkdir_p_well_formed _ _ _ W) with (2 := Hmk).
    apply Forall_removelast, resolveSegs_entry_names. }
  destruct (rename_tree_moves old dest d1 d2 W1 Habsent1 Hren)
    as (n & Hold1 & Hnew & Hgone & Hkeep).
  destruct (rename_tree_fresh old dest d1 d2 Habsent1 Hren)
    as (_ & _ & _ & _ & _ & _ & Pon).
  assert (Pparent : Fs.is_prefix old (removelast dest) = false).
  { destruct (Fs.is_prefix old (removelast dest)) eqn:P; [| reflexivity].
    apply is_prefix_removelast in P. congruence. }
  assert (Hold : Fs.lookup old (Fs.disk w) = Some n).
  { rewrite <- (mkdir_p_lookup_eq _ _ _ Hmk old Pparent). exact Hold1. }
  repeat split; try reflexivity; try assumption; [eauto |].
  intros q c P Hq. apply (Hkeep q c P).
  exact (mkdir_p_keeps_files _ _ _ Hmk q c Hq).
Qed.

Lemma moveItem_success_moves_the_node_witness :
  Fs.well_formed (Fs.disk sample_world) = true
  /\ exists w',
       FileManagement.moveItem "/" sample_settings "/w/a.md" "/w/sub/deep" sample_world
       = (Fs.Ok (succeed "/w/sub/deep/a.md"), w')
       /\ Fs.lookup ["w"; "sub"; "deep"; "a.md"] (Fs.disk w') = Some (Fs.File "# Title")
       /\ Fs.lookup ["w"; "a.md"] (Fs.disk w') = None.
Proof.
  split; [reflexivity |].
  eexists. split; [vm_compute; reflexivity |].
  pose proof (moveItem_success_moves_the_node "/" sample_settings "/w/a.md"
                "/w/sub/deep" sample_world _ _ eq_refl eq_refl eq_refl)
    as (_ & _ & (n & Hold & Hnew) & Hgone & _).
  split; [| exact Hgone].
  vm_compute in Hold. injection Hold as <-. exact Hnew.
Defined.

(** ** What the sandbox check accepts *)

Lemma startsWith_cons (c x : ascii) (s p : string) :
  JS.startsWith (String c s) (String x p) = Ascii.eqb c x && JS.startsWith s p.
Proof. reflexivity. Qed.

Lemma slash_free_cons (c : ascii) (s : string) :
  Path.slash_free (String c s) = negb (Ascii.eqb c Path.slash) && Path.slash_free s.
Proof. reflexivity. Qed.

Lemma startsWith_empty (p : string) : JS.startsWith "" p = true -> p = "".
Proof. destruct p; [reflexivity | discriminate]. Qed.

Lemma startsWith_app_l (p a b : string) :
  JS.startsWith (p ++ a) (p ++ b) = JS.startsWith a b.
Proof.
  induction p as [|c p IH]; [reflexivity |].
  cbn [append]. rewrite startsWith_cons, Ascii.eqb_refl. exact IH.
Qed.

Lemma startsWith_segment (t u r : string) :
  Path.slash_free r = true ->
  JS.startsWith (t ++ String Path.slash u) r = true -> JS.startsWith t r = true.
Proof.
  revert r. induction t as [|c t IH]; intros r Hr H.
  - destruct r as [|x r]; [reflexivity |]. exfalso.
    cbn [append] in H. rewrite startsWith_cons in H. rewrite slash_free_cons in Hr.
    apply andb_prop in H as [E _]. apply Ascii.eqb_eq in E. subst x.
    rewrite Ascii.eqb_refl in Hr. discriminate.
  - destruct r as [|x r]; [reflexivity |].
    cbn [append] in H. rewrite startsWith_cons in H |- *.
    rewrite slash_free_cons in Hr.
    apply andb_prop in H as [E H]. apply andb_prop in Hr as [_ Hr].
    rewrite E. exact (IH r Hr H).
Qed.

Lemma startsWith_same_segment (t r a b : string) :
  Path.slash_free t = true -> Path.slash_free r = true ->
  a = "" \/ (exists a', a = String Path.slash a') ->
  JS.startsWith (t ++ a) (r ++ String Path.slash b) = true ->
  t = r /\ JS.startsWith a (String Path.slash b) = true.
Proof.
  intros Ht Hr Ha. revert r Hr. induction t as [|c t IH]; intros r Hr H.
  - destruct r as [|x r]; [split; [reflexivity | exact H] |]. exfalso.
    cbn [append] in H. rewrite slash_free_cons in Hr.
    destruct Ha as [-> | [a' ->]]; [discriminate |].
    rewrite startsWith_cons in H. apply andb_prop in H as [E _].
    apply Ascii.eqb_eq in E. subst x. rewrite Ascii.eqb_refl in Hr. discriminate.
  - rewrite slash_free_cons in Ht. apply andb_prop in Ht as [Hc Ht].
    destruct r as [|x r].
    + exfalso. cbn [append] in H. rewrite startsWith_cons in H.
      apply andb_prop in H as [E _]. rewrite E in Hc. discriminate.
    + cbn [append] in H. rewrite startsWith_cons in H.
      rewrite slash_free_cons in Hr. apply andb_prop in Hr as [_ Hr].
      apply andb_prop in H as [E H]. apply Ascii.eqb_eq in E. subst x.
      destruct (IH Ht r Hr H) as [-> Hab]. split; [reflexivity | exact Hab].
Qed.

Lemma concat_cons_shape (x : string) (xs : list string) :
  String.concat Path.sep (x :: xs)
  = x ++ match xs with
         | [] => ""
         | _ :: _ => String Path.slash (String.concat Path.sep xs)
         end.
Proof. destruct xs; [symmetry; apply append_nil_r | reflexivity]. Qed.

Lemma joined_prefix_inv (R T : list string) :
  R <> [] ->
  Forall (fun s => Path.entry_name s = true) R ->
  Forall (fun s => Path.entry_name s = true) T ->
  JS.startsWith (String.concat Path.sep T) (String.concat Path.sep R) = true ->
  exists t T', T = (removelast R ++ t :: T')%list
               /\ JS.startsWith t (last R "") = true.
Proof.
  intros NE FR. revert T. induction FR as [|r R' Hr FR' IH]; [congruence |].
  intros T FT H.
  apply entry_name_inv in Hr as [Hplain Hfree].
  destruct T as [|t T'].
  { exfalso. apply startsWith_empty in H. revert H. apply concat_nonempty.
    now apply plain_inv in Hplain. }
  inversion FT as [|? ? Ht FT']; subst.
  apply entry_name_inv in Ht as [_ Htfree].
  rewrite (concat_cons_shape t T') in H.
  destruct R' as [|r2 R''].
  - exists t, T'. split; [reflexivity |]. cbn [last removelast String.concat] in *.
    destruct T' as [|t2 T'']; [now rewrite append_nil_r in H |].
    exact (startsWith_segment _ _ _ Hfree H).
  - rewrite (concat_cons_shape r (r2 :: R'')) in H.
    apply startsWith_same_segment in H as [-> Htail]; try assumption.
    2: { destruct T'; [now left | right; eauto]. }
    destruct T' as [|t2 T'']; [discriminate |].
    rewrite startsWith_cons in Htail. apply andb_prop in Htail as [_ Htail].
    destruct (IH ltac:(discriminate) (t2 :: T'') FT' Htail) as (t' & T3 & E & Hlast).
    exists t', T3. split; [| exact Hlast].
    change (removelast (r :: r2 :: R'')) with (r :: removelast (r2 :: R'')).
    cbn [app]. now rewrite E.
Qed.

Lemma joined_prefix (R0 T' : list string) (r x : string) :
  JS.startsWith (String.concat Path.sep (R0 ++ (r ++ x)%string :: T')%list)
                (String.concat Path.sep (R0 ++ [r])%list) = true.
Proof.
  induction R0 as [|y R0 IH].
  - cbn [app]. rewrite concat_cons_shape. cbn [String.concat].
    rewrite append_assoc. apply startsWith_prefix.
  - cbn [app]. rewrite !concat_cons_shape.
    destruct R0 as [|z R0']; cbn [app] in *; rewrite startsWith_app_l;
      rewrite startsWith_cons, Ascii.eqb_refl; exact IH.
Qed.

(** X10: The sandbox check is a test on the printed paths: it accepts a path
    exactly when the root is "/" or the segments of the resolved path are
    those of the resolved root up to its last one, followed by a segment
    that starts with the last segment of the root.  The paths at or below
    the root are among them, and so are the paths in a sibling of the root
    whose name extends the name of the root.  The three copies of the check
    agree. *)
Theorem sandbox_check_accepts_exactly :
  forall (cwd filePath root : string),
    let R := Path.resolveSegs cwd root in
    let T := Path.resolveSegs cwd filePath in
    (ExecuteTool.validatePath cwd filePath root = true
     <-> (R = []
          \/ exists t T', T = (removelast R ++ t :: T')%list
                          /\ JS.startsWith t (last R "") = true))
    /\ Chat.validatePath cwd filePath root = ExecuteTool.validatePath cwd filePath root
    /\ (forall excludedExtensions excludedFolders,
          FileManagement.inSandbox cwd
            (mkSettings root excludedExtensions excludedFolders) filePath
          = ExecuteTool.validatePath cwd filePath root).
Proof.
  intros cwd filePath root R T.
  split; [| split; [reflexivity | reflexivity]].
  unfold ExecuteTool.validatePath, Path.resolve, Path.render. fold R T.
  pose proof (resolveSegs_entry_names cwd root) as FR. fold R in FR.
  pose proof (resolveSegs_entry_names cwd filePath) as FT. fold T in FT.
  clearbody R T.
  cbn [Path.sep append]. rewrite startsWith_cons, Ascii.eqb_refl. cbn [andb].
  split.
  - intros H. destruct R as [|r R']; [now left | right].
    apply joined_prefix_inv; try assumption. discriminate.
  - intros [-> | (t & T' & -> & Hlast)]; [reflexivity |].
    destruct R as [|r R'] eqn:ER; [reflexivity |]. rewrite <- ER in *.
    assert (NE : R <> []) by (rewrite ER; discriminate).
    apply startsWith_inv in Hlast as [x Hx].
    pose proof (removelast_last R "" NE) as E.
    revert E. rewrite Hx. generalize (removelast R), (last R "").
    intros R0 r0 ->. apply joined_prefix.
Qed.

(** ** Relative paths *)

Lemma resolveSegs_join_relative (cwd a b : string) :
  b <> "" -> Path.isAbsolute b = false ->
  Path.resolveSegs cwd (Path.join a b)
  = rev (Path.run false (rev (Path.resolveSegs cwd a)) (Path.split b)).
Proof.
  intros Hb Hrel. unfold Path.join.
  pose proof Hb as Hb'. apply String.eqb_neq in Hb'.
  destruct (String.eqb_spec a "") as [-> | Ha].
  - rewrite Hb'. rewrite resolveSegs_normalize by assumption.
    rewrite resolveSegs_empty, rev_involutive, resolveSegs_run.
    unfold Path.base_stack. now rewrite Hrel.
  - rewrite Hb'.
    assert (Hjoined : a ++ Path.sep ++ b <> "").
    { destruct a; [congruence | discriminate]. }
    apply String.eqb_neq in Hjoined. rewrite Hjoined. apply String.eqb_neq in Hjoined.
    rewrite resolveSegs_normalize by assumption.
    rewrite !resolveSegs_run, rev_involutive. unfold Path.base_stack.
    rewrite (isAbsolute_app a _ Ha).
    change (a ++ Path.sep ++ b) with (a ++ String Path.slash b).
    now rewrite split_app_slash, run_app.
Qed.

Lemma drop_common_spec (from to : list string) :
  exists common,
    from = (common ++ fst (Path.drop_common from to))%list
    /\ to = (common ++ snd (Path.drop_common from to))%list.
Proof.
  revert to. induction from as [|x from IH]; intros to.
  - exists []. split; reflexivity.
  - destruct to as [|y to]; [exists []; split; reflexivity |].
    cbn [Path.drop_common]. destruct (String.eqb_spec x y) as [-> | NE].
    + destruct (IH to) as (c & E1 & E2). exists (y :: c).
      cbn [app]. split; congruence.
    + exists []. split; reflexivity.
Qed.

Lemma run_climbs (up st : list string) :
  Forall (fun s => Path.plain s = true) up ->
  Path.run false (up ++ st)%list (map (fun _ => "..") up) = st.
Proof.
  intros F. induction F as [|u up Hu F IH]; [reflexivity |].
  cbn [map app]. unfold Path.run in *. cbn [fold_left].
  replace (Path.step false (u :: (up ++ st)%list) "..") with (up ++ st)%list;
    [exact IH |].
  unfold Path.step. cbn.
  apply plain_inv in Hu as (_ & _ & Hu). apply String.eqb_neq in Hu.
  now rewrite Hu.
Qed.

Lemma map_const_rev {A} (l : list A) (x : string) :
  map (fun _ => x) (rev l) = map (fun _ => x) l.
Proof.
  induction l as [|a l IH]; [reflexivity |].
  cbn [rev map]. rewrite map_app, IH. cbn [map].
  clear. induction l as [|b l IH]; [reflexivity |]. cbn [map app]. now rewrite IH.
Qed.

Lemma render_inj (a b : list string) :
  Forall (fun s => Path.entry_name s = true) a ->
  Forall (fun s => Path.entry_name s = true) b ->
  Path.render a = Path.render b -> a = b.
Proof.
  intros Fa Fb E.
  rewrite <- (resolveSegs_render "" a Fa), <- (resolveSegs_render "" b Fb).
  now rewrite E.
Qed.

(** The relative path from one directory to a path, joined to the
    directory, is the path again. *)
Lemma relative_round_trip (cwd from to : string) :
  Path.resolveSegs cwd
    (Path.join from (Path.relative cwd (Path.resolve cwd from) (Path.resolve cwd to)))
  = Path.resolveSegs cwd to.
Proof.
  unfold Path.relative.
  pose proof (resolveSegs_entry_names cwd from) as FF.
  pose proof (resolveSegs_entry_names cwd to) as FT.
  destruct (String.eqb_spec (Path.resolve cwd from) (Path.resolve cwd to)) as [E | NE].
  { rewrite resolveSegs_join_empty. exact (render_inj _ _ FF FT E). }
  unfold Path.resolve. rewrite !resolveSegs_render by assumption.
  destruct (drop_common_spec (Path.resolveSegs cwd from) (Path.resolveSegs cwd to))
    as (common & EF & ET).
  destruct (Path.drop_common _ _) as [up down]. cbn [fst snd] in EF, ET.
  rewrite EF in FF. rewrite ET in FT.
  apply Forall_app in FF as [FC FU]. apply Forall_app in FT as [_ FD].
  apply Forall_entry_name in FU as [PU SU]. apply Forall_entry_name in FD as [PD SD].
  set (L := (map (fun _ : string => "..") up ++ down)%list).
  assert (HL : Forall (fun s => Path.slash_free s = true /\ s <> "") L).
  { apply Forall_app. split.
    - apply Forall_forall. intros s Hin. apply in_map_iff in Hin as (? & <- & _).
      split; [reflexivity | discriminate].
    - apply Forall_forall. intros s Hin. split.
      + exact (proj1 (Forall_forall _ _) SD s Hin).
      + pose proof (proj1 (Forall_forall _ _) PD s Hin) as Hp.
        now apply plain_inv in Hp. }
  destruct L as [|x L'] eqn:EL.
  { apply app_eq_nil in EL as [Eu Ed]. apply map_eq_nil in Eu. subst up down.
    cbn [String.concat]. rewrite resolveSegs_join_empty. congruence. }
  rewrite <- EL in *.
  assert (Hfree : Forall (fun s => Path.slash_free s = true) L).
  { eapply Forall_impl; [| exact HL]. now intros s [? _]. }
  assert (Hx : x <> "" /\ Path.slash_free x = true).
  { rewrite EL in HL. inversion HL as [|? ? [? ?]]; subst. now split. }
  rewrite resolveSegs_join_relative.
  - rewrite split_concat by (try exact Hfree; rewrite EL; discriminate).
    unfold L. rewrite run_app. rewrite EF at 1. rewrite rev_app_distr.
    rewrite <- (map_const_rev up "..").
    rewrite run_climbs by (apply Forall_rev; exact PU).
    rewrite run_plain by exact PD. rewrite rev_app_distr, !rev_involutive.
    now symmetry.
  - rewrite EL. apply concat_nonempty. exact (proj1 Hx).
  - rewrite EL. rewrite <- (append_nil_r (String.concat Path.sep (x :: L'))).
    apply isAbsolute_concat; [exact (proj1 Hx) | exact (proj2 Hx)].
Qed.

(** X11: [getPathForClipboard] refuses a path outside the sandbox and leaves the
    world alone; for a path inside, the absolute form is the resolved path
    and the relative form, joined to the root directory, denotes the item
    again. *)
Theorem getPathForClipboard_relative_round_trip :
  forall (cwd : string) (settings : AppSettings) (itemPath : string) (w : Fs.World),
    (FileManagement.inSandbox cwd settings itemPath = false ->
     forall relative,
       FileManagement.getPathForClipboard cwd settings itemPath relative w
       = (Fs.Ok (fail "Access denied: Path is outside the allowed directory"), w))
    /\ (FileManagement.inSandbox cwd settings itemPath = true ->
        FileManagement.getPathForClipboard cwd settings itemPath false w
        = (Fs.Ok (succeed (Path.resolve cwd itemPath)), w)
        /\ exists rel,
             FileManagement.getPathForClipboard cwd settings itemPath true w
             = (Fs.Ok (succeed rel), w)
             /\ Path.resolve cwd (Path.join (rootDirectory settings) rel)
                = Path.resolve cwd itemPath).
Proof.
  intros cwd settings itemPath w.
  unfold FileManagement.inSandbox, FileManagement.getPathForClipboard,
    FileManagement.caught.
  cbn [FileManagement.validatePathSecurity FileManagement.valid].
  split; intros ->; cbn [negb].
  - intros relative. reflexivity.
  - split; [reflexivity |]. eexists. split; [reflexivity |].
    unfold Path.resolve at 1 4. f_equal. apply relative_round_trip.
Qed.

Lemma getPathForClipboard_relative_round_trip_witness :
  FileManagement.inSandbox "/" sample_settings "/w/sub/../sub/inner" = true
  /\ FileManagement.getPathForClipboard "/" sample_settings "/w/sub/../sub/inner" true
       sample_world
     = (Fs.Ok (succeed "sub/inner"), sample_world)
  /\ Path.resolve "/" (Path.join "/w" "sub/inner") = "/w/sub/inner".
Proof.
  split; [reflexivity |]. split; [reflexivity |].
  destruct (proj2 (getPathForClipboard_relative_round_trip "/" sample_settings
                     "/w/sub/../sub/inner" sample_world) eq_refl)
    as (_ & rel & Hrel & Hback).
  injection Hrel as <-. exact Hback.
Defined.

(** ** The record of recent files *)

Lemma recent_paths_filter (keep : Fs.RecentFile -> bool) (entries : list Fs.RecentFile) :
  NoDup (map Fs.recent_path entries) ->
  NoDup (map Fs.recent_path (filter keep entries)).
Proof.
  induction entries as [| e entries IH]; [trivial |]. cbn [map filter]. intros H.
  inversion H as [| ? ? Hnotin Hrest]; subst.
  destruct (keep e); [| exact (IH Hrest)].
  cbn [map]. constructor; [| exact (IH Hrest)].
  intros Hin. apply Hnotin. apply in_map_iff in Hin as (x & E & Hx).
  apply filter_In in Hx as [Hx _]. apply in_map_iff. eauto.
Qed.

Lemma NoDup_firstn_of {A} (n : nat) (l : list A) : NoDup l -> NoDup (firstn n l).
Proof.
  revert l. induction n as [|n IH]; intros l H; [constructor |].
  destruct l as [|a l]; [constructor |]. cbn [firstn].
  inversion H as [|? ? Hnotin Hrest]; subst. constructor; [| exact (IH l Hrest)].
  intros Hin. apply Hnotin.
  rewrite <- (firstn_skipn n l). apply in_or_app. now left.
Qed.

(** X12: [addRecentFile] puts the entry of the path first and leaves no other
    entry of that path; the entries behind it are the first nineteen of the
    old entries of other paths, in their order, so the record never holds
    more than twenty entries, and holds no path twice when it did not
    before; the disk is not touched. *)
Theorem addRecentFile_is_most_recent_first :
  forall (filePath action : string) (w : Fs.World),
  exists w',
    RecentFiles.addRecentFile filePath action w = (Fs.Ok succeed_plain, w')
    /\ Fs.disk w' = Fs.disk w
    /\ Fs.recentFiles w'
       = Fs.mkRecent filePath (Path.basename filePath) action
         :: firstn 19 (filter (fun f => negb (Fs.recent_path f =? filePath))
                              (Fs.recentFiles w))
    /\ Forall (fun f => Fs.recent_path f <> filePath) (tl (Fs.recentFiles w'))
    /\ List.length (Fs.recentFiles w') <= RecentFiles.MAX_RECENT_FILES
    /\ (NoDup (map Fs.recent_path (Fs.recentFiles w)) ->
        NoDup (map Fs.recent_path (Fs.recentFiles w'))).
Proof.
  intros filePath action w.
  set (others := filter (fun f => negb (Fs.recent_path f =? filePath))
                        (Fs.recentFiles w)).
  exists (Fs.mkWorld (Fs.disk w)
            (Fs.mkRecent filePath (Path.basename filePath) action
               :: firstn 19 others)).
  split; [reflexivity |].
  cbn [Fs.disk Fs.recentFiles tl].
  assert (Hothers : Forall (fun f => Fs.recent_path f <> filePath) (firstn 19 others)).
  { apply Forall_forall. intros f Hin.
    assert (Hin' : In f others).
    { rewrite <- (firstn_skipn 19 others). apply in_or_app. now left. }
    exact (proj1 (Forall_forall _ _) (filter_leaves_no_entry filePath _) f Hin'). }
  split; [reflexivity |]. split; [reflexivity |]. split; [exact Hothers |].
  split.
  - unfold RecentFiles.MAX_RECENT_FILES. cbn [List.length].
    pose proof (firstn_le_length 19 others). lia.
  - intros Hnodup. cbn [map]. constructor.
    + intros Hin. apply in_map_iff in Hin as (f & E & Hf).
      exact (proj1 (Forall_forall _ _) Hothers f Hf E).
    + rewrite <- firstn_map. apply NoDup_firstn_of.
      now apply recent_paths_filter.
Qed.

Lemma keepExisting_run (cwd : string) (files : list Fs.RecentFile) (w : Fs.World) :
  RecentFiles.keepExisting cwd files w
  = (Fs.Ok (filter (fun f =>
                      match Fs.lookup (Fs.locate cwd (Fs.recent_path f)) (Fs.disk w) with
                      | Some _ => true
                      | None => false
                      end) files), w).
Proof.
  induction files as [|f files IH]; [reflexivity |].
  cbn [RecentFiles.keepExisting filter].
  rewrite (bind_ok _ _ _ _ _ (succeeds_access cwd (Fs.recent_path f) w)).
  rewrite (bind_ok _ _ _ _ _ IH). reflexivity.
Qed.

Lemma filter_same_length {A} (p : A -> bool) (l : list A) :
  List.length (filter p l) = List.length l -> filter p l = l.
Proof.
  induction l as [|a l IH]; [reflexivity |]. cbn [filter].
  destruct (p a); cbn [List.length]; intros H.
  - f_equal. apply IH. lia.
  - pose proof (filter_length_le p l). lia.
Qed.

(** X13: [getValidRecentFiles] returns the entries whose path exists on the
    disk, in their order, and the record holds exactly these afterwards; the
    disk is not touched. *)
Theorem getValidRecentFiles_keeps_existing_paths :
  forall (cwd : string) (w : Fs.World),
    let validFiles :=
      filter (fun f =>
                match Fs.lookup (Fs.locate cwd (Fs.recent_path f)) (Fs.disk w) with
                | Some _ => true
                | None => false
                end) (Fs.recentFiles w) in
    exists w',
      RecentFiles.getValidRecentFiles cwd w = (Fs.Ok validFiles, w')
      /\ Fs.disk w' = Fs.disk w
      /\ Fs.recentFiles w' = validFiles
      /\ Forall (fun f => Fs.lookup (Fs.locate cwd (Fs.recent_path f)) (Fs.disk w')
                          <> None) (Fs.recentFiles w').
Proof.
  intros cwd w validFiles.
  assert (Hexist : Forall (fun f => Fs.lookup (Fs.locate cwd (Fs.recent_path f))
                                              (Fs.disk w) <> None) validFiles).
  { apply Forall_forall. intros f Hin. apply filter_In in Hin as [_ H].
    destruct (Fs.lookup _ (Fs.disk w)); [discriminate | discriminate]. }
  unfold RecentFiles.getValidRecentFiles.
  unfold Fs.bind at 1. cbn [RecentFiles.getRecentFiles].
  rewrite (bind_ok _ _ _ _ _ (keepExisting_run cwd (Fs.recentFiles w) w)).
  fold validFiles.
  destruct (Nat.eqb_spec (List.length validFiles) (List.length (Fs.recentFiles w)))
    as [E | NE]; cbn [negb].
  - exists w. apply filter_same_length in E. fold validFiles in E.
    split; [reflexivity |]. split; [reflexivity |]. split; [now symmetry |].
    rewrite <- E. exact Hexist.
  - eexists. split; [reflexivity |]. cbn [Fs.disk Fs.recentFiles].
    split; [reflexivity |]. split; [reflexivity | exact Hexist].
Qed.

(** ** Computations that only read *)

Lemma inspects_ret {A} (P : A -> Prop) (a : A) (w : Fs.World) :
  P a -> Fs.inspects P (Fs.ret a) w.
Proof. intros H. split; [reflexivity | exact H]. Qed.

Lemma inspects_throw {A} (P : A -> Prop) (e : Fs.Exn) (w : Fs.World) :
  Fs.inspects P (Fs.throw e) w.
Proof. reflexivity. Qed.

Lemma inspects_bind {A B} (Q : A -> Prop) (P : B -> Prop)
      (m : Fs.M A) (k : A -> Fs.M B) (w : Fs.World) :
  Fs.inspects Q m w ->
  (forall a, Q a -> Fs.inspects P (k a) w) ->
  Fs.inspects P (Fs.bind m k) w.
Proof.
  unfold Fs.inspects, Fs.bind. destruct (m w) as [[a | e |] w1]; intros Hm Hk.
  - destruct Hm as [-> Ha]. exact (Hk a Ha).
  - exact Hm.
  - exact Hm.
Qed.

Lemma inspects_try_catch {A} (P : A -> Prop)
      (body : Fs.M A) (h : Fs.Exn -> Fs.M A) (w : Fs.World) :
  Fs.inspects P body w ->
  (forall e, Fs.inspects P (h e) w) ->
  Fs.inspects P (Fs.try_catch body h) w.
Proof.
  unfold Fs.inspects, Fs.try_catch. destruct (body w) as [[a | e |] w1]; intros Hb Hh.
  - exact Hb.
  - subst w1. exact (Hh e).
  - exact Hb.
Qed.

Lemma inspects_query {A} (f : Fs.Node -> Fs.Outcome A) (w : Fs.World) :
  (forall d, f d <> Fs.Diverge) -> Fs.inspects (fun _ => True) (Fs.query f) w.
Proof.
  intros H. unfold Fs.inspects, Fs.query. specialize (H (Fs.disk w)).
  destruct (f (Fs.disk w)); [split; trivial | reflexivity | congruence].
Qed.

Lemma inspects_run {A} (P : A -> Prop) (m : Fs.M A) (w : Fs.World) (a : A) :
  m w = (Fs.Ok a, w) -> P a -> Fs.inspects P m w.
Proof. unfold Fs.inspects. intros -> H. split; [reflexivity | exact H]. Qed.

(** A computation that only reads, inside a [catch] that returns a value,
    returns a value. *)
Lemma inspects_caught {A} (P : A -> Prop) (body : Fs.M A) (h : Fs.Exn -> A)
      (w : Fs.World) :
  Fs.inspects P body w -> (forall e, P (h e)) ->
  exists a, Fs.try_catch body (fun e => Fs.ret (h e)) w = (Fs.Ok a, w) /\ P a.
Proof.
  unfold Fs.inspects, Fs.try_catch. destruct (body w) as [[a | e |] w1]; intros Hb Hh.
  - destruct Hb as [-> Ha]. eauto.
  - subst w1. eexists. split; [reflexivity | apply Hh].
  - contradiction.
Qed.

Lemma inspects_readFile (cwd p : string) (w : Fs.World) :
  Fs.inspects (fun _ => True) (Fs.readFile cwd p) w.
Proof.
  apply inspects_query. intros d. destruct (Fs.lookup _ d) as [[|] |]; discriminate.
Qed.

Lemma inspects_stat (cwd p : string) (w : Fs.World) :
  Fs.inspects (fun _ => True) (Fs.stat cwd p) w.
Proof.
  apply inspects_query. intros d. destruct (Fs.lookup _ d); discriminate.
Qed.

(** ** The executor of approved tool calls *)

Lemma findMarkdownFiles_run (cwd dirPath : string) (pattern : option string)
      (w : Fs.World) :
  ExecuteTool.findMarkdownFiles cwd dirPath pattern w
  = (Fs.Ok (match Fs.lookup (Fs.locate cwd dirPath) (Fs.disk w) with
            | Some (Fs.Dir es) => ExecuteTool.findInTree dirPath pattern (Fs.Dir es)
            | _ => []
            end), w).
Proof.
  unfold ExecuteTool.findMarkdownFiles, Fs.try_catch, Fs.bind, Fs.readdir, Fs.query.
  now destruct (Fs.lookup (Fs.locate cwd dirPath) (Fs.disk w)) as [[c | es] |].
Qed.

Lemma searchInFile_run (cwd filePath : string) (query : option string) (w : Fs.World) :
  ExecuteTool.searchInFile cwd filePath query w
  = (Fs.Ok (match Fs.lookup (Fs.locate cwd filePath) (Fs.disk w), query with
            | Some (Fs.File c), Some q =>
                ExecuteTool.matchesFrom 0 (JS.toLowerCase q) (JS.split_lines c)
            | _, _ => []
            end), w).
Proof.
  unfold ExecuteTool.searchInFile, Fs.try_catch, Fs.bind, Fs.readFile, Fs.query.
  destruct (Fs.lookup (Fs.locate cwd filePath) (Fs.disk w)) as [[c | es] |];
    destruct query; reflexivity.
Qed.

Lemma buildFileTree_run (cwd : string) (localeCompare : string -> string -> Z)
      (dirPath : string) (w : Fs.World) :
  ExecuteTool.buildFileTree cwd localeCompare dirPath w
  = (Fs.Ok (match Fs.lookup (Fs.locate cwd dirPath) (Fs.disk w) with
            | Some (Fs.Dir es) => ExecuteTool.buildTree localeCompare dirPath (Fs.Dir es)
            | _ => []
            end), w).
Proof.
  unfold ExecuteTool.buildFileTree, Fs.try_catch, Fs.bind, Fs.readdir, Fs.query.
  now destruct (Fs.lookup (Fs.locate cwd dirPath) (Fs.disk w)) as [[c | es] |].
Qed.

(** The loop over the files found keeps, in their order, the files in which
    the search finds a line. *)
Lemma searchEach_run (cwd root : string) (files : list string) (query : option string)
      (w : Fs.World) :
  exists results,
    ExecuteTool.searchEach cwd root files query w = (Fs.Ok results, w)
    /\ Forall (fun r => In (ExecuteTool.fm_file r) files
                        /\ ExecuteTool.fm_matches r <> []
                        /\ ExecuteTool.searchInFile cwd (ExecuteTool.fm_file r) query w
                           = (Fs.Ok (ExecuteTool.fm_matches r), w))
              results.
Proof.
  induction files as [|f files (results & IH & Hall)].
  - exists []. split; [reflexivity | constructor].
  - cbn [ExecuteTool.searchEach].
    rewrite (bind_ok _ _ _ _ _ (searchInFile_run cwd f query w)).
    rewrite (bind_ok _ _ _ _ _ IH).
    assert (Hrest : Forall (fun r => In (ExecuteTool.fm_file r) (f :: files)
                        /\ ExecuteTool.fm_matches r <> []
                        /\ ExecuteTool.searchInFile cwd (ExecuteTool.fm_file r) query w
                           = (Fs.Ok (ExecuteTool.fm_matches r), w)) results).
    { eapply Forall_impl; [| exact Hall]. intros r (? & ? & ?).
      repeat split; try assumption. now right. }
    pose proof (searchInFile_run cwd f query w) as Hrun.
    destruct (match Fs.lookup _ _, query with
              | Some (Fs.File c), Some q => _
              | _, _ => []
              end) as [|m ms].
    + exists results. split; [reflexivity | exact Hrest].
    + eexists. split; [reflexivity |]. constructor; [| exact Hrest].
      cbn [ExecuteTool.fm_file ExecuteTool.fm_matches].
      split; [now left |]. split; [discriminate | exact Hrun].
Qed.

Lemma wellFormed_ok (d : ExecuteTool.Data) :
  ExecuteTool.wellFormed (ExecuteTool.ok_reply d)
  /\ ExecuteTool.status (ExecuteTool.ok_reply d) <> 400.
Proof. split; [left; repeat split; discriminate | discriminate]. Qed.

Lemma wellFormed_error (status : nat) (msg : string) :
  ExecuteTool.wellFormed (ExecuteTool.error_reply status msg).
Proof. right. repeat split. discriminate. Qed.

Lemma wellFormed_error_200 (msg : string) :
  ExecuteTool.wellFormed (ExecuteTool.error_reply 200 msg)
  /\ ExecuteTool.status (ExecuteTool.error_reply 200 msg) <> 400.
Proof. split; [apply wellFormed_error | discriminate]. Qed.

Ltac inspect_step :=
  match goal with
  | |- Fs.inspects _ (Fs.ret _) _ =>
      apply inspects_ret;
      first [apply wellFormed_ok | apply wellFormed_error_200 | exact I]
  | |- Fs.inspects _ (Fs.throw _) _ => apply inspects_throw
  | |- Fs.inspects _ (Fs.try_catch _ _) _ => apply inspects_try_catch; [| intros ?]
  | |- Fs.inspects _ (match ?x with _ => _ end) _ => destruct x
  | |- Fs.inspects _ (if ?b then _ else _) _ => destruct b
  end.

Lemma tools_inspect (cwd : string) (localeCompare : string -> string -> Z)
      (request : ExecuteTool.Request) (w : Fs.World) :
  let P := fun reply =>
             ExecuteTool.wellFormed reply /\ ExecuteTool.status reply <> 400 in
  Fs.inspects P (ExecuteTool.readMarkdownFile cwd request) w
  /\ Fs.inspects P (ExecuteTool.searchMarkdownFiles cwd request) w
  /\ Fs.inspects P (ExecuteTool.searchMarkdownContent cwd request) w
  /\ Fs.inspects P (ExecuteTool.listFileTree cwd localeCompare request) w.
Proof.
  intros P.
  assert (Hdes : forall property,
             Fs.inspects (fun _ => True) (ExecuteTool.destructure property request) w).
  { intros property. unfold ExecuteTool.destructure.
    destruct (ExecuteTool.parameters request); [now apply inspects_ret | apply inspects_throw]. }
  repeat split.
  - unfold ExecuteTool.readMarkdownFile.
    apply (inspects_bind (fun _ => True)); [apply Hdes | intros params _].
    apply (inspects_bind (fun _ => True)).
    { repeat inspect_step. }
    intros isValid _. repeat inspect_step.
    apply (inspects_bind (fun _ => True)); [apply inspects_readFile | intros content _].
    apply (inspects_bind (fun _ => True)); [apply inspects_stat | intros stats _].
    repeat inspect_step.
  - unfold ExecuteTool.searchMarkdownFiles.
    apply (inspects_bind (fun _ => True)); [apply Hdes | intros params _].
    repeat inspect_step.
    apply (inspects_bind (fun _ => True)).
    { eapply inspects_run; [apply findMarkdownFiles_run | exact I]. }
    intros files _. repeat inspect_step.
  - unfold ExecuteTool.searchMarkdownContent.
    apply (inspects_bind (fun _ => True)); [apply Hdes | intros params _].
    repeat inspect_step.
    apply (inspects_bind (fun _ => True)).
    { eapply inspects_run; [apply findMarkdownFiles_run | exact I]. }
    intros files _.
    apply (inspects_bind (fun _ => True)).
    { match goal with
      | |- Fs.inspects _ (ExecuteTool.searchEach _ ?root _ _) _ =>
          destruct (searchEach_run cwd root files (ExecuteTool.p_query params) w)
            as (results & Hrun & _)
      end.
      eapply inspects_run; [exact Hrun | exact I]. }
    intros results _. repeat inspect_step.
  - unfold ExecuteTool.listFileTree. repeat inspect_step.
    apply (inspects_bind (fun _ => True)).
    { eapply inspects_run; [apply buildFileTree_run | exact I]. }
    intros tree _. repeat inspect_step.
Qed.

(** X14: Whatever the request, the executor replies with a well-formed reply and
    leaves the world, disk and record, as it was; the status is 400 exactly
    when the tool name is missing, empty or none of the four tool names. *)
Theorem POST_replies_and_only_reads :
  forall (cwd : string) (localeCompare : string -> string -> Z)
         (body : Fs.Exn + ExecuteTool.Request) (w : Fs.World),
  exists reply,
    ExecuteTool.POST cwd localeCompare body w = (Fs.Ok reply, w)
    /\ ExecuteTool.wellFormed reply
    /\ (ExecuteTool.status reply = 400
        <-> exists request,
              body = inr request
              /\ match ExecuteTool.toolName request with
                 | None => True
                 | Some tool => ~ In tool ExecuteTool.TOOL_NAMES
                 end).
Proof.
  intros cwd localeCompare body w.
  unfold ExecuteTool.POST.
  destruct body as [e | request].
  { eexists. split; [reflexivity |]. split; [apply wellFormed_error |].
    split; [discriminate | intros (? & ? & _); discriminate]. }
  destruct (tools_inspect cwd localeCompare request w) as (Hread & Hfiles & Hcontent & Htree).
  assert (Hknown : forall (tool : string) (run : Fs.M ExecuteTool.Reply),
             ExecuteTool.toolName request = Some tool ->
             In tool ExecuteTool.TOOL_NAMES ->
             Fs.inspects (fun reply => ExecuteTool.wellFormed reply
                                       /\ ExecuteTool.status reply <> 400) run w ->
             exists reply,
               Fs.try_catch run
                 (fun e => Fs.ret (ExecuteTool.error_reply 500
                                     (Fs.message_or "Internal server error" e))) w
               = (Fs.Ok reply, w)
               /\ ExecuteTool.wellFormed reply
               /\ (ExecuteTool.status reply = 400
                   <-> exists request',
                         @inr Fs.Exn _ request = inr request'
                         /\ match ExecuteTool.toolName request' with
                            | None => True
                            | Some tool => ~ In tool ExecuteTool.TOOL_NAMES
                            end)).
  { intros tool run Hname Hin Hrun.
    destruct (inspects_caught _ run
                (fun e => ExecuteTool.error_reply 500
                            (Fs.message_or "Internal server error" e)) w Hrun)
      as (reply & Heq & Hwf & Hst).
    { intros e. split; [apply wellFormed_error | discriminate]. }
    exists reply. split; [exact Heq |]. split; [exact Hwf |].
    split; [congruence |]. intros (request' & E & Hno). injection E as <-.
    rewrite Hname in Hno. contradiction. }
  assert (Hunknown : forall (msg : string),
             match ExecuteTool.toolName request with
             | None => True
             | Some tool => ~ In tool ExecuteTool.TOOL_NAMES
             end ->
             exists reply,
               Fs.try_catch (Fs.ret (ExecuteTool.error_reply 400 msg))
                 (fun e => Fs.ret (ExecuteTool.error_reply 500
                                     (Fs.message_or "Internal server error" e))) w
               = (Fs.Ok reply, w)
               /\ ExecuteTool.wellFormed reply
               /\ (ExecuteTool.status reply = 400
                   <-> exists request',
                         @inr Fs.Exn _ request = inr request'
                         /\ match ExecuteTool.toolName request' with
                            | None => True
                            | Some tool => ~ In tool ExecuteTool.TOOL_NAMES
                            end)).
  { intros msg Hno. eexists. split; [reflexivity |]. split; [apply wellFormed_error |].
    split; [| reflexivity]. intros _. exists request. split; [reflexivity | exact Hno]. }
  destruct (ExecuteTool.toolName request) as [tool |] eqn:Hname;
    [| apply Hunknown; exact I].
  destruct (JS.truthy tool) eqn:Htruthy; cbn [negb].
  2: { apply Hunknown. unfold JS.truthy in Htruthy. apply negb_false_iff in Htruthy.
       apply String.eqb_eq in Htruthy. subst tool.
       intros [H | [H | [H | [H | []]]]]; discriminate. }
  destruct (String.eqb_spec tool "readMarkdownFile") as [-> | N1].
  { apply (Hknown _ _ eq_refl); [now left | exact Hread]. }
  destruct (String.eqb_spec tool "searchMarkdownFiles") as [-> | N2].
  { apply (Hknown _ _ eq_refl); [right; now left | exact Hfiles]. }
  destruct (String.eqb_spec tool "searchMarkdownContent") as [-> | N3].
  { apply (Hknown _ _ eq_refl); [right; right; now left | exact Hcontent]. }
  destruct (String.eqb_spec tool "listFileTree") as [-> | N4].
  { apply (Hknown _ _ eq_refl); [right; right; right; now left | exact Htree]. }
  apply Hunknown. intros [H | [H | [H | [H | []]]]]; congruence.
Qed.

Lemma POST_readMarkdownFile (cwd : string) (localeCompare : string -> string -> Z)
      (params : option ExecuteTool.Parameters) (root : option string) (w : Fs.World) :
  let request := ExecuteTool.mkRequest (Some "readMarkdownFile") params root in
  ExecuteTool.POST cwd localeCompare (inr request) w
  = Fs.try_catch (ExecuteTool.readMarkdownFile cwd request)
      (fun e => Fs.ret (ExecuteTool.error_reply 500
                          (Fs.message_or "Internal server error" e))) w.
Proof. reflexivity. Qed.

Lemma readMarkdownFile_checked (cwd : string) (params : ExecuteTool.Parameters)
      (root : option string) (filePath : string) (w : Fs.World) :
  ExecuteTool.p_filePath params = Some filePath ->
  ExecuteTool.readMarkdownFile cwd
    (ExecuteTool.mkRequest (Some "readMarkdownFile") (Some params) root) w
  = (if negb (Chat.sandboxValid cwd root filePath) then
       Fs.ret (ExecuteTool.error_reply 200
                 "Access denied: Path is outside the allowed directory")
     else
       Fs.try_catch
         (Fs.bind (Fs.readFile cwd filePath)
            (fun content =>
               Fs.bind (Fs.stat cwd filePath)
                 (fun stats =>
                    Fs.ret (ExecuteTool.ok_reply
                              (ExecuteTool.ReadData filePath content
                                 (Path.basename filePath) (Fs.st_size stats))))))
         (fun e => Fs.ret (ExecuteTool.error_reply 200
                             (Fs.message_or "Failed to read file" e)))) w.
Proof.
  intros Hpath.
  unfold ExecuteTool.readMarkdownFile, ExecuteTool.destructure,
    ExecuteTool.configuredRoot, Chat.sandboxValid, Chat.rootConfigured,
    Chat.validatePath, ExecuteTool.validatePath.
  cbn [ExecuteTool.parameters ExecuteTool.requestRoot].
  unfold Fs.bind at 1. unfold Fs.ret at 1. cbv beta iota. rewrite Hpath.
  destruct root as [r |]; [destruct (JS.truthy r) |]; reflexivity.
Qed.

(** What the executor does with a read. *)
Lemma POST_read_checked (cwd : string) (localeCompare : string -> string -> Z)
      (params : ExecuteTool.Parameters) (root : option string) (filePath : string)
      (w : Fs.World) :
  ExecuteTool.p_filePath params = Some filePath ->
  ExecuteTool.POST cwd localeCompare
    (inr (ExecuteTool.mkRequest (Some "readMarkdownFile") (Some params) root)) w
  = (Fs.Ok
       (if negb (Chat.sandboxValid cwd root filePath) then
          ExecuteTool.error_reply 200
            "Access denied: Path is outside the allowed directory"
        else
          match Fs.lookup (Fs.locate cwd filePath) (Fs.disk w) with
          | Some (Fs.File content) =>
              ExecuteTool.ok_reply
                (ExecuteTool.ReadData filePath content (Path.basename filePath)
                                      (JS.utf8_length content))
          | Some (Fs.Dir _) => ExecuteTool.error_reply 200 (Fs.errno_text Fs.EISDIR)
          | None => ExecuteTool.error_reply 200 (Fs.errno_text Fs.ENOENT)
          end), w).
Proof.
  intros Hpath. rewrite POST_readMarkdownFile. cbv zeta.
  unfold Fs.try_catch at 1.
  rewrite (readMarkdownFile_checked cwd params root filePath w Hpath).
  destruct (Chat.sandboxValid cwd root filePath); cbn [negb]; [| reflexivity].
  unfold Fs.try_catch, Fs.bind, Fs.readFile, Fs.stat, Fs.query.
  destruct (Fs.lookup (Fs.locate cwd filePath) (Fs.disk w)) as [[content | es] |];
    reflexivity.
Qed.

(** X15: The executor checks the sandbox again and then serves the read: a path
    outside the sandbox is refused whatever was approved; a regular file
    inside is returned with its text and its size, whatever its name; so
    every read the gated tool asks permission for is served once approved. *)
Theorem executor_serves_the_approved_read :
  forall (cwd : string) (localeCompare : string -> string -> Z)
         (root : option string) (params : ExecuteTool.Parameters)
         (filePath : string) (w : Fs.World),
    ExecuteTool.p_filePath params = Some filePath ->
    let request := ExecuteTool.mkRequest (Some "readMarkdownFile") (Some params) root in
    (Chat.sandboxValid cwd root filePath = false ->
     ExecuteTool.POST cwd localeCompare (inr request) w
     = (Fs.Ok (ExecuteTool.error_reply 200
                 "Access denied: Path is outside the allowed directory"), w))
    /\ (forall content,
          Chat.sandboxValid cwd root filePath = true ->
          Fs.lookup (Fs.locate cwd filePath) (Fs.disk w) = Some (Fs.File content) ->
          ExecuteTool.POST cwd localeCompare (inr request) w
          = (Fs.Ok (ExecuteTool.ok_reply
                      (ExecuteTool.ReadData filePath content (Path.basename filePath)
                                            (JS.utf8_length content))), w))
    /\ (forall reason,
          Chat.preconditions cwd root (Chat.CallReadMarkdownFile filePath reason) w
          = true ->
          exists content,
            Fs.lookup (Fs.locate cwd filePath) (Fs.disk w) = Some (Fs.File content)
            /\ ExecuteTool.POST cwd localeCompare (inr request) w
               = (Fs.Ok (ExecuteTool.ok_reply
                           (ExecuteTool.ReadData filePath content
                              (Path.basename filePath) (JS.utf8_length content))), w)).
Proof.
  intros cwd localeCompare root params filePath w Hpath request.
  pose proof (POST_read_checked cwd localeCompare params root filePath w Hpath) as Hrun.
  fold request in Hrun.
  split; [| split].
  - intros Hvalid. rewrite Hrun, Hvalid. reflexivity.
  - intros content Hvalid Hfile. rewrite Hrun, Hvalid, Hfile. reflexivity.
  - intros reason Hpre. cbn [Chat.preconditions] in Hpre.
    apply andb_prop in Hpre as [Hpre _]. apply andb_prop in Hpre as [Hvalid Hfile].
    destruct (Fs.lookup (Fs.locate cwd filePath) (Fs.disk w)) as [[content | es] |] eqn:L;
      try discriminate.
    exists content. split; [reflexivity |]. rewrite Hrun, Hvalid. reflexivity.
Qed.

Lemma executor_serves_the_approved_read_witness :
  let params := ExecuteTool.mkParameters (Some "/w/a.md") None None None in
  ExecuteTool.p_filePath params = Some "/w/a.md"
  /\ Chat.preconditions "/" (Some "/w") (Chat.CallReadMarkdownFile "/w/a.md" "look")
                        sample_world = true
  /\ ExecuteTool.POST "/" codeUnitCompare
       (inr (ExecuteTool.mkRequest (Some "readMarkdownFile") (Some params) (Some "/w")))
       sample_world
     = (Fs.Ok (ExecuteTool.ok_reply (ExecuteTool.ReadData "/w/a.md" "# Title" "a.md" 7)),
        sample_world).
Proof.
  intros params. split; [reflexivity |]. split; [reflexivity |].
  destruct (proj2 (proj2 (executor_serves_the_approved_read "/" codeUnitCompare
                            (Some "/w") params "/w/a.md" sample_world eq_refl))
                  "look" eq_refl) as (content & Hfile & Hrun).
  vm_compute in Hfile. injection Hfile as <-. exact Hrun.
Defined.

(** ** Walking the tree *)

Lemma Node_induction (P : Fs.Node -> Prop) :
  (forall c, P (Fs.File c)) ->
  (forall es, Forall (fun e => P (snd e)) es -> P (Fs.Dir es)) ->
  forall n, P n.
Proof.
  intros HF HD. fix IH 1. intros [c | es]; [apply HF |].
  apply HD. revert es. fix IHes 1. intros [| [k c] es].
  - constructor.
  - constructor; [apply IH | apply IHes].
Qed.

Lemma well_formed_entries (es : list (string * Fs.Node)) :
  Fs.well_formed (Fs.Dir es) = true ->
  Forall (fun e => Path.entry_name (fst e) = true /\ Fs.well_formed (snd e) = true) es
  /\ NoDup (map fst es).
Proof.
  induction es as [|[k x] es IH]; [split; constructor |].
  rewrite well_formed_cons. intros W.
  apply andb_prop in W as [W W3]. apply andb_prop in W as [W W2].
  apply andb_prop in W as [W0 W1]. apply negb_true_iff in W1.
  destruct (IH W3) as [Hall Hnd]. split.
  - constructor; [split; assumption | exact Hall].
  - cbn [map fst]. constructor; [| exact Hnd].
    intros Hin. apply in_map_iff in Hin as ([k' x'] & E & Hin). cbn [fst] in E. subst k'.
    assert (existsb (fun e => fst e =? k) es = true).
    { apply existsb_exists. exists (k, x'). split; [exact Hin | apply String.eqb_refl]. }
    congruence.
Qed.

(** In a well-formed directory the entry of a name is the one [lookup]
    finds. *)
Lemma assoc_In_iff (es : list (string * Fs.Node)) (name : string) (c : Fs.Node) :
  Fs.well_formed (Fs.Dir es) = true ->
  (In (name, c) es <-> Fs.assoc name es = Some c).
Proof.
  intros W. destruct (well_formed_entries es W) as [_ Hnd]. clear W.
  induction es as [|[k x] es IH]; [split; [contradiction | discriminate] |].
  cbn [map fst] in Hnd. inversion Hnd as [|? ? Hnotin Hnd']; subst.
  cbn [Fs.assoc]. destruct (String.eqb_spec k name) as [-> | NE].
  - split.
    + intros [E | Hin]; [now injection E as -> |].
      exfalso. apply Hnotin. apply in_map_iff. exists (name, c). now split.
    + intros E. injection E as ->. now left.
  - rewrite <- (IH Hnd'). split.
    + intros [E | Hin]; [injection E as -> _; congruence | exact Hin].
    + intros Hin. now right.
Qed.

Lemma below_locate (cwd dirPath : string) (rel : list string) :
  Forall (fun s => Path.entry_name s = true) rel ->
  Fs.locate cwd (Path.below dirPath rel) = (Fs.locate cwd dirPath ++ rel)%list.
Proof.
  revert dirPath. induction rel as [|s rel IH]; intros dirPath F.
  - cbn. now rewrite app_nil_r.
  - inversion F as [|? ? Hs F']; subst.
    unfold Path.below in *. cbn [fold_left]. rewrite (IH _ F').
    unfold Fs.locate. rewrite (resolveSegs_join_name cwd dirPath s Hs).
    now rewrite <- app_assoc.
Qed.

Lemma lookup_names (rel : list string) (n m : Fs.Node) :
  Fs.well_formed n = true -> Fs.lookup rel n = Some m ->
  Forall (fun s => Path.entry_name s = true) rel.
Proof.
  revert n. induction rel as [|s rel IH]; intros n W L; [constructor |].
  destruct n as [c | es]; [discriminate |]. cbn [Fs.lookup] in L.
  destruct (Fs.assoc s es) as [c |] eqn:A; [| discriminate].
  apply (assoc_In_iff es s c W) in A.
  destruct (well_formed_entries es W) as [Hall _].
  pose proof (proj1 (Forall_forall _ _) Hall _ A) as [Hname Hwf].
  constructor; [exact Hname | exact (IH c Hwf L)].
Qed.

Lemma findInTree_Dir (dirPath : string) (pattern : option string)
      (es : list (string * Fs.Node)) :
  ExecuteTool.findInTree dirPath pattern (Fs.Dir es)
  = flat_map
      (fun e =>
         let fullPath := Path.join dirPath (fst e) in
         if Fs.isDir (snd e) then
           if ExecuteTool.skippedFolder (JS.toLowerCase (fst e)) then []
           else ExecuteTool.findInTree fullPath pattern (snd e)
         else if Fs.isRegular (snd e) && JS.endsWith (JS.toLowerCase (fst e)) ".md" then
           if ExecuteTool.matchesPattern pattern (fst e) then [fullPath] else []
         else []) es.
Proof.
  cbn [ExecuteTool.findInTree].
  induction es as [| [name c] es IH]; [reflexivity |].
  cbn [flat_map fst snd]. rewrite <- IH.
  destruct (Fs.isDir c).
  - destruct (ExecuteTool.skippedFolder (JS.toLowerCase name)); reflexivity.
  - destruct (Fs.isRegular c && JS.endsWith (JS.toLowerCase name) ".md");
      [destruct (ExecuteTool.matchesPattern pattern name) |]; reflexivity.
Qed.

Lemma last_cons_nonempty {A} (x : A) (l : list A) (d : A) :
  l <> [] -> last (x :: l) d = last l d.
Proof. destruct l; [congruence | reflexivity]. Qed.

Lemma removelast_cons_nonempty {A} (x : A) (l : list A) :
  l <> [] -> removelast (x :: l) = x :: removelast l.
Proof. destruct l; [congruence | reflexivity]. Qed.

(** The walk of [findMarkdownFiles] returns the paths of exactly the files
    it looks for. *)
Lemma findInTree_spec (pattern : option string) (n : Fs.Node) :
  Fs.well_formed n = true ->
  forall dirPath p,
    In p (ExecuteTool.findInTree dirPath pattern n)
    <-> exists rel, ExecuteTool.wanted pattern n rel
                    /\ p = Path.below dirPath rel.
Proof.
  induction n as [c | es IH] using Node_induction; intros W dirPath p.
  - split; [contradiction |].
    intros (rel & (NE & (content & L) & _) & _).
    destruct rel; [congruence | discriminate].
  - rewrite findInTree_Dir, in_flat_map.
    destruct (well_formed_entries es W) as [Hall _].
    split.
    + intros ([name c] & Hin & Hp). cbn [fst snd] in Hp.
      pose proof (proj1 (Forall_forall _ _) Hall _ Hin) as [_ Wc]. cbn [snd] in Wc.
      pose proof (proj1 (assoc_In_iff es name c W) Hin) as A.
      destruct (Fs.isDir c) eqn:Hdir.
      * destruct (ExecuteTool.skippedFolder (JS.toLowerCase name)) eqn:Hskip;
          [contradiction |].
        pose proof (proj1 (Forall_forall _ _) IH _ Hin) as IHc. cbn [snd] in IHc.
        apply (IHc Wc) in Hp as (rel & (NE & (content & L) & Hend & Hpat & Hway) & ->).
        exists (name :: rel). split; [| reflexivity].
        split; [discriminate |].
        split; [exists content; cbn [Fs.lookup]; now rewrite A |].
        rewrite last_cons_nonempty, removelast_cons_nonempty by exact NE.
        split; [exact Hend |]. split; [exact Hpat |]. now constructor.
      * destruct c as [content | ds]; [| discriminate]. cbn [Fs.isRegular andb] in Hp.
        destruct (JS.endsWith (JS.toLowerCase name) ".md") eqn:Hend; [| contradiction].
        destruct (ExecuteTool.matchesPattern pattern name) eqn:Hpat; [| contradiction].
        destruct Hp as [<- | []].
        exists [name]. split; [| reflexivity].
        split; [discriminate |].
        split; [exists content; cbn [Fs.lookup]; now rewrite A |].
        cbn [last removelast]. repeat split; try assumption. constructor.
    + intros (rel & (NE & (content & L) & Hend & Hpat & Hway) & ->).
      destruct rel as [| name rel]; [congruence |]. cbn [Fs.lookup] in L.
      destruct (Fs.assoc name es) as [c |] eqn:A; [| discriminate].
      pose proof (proj2 (assoc_In_iff es name c W) A) as Hin.
      pose proof (proj1 (Forall_forall _ _) Hall _ Hin) as [_ Wc]. cbn [snd] in Wc.
      exists (name, c). split; [exact Hin |]. cbn [fst snd].
      destruct rel as [| s rel'].
      * cbn [Fs.lookup] in L. injection L as ->. cbn [last] in Hend, Hpat.
        cbn [Fs.isDir Fs.isRegular andb]. rewrite Hend, Hpat. now left.
      * destruct c as [x | ds]; [discriminate |]. cbn [Fs.isDir].
        rewrite removelast_cons_nonempty in Hway by discriminate.
        rewrite last_cons_nonempty in Hend, Hpat by discriminate.
        inversion Hway as [| ? ? Hskip Hway']; subst. rewrite Hskip.
        pose proof (proj1 (Forall_forall _ _) IH _ Hin) as IHc. cbn [snd] in IHc.
        apply (IHc Wc). exists (s :: rel'). split; [| reflexivity].
        split; [discriminate |]. split; [eauto |]. repeat split; assumption.
Qed.

(** X16: [findMarkdownFiles] on a directory of a well-formed disk returns the
    paths of exactly the files it looks for: the regular files below the
    directory, not below a folder called node_modules, .git, .next or
    __pycache__ in any case, whose name ends in ".md" in any case and
    contains the pattern in any case when one is given; each path returned
    denotes its file.  On a path that is no directory it returns nothing.
    It never changes the world. *)
Theorem findMarkdownFiles_finds_exactly :
  forall (cwd dirPath : string) (pattern : option string) (w : Fs.World),
    Fs.well_formed (Fs.disk w) = true ->
    exists files,
      ExecuteTool.findMarkdownFiles cwd dirPath pattern w = (Fs.Ok files, w)
      /\ match Fs.lookup (Fs.locate cwd dirPath) (Fs.disk w) with
         | Some (Fs.Dir es) =>
             (forall p, In p files
                        <-> exists rel, ExecuteTool.wanted pattern (Fs.Dir es) rel
                                        /\ p = Path.below dirPath rel)
             /\ (forall rel, ExecuteTool.wanted pattern (Fs.Dir es) rel ->
                   exists content,
                     Fs.lookup (Fs.locate cwd (Path.below dirPath rel))
                               (Fs.disk w) = Some (Fs.File content)
                     /\ Fs.locate cwd (Path.below dirPath rel)
                        = (Fs.locate cwd dirPath ++ rel)%list)
         | _ => files = []
         end.
Proof.
  intros cwd dirPath pattern w W. eexists. split; [apply findMarkdownFiles_run |].
  destruct (Fs.lookup (Fs.locate cwd dirPath) (Fs.disk w)) as [[c | es] |] eqn:L;
    try reflexivity.
  assert (Wes : Fs.well_formed (Fs.Dir es) = true)
    by exact (well_formed_lookup _ _ _ W L).
  split.
  - intros p. apply findInTree_spec. exact Wes.
  - intros rel (NE & (content & Lrel) & _).
    pose proof (lookup_names rel _ _ Wes Lrel) as Hnames.
    rewrite (below_locate cwd dirPath rel Hnames).
    exists content. split; [| reflexivity].
    clear -L Lrel. revert L. generalize (Fs.disk w), (Fs.locate cwd dirPath).
    intros d segs. revert d. induction segs as [| s segs IH]; intros d L.
    + cbn in L |- *. injection L as ->. exact Lrel.
    + destruct d as [x | ds]; [discriminate |]. cbn [Fs.lookup app] in L |- *.
      destruct (Fs.assoc s ds) as [c |]; [| discriminate]. exact (IH c L).
Qed.

Lemma findMarkdownFiles_finds_exactly_witness :
  Fs.well_formed (Fs.disk sample_world) = true
  /\ exists files,
       ExecuteTool.findMarkdownFiles "/" "/w" (Some "A") sample_world
       = (Fs.Ok files, sample_world)
       /\ In "/w/a.md" files
       /\ ~ In "/w/b.md" files.
Proof.
  split; [reflexivity |].
  destruct (findMarkdownFiles_finds_exactly "/" "/w" (Some "A") sample_world eq_refl)
    as (files & Hrun & Hspec).
  exists files. split; [exact Hrun |].
  assert (L : Fs.lookup (Fs.locate "/" "/w") (Fs.disk sample_world)
              = Some (Fs.Dir [ ("a.md", Fs.File "# Title"); ("b.md", Fs.File "second");
                               ("notes.txt", Fs.File "todo");
                               ("sub", Fs.Dir [ ("inner", Fs.Dir []) ]) ]))
    by reflexivity.
  rewrite L in Hspec. destruct Hspec as [Hspec _]. split.
  - apply Hspec. exists ["a.md"]. split; [| reflexivity].
    split; [discriminate |]. split; [exists "# Title"; reflexivity |].
    split; [reflexivity |]. split; [reflexivity | constructor].
  - injection Hrun as <-. intros [H | []]. discriminate H.
Defined.

(** ** Searching the text of a file *)

Lemma split_lines_not_nil (s : string) : JS.split_lines s <> [].
Proof.
  destruct s as [| c s]; [discriminate |]. cbn [JS.split_lines].
  destruct (Ascii.eqb c "010"%char); [discriminate |].
  destruct (JS.split_lines s); discriminate.
Qed.

(** The lines of a text, joined by line feeds, are the text. *)
Lemma concat_split_lines (s : string) :
  String.concat JS.lf (JS.split_lines s) = s.
Proof.
  induction s as [| c s IH]; [reflexivity |]. cbn [JS.split_lines].
  pose proof (split_lines_not_nil s) as NN.
  destruct (Ascii.eqb_spec c "010"%char) as [-> | NE].
  - destruct (JS.split_lines s) as [| l ls]; [congruence |].
    change (String.concat JS.lf ("" :: l :: ls))
      with ("" ++ JS.lf ++ String.concat JS.lf (l :: ls)).
    rewrite IH. reflexivity.
  - destruct (JS.split_lines s) as [| l ls]; [congruence |].
    destruct ls as [| l' ls'].
    + cbn [String.concat] in *. now rewrite IH.
    + change (String.concat JS.lf (String c l :: l' :: ls'))
        with (String c (l ++ JS.lf ++ String.concat JS.lf (l' :: ls'))).
      change (String.concat JS.lf (l :: l' :: ls'))
        with (l ++ JS.lf ++ String.concat JS.lf (l' :: ls')) in IH.
      now rewrite IH.
Qed.

Lemma matchesFrom_spec (lowerQuery : string) (lines : list string) :
  forall (index n : nat) (text : string),
    In (ExecuteTool.mkMatch n text) (ExecuteTool.matchesFrom index lowerQuery lines)
    <-> exists k l, nth_error lines k = Some l
                    /\ n = index + k + 1
                    /\ JS.includes (JS.toLowerCase l) lowerQuery = true
                    /\ text = JS.trim l.
Proof.
  induction lines as [| l lines IH]; intros index n text.
  - split; [contradiction |]. intros (k & l & H & _). destruct k; discriminate.
  - cbn [ExecuteTool.matchesFrom].
    assert (Hrest : In (ExecuteTool.mkMatch n text)
                       (ExecuteTool.matchesFrom (S index) lowerQuery lines)
                    <-> exists k l0, nth_error (l :: lines) (S k) = Some l0
                                     /\ n = index + S k + 1
                                     /\ JS.includes (JS.toLowerCase l0) lowerQuery = true
                                     /\ text = JS.trim l0).
    { rewrite IH. split; intros (k & l0 & Hk & Hn & Hi & Ht); exists k, l0;
        repeat split; try assumption; cbn [nth_error] in *; try assumption; lia. }
    destruct (JS.includes (JS.toLowerCase l) lowerQuery) eqn:Hinc.
    + cbn [In]. rewrite Hrest. split.
      * intros [E | (k & l0 & H)].
        -- injection E as <- <-. exists 0, l. repeat split; [lia | exact Hinc].
        -- exists (S k), l0. exact H.
      * intros ([| k] & l0 & Hk & Hn & Hi & Ht).
        -- left. cbn in Hk. injection Hk as <-. subst. f_equal. lia.
        -- right. exists k, l0. repeat split; assumption.
    + rewrite Hrest. split.
      * intros (k & l0 & H). exists (S k), l0. exact H.
      * intros ([| k] & l0 & Hk & Hn & Hi & Ht).
        -- cbn in Hk. injection Hk as <-. congruence.
        -- exists k, l0. repeat split; assumption.
Qed.

Lemma matchesFrom_sorted (lowerQuery : string) (lines : list string) (index : nat) :
  StronglySorted (fun a b => ExecuteTool.line a < ExecuteTool.line b)
                 (ExecuteTool.matchesFrom index lowerQuery lines)
  /\ Forall (fun m => index < ExecuteTool.line m)
            (ExecuteTool.matchesFrom index lowerQuery lines).
Proof.
  revert index. induction lines as [| l lines IH]; intros index.
  - split; constructor.
  - cbn [ExecuteTool.matchesFrom]. destruct (IH (S index)) as [Hs Hf].
    assert (Hf' : Forall (fun m => index < ExecuteTool.line m)
                         (ExecuteTool.matchesFrom (S index) lowerQuery lines)).
    { eapply Forall_impl; [| exact Hf]. cbn. intros m Hm. lia. }
    destruct (JS.includes (JS.toLowerCase l) lowerQuery); [| now split].
    split.
    + constructor; [exact Hs |]. eapply Forall_impl; [| exact Hf].
      cbn [ExecuteTool.line]. intros m Hm. lia.
    + constructor; [cbn [ExecuteTool.line]; lia | exact Hf'].
Qed.

(** X17: [searchInFile] on a regular file reports exactly the lines of its text
    that contain the query in any case, each with its number counted from
    one and its text trimmed, in the order of the file; on anything else it
    reports nothing; it never changes the world. *)
Theorem searchInFile_reports_the_matching_lines :
  forall (cwd filePath query : string) (w : Fs.World),
    match Fs.lookup (Fs.locate cwd filePath) (Fs.disk w) with
    | Some (Fs.File content) =>
        let lines := JS.split_lines content in
        exists matches,
          ExecuteTool.searchInFile cwd filePath (Some query) w = (Fs.Ok matches, w)
          /\ String.concat JS.lf lines = content
          /\ (forall n text,
                In (ExecuteTool.mkMatch n text) matches
                <-> exists l, 1 <= n
                              /\ nth_error lines (n - 1) = Some l
                              /\ JS.includes (JS.toLowerCase l) (JS.toLowerCase query)
                                 = true
                              /\ text = JS.trim l)
          /\ StronglySorted (fun a b => ExecuteTool.line a < ExecuteTool.line b) matches
    | _ => ExecuteTool.searchInFile cwd filePath (Some query) w = (Fs.Ok [], w)
    end.
Proof.
  intros cwd filePath query w. rewrite searchInFile_run.
  destruct (Fs.lookup (Fs.locate cwd filePath) (Fs.disk w)) as [[content | es] |];
    try reflexivity.
  intros lines. eexists. split; [reflexivity |].
  split; [apply concat_split_lines |]. split.
  - intros n text. rewrite matchesFrom_spec. split.
    + intros (k & l & Hk & Hn & Hi & Ht). exists l.
      replace (n - 1) with k by lia. repeat split; try assumption. lia.
    + intros (l & Hn & Hk & Hi & Ht). exists (n - 1), l.
      repeat split; try assumption. lia.
  - apply matchesFrom_sorted.
Qed.

(** ** The tree the executor lists *)

Lemma buildTree_Dir (localeCompare : string -> string -> Z) (dirPath : string)
      (es : list (string * Fs.Node)) :
  ExecuteTool.buildTree localeCompare dirPath (Fs.Dir es)
  = FileActions.sortNodes localeCompare
      (map (ExecuteTool.treeNode localeCompare dirPath)
           (filter ExecuteTool.shown es)).
Proof.
  cbn [ExecuteTool.buildTree]. f_equal.
  induction es as [| [name c] es IH]; [reflexivity |].
  cbn [filter]. unfold ExecuteTool.shown at 1. cbn [fst snd].
  destruct (ExecuteTool.skippedEntry (JS.toLowerCase name)); cbn [negb].
  - exact IH.
  - cbn [map]. rewrite <- IH. unfold ExecuteTool.treeNode. cbn [fst snd].
    reflexivity.
Qed.

(** X18: [buildFileTree] lists a directory that exists as its tree, and at every
    level of the tree, whatever the settings: the nodes are those of the
    entries, files and folders alike, whose name is none of node_modules,
    .git, .next, __pycache__ and .vscode in any case, with all directories
    before all files and each group ordered by name under the collation; a
    folder comes with the tree of its own entries.  Nothing is changed. *)
Theorem buildFileTree_lists_every_level_sorted :
  forall (cwd : string) (localeCompare : string -> string -> Z),
    (forall a b, (0 < localeCompare a b)%Z -> (localeCompare b a <= 0)%Z) ->
    (forall a b c, (localeCompare a b <= 0)%Z -> (localeCompare b c <= 0)%Z ->
                   (localeCompare a c <= 0)%Z) ->
    (forall (dirPath : string) (w : Fs.World) (es : list (string * Fs.Node)),
        Fs.lookup (Fs.locate cwd dirPath) (Fs.disk w) = Some (Fs.Dir es) ->
        ExecuteTool.buildFileTree cwd localeCompare dirPath w
        = (Fs.Ok (ExecuteTool.buildTree localeCompare dirPath (Fs.Dir es)), w))
    /\ (forall (dirPath : string) (es : list (string * Fs.Node)),
          let level := ExecuteTool.buildTree localeCompare dirPath (Fs.Dir es) in
          Permutation level
            (map (ExecuteTool.treeNode localeCompare dirPath)
                 (filter ExecuteTool.shown es))
          /\ (forall e, In e es ->
                (ExecuteTool.shown e = false
                 <-> In (JS.toLowerCase (fst e))
                        ["node_modules"; ".git"; ".next"; "__pycache__"; ".vscode"]))
          /\ exists dirs files,
               level = (dirs ++ files)%list
               /\ Forall (fun n => fn_type n = directory) dirs
               /\ Forall (fun n => fn_type n = file) files
               /\ StronglySorted (FileActions.byName localeCompare) dirs
               /\ StronglySorted (FileActions.byName localeCompare) files).
Proof.
  intros cwd localeCompare Htotal Htrans. split.
  - intros dirPath w es Hdir. rewrite buildFileTree_run, Hdir. reflexivity.
  - intros dirPath es level. unfold level. rewrite buildTree_Dir.
    split; [apply sortNodes_perm |]. split.
    + intros e _. unfold ExecuteTool.shown, ExecuteTool.skippedEntry,
        ExecuteTool.skippedFolder.
      rewrite negb_false_iff, !orb_true_iff, !String.eqb_eq. cbn [In].
      intuition congruence.
    + apply sorted_groups, sortNodes_sorted; assumption.
Qed.

Lemma buildFileTree_lists_every_level_sorted_witness :
  exists tree,
    ExecuteTool.buildFileTree "/" codeUnitCompare "/w" odd_world = (Fs.Ok tree, odd_world)
    /\ map fn_name tree = ["build.log"; "trace.LOG"].
Proof.
  eexists. split.
  - apply (proj1 (buildFileTree_lists_every_level_sorted "/" codeUnitCompare
                    codeUnitCompare_total codeUnitCompare_trans)).
    reflexivity.
  - reflexivity.
Defined.

(** ** The keywords that force the tool *)

(** [includes] finds the text inside the string. *)
Lemma includes_spec (s sub : string) :
  JS.includes s sub = true <-> exists before after, s = before ++ sub ++ after.
Proof.
  split.
  - induction s as [| c s IH]; cbn [JS.includes]; intros H.
    + rewrite orb_false_r in H. apply startsWith_inv in H as [t ->].
      exists "", t. reflexivity.
    + apply orb_prop in H as [H | H].
      * apply startsWith_inv in H as [t ->]. exists "", t. reflexivity.
      * destruct (IH H) as (before & after & ->).
        exists (String c before), after. reflexivity.
  - intros (before & after & ->). induction before as [| c before IH].
    + cbn [append]. destruct (sub ++ after) eqn:E; cbn [JS.includes];
        rewrite <- E, startsWith_prefix; reflexivity.
    + cbn [append JS.includes]. rewrite IH. apply orb_true_r.
Qed.



(** ** The model table *)

(** X20: The client [getModelInstance] builds is always bound to a model of the
    table and is the client of the provider the table gives that model: the
    requested model when it is in the table, "gpt-4o-mini" of OpenAI
    otherwise. *)
Theorem getModelInstance_is_consistent_with_the_table :
  forall (modelId : string),
    let instance := Models.getModelInstance modelId in
    In (Models.modelName instance) Models.ALLOWED_MODEL_IDS
    /\ Models.getProviderFromModelId (Models.modelName instance)
       = Models.client instance
    /\ (Models.isValidModelId modelId = true ->
        Models.modelName instance = modelId
        /\ Models.client instance = Models.getProviderFromModelId modelId)
    /\ (Models.isValidModelId modelId = false ->
        instance = Models.mkLanguageModel Models.openai "gpt-4o-mini").
Proof.
  intros modelId instance. unfold instance, Models.getModelInstance.
  destruct (Models.getModelConfig modelId) as [config |] eqn:Hconfig.
  - cbn [Models.modelName Models.client].
    assert (Hvalid : In modelId Models.ALLOWED_MODEL_IDS).
    { pose proof (getModelConfig_id _ _ Hconfig) as <-.
      unfold Models.getModelConfig in Hconfig. apply find_some in Hconfig as [Hin _].
      unfold Models.ALLOWED_MODEL_IDS. now apply in_map. }
    unfold Models.getProviderFromModelId. rewrite Hconfig.
    split; [exact Hvalid |]. split; [reflexivity |]. split; [now split |].
    intros Hno. apply isValidModelId_In in Hvalid. congruence.
  - cbn [Models.modelName Models.client].
    split; [cbn; tauto |]. split; [reflexivity |]. split; [| reflexivity].
    intros Hvalid. destruct (isValidModelId_config modelId Hvalid) as (config & Hc).
    congruence.
Qed.

(** ** Accepting a change, whatever happens *)

Lemma is_prefix_snoc_false (l : list string) (x : string) :
  Fs.is_prefix (l ++ [x])%list l = false.
Proof.
  induction l as [| s l IH]; [reflexivity |]. cbn [app Fs.is_prefix].
  rewrite IH. apply andb_false_r.
Qed.

Lemma with_disk_same (w : Fs.World) : Fs.with_disk w (Fs.disk w) = w.
Proof. now destruct w. Qed.

(** A write that fails after the directory of the file was made has made
    nothing. *)
Lemma write_after_mkdir_fails (target : list string) (content : string)
      (d d1 : Fs.Node) :
  Fs.mkdir_p (removelast target) d = Some d1 ->
  (Fs.isDir (match Fs.lookup target d1 with Some n => n | None => Fs.File "" end) = true
   \/ Fs.put target (Fs.File content) d1 = None) ->
  d1 = d.
Proof.
  intros Hmk Hfail.
  destruct target as [| s target'] eqn:E.
  { cbn in Hmk. destruct d; [discriminate | now injection Hmk as <-]. }
  rewrite <- E in *. assert (NE : target <> []) by (rewrite E; discriminate).
  clear E s target'.
  destruct (mkdir_p_makes_directory _ _ _ Hmk) as [es Hparent].
  rewrite (removelast_last target "" NE) in Hfail.
  destruct Hfail as [Hdir | Hput].
  2: { destruct (put_snoc_ok (removelast target) (last target "") (Fs.File content)
                             d1 es Hparent) as [d' Hd'].
       congruence. }
  rewrite (mkdir_p_lookup_eq _ _ _ Hmk) in Hdir by apply is_prefix_snoc_false.
  rewrite lookup_snoc in Hdir.
  destruct (Fs.lookup (removelast target) d) as [[c | es'] |] eqn:L;
    try discriminate.
  rewrite (mkdir_p_existing _ _ _ L) in Hmk. now injection Hmk as <-.
Qed.

(** [acceptProposedChange] always returns: a success, after which the file
    holds the proposed content and every other file is as it was, or a
    failure with a message, after which nothing has changed. *)
Lemma acceptProposedChange_outcome
      (cwd : string) (settings : AppSettings) (filePath X : string) (w : Fs.World) :
  exists r w',
    AiChange.acceptProposedChange cwd settings filePath X w = (Fs.Ok r, w')
    /\ ((success r = true
         /\ Fs.lookup (Path.resolveSegs cwd filePath) (Fs.disk w') = Some (Fs.File X)
         /\ Fs.recentFiles w' = Fs.recentFiles w
         /\ (forall q c, q <> Path.resolveSegs cwd filePath ->
                         Fs.lookup q (Fs.disk w) = Some (Fs.File c) ->
                         Fs.lookup q (Fs.disk w') = Some (Fs.File c)))
        \/ (exists msg, r = fail msg /\ w' = w)).
Proof.
  unfold AiChange.acceptProposedChange.
  destruct (JS.startsWith (Path.resolve cwd filePath)
                          (Path.resolve cwd (rootDirectory settings))); cbn [negb].
  2: { eexists _, _. split; [reflexivity |]. right. eauto. }
  unfold Fs.try_catch, Fs.bind.
  destruct (Fs.mkdir_recursive cwd (Path.dirname (Path.resolve cwd filePath)) w)
    as [[u | e |] w1] eqn:Hmk.
  - apply mkdir_recursive_ok_inv in Hmk as (d1 & Hmk & ->).
    rewrite locate_dirname in Hmk.
    destruct (Fs.writeFile cwd (Path.resolve cwd filePath) X (Fs.with_disk w d1))
      as [[u' | e |] w2] eqn:Hwrite.
    + apply writeFile_ok_inv in Hwrite as (d2 & Hput & -> & Hnodir).
      rewrite locate_resolve in Hput, Hnodir. cbn [Fs.disk Fs.with_disk] in Hput, Hnodir.
      pose proof (lookup_put_same _ _ _ _ Hput) as Hnew.
      rewrite stat_run, locate_resolve. cbn [Fs.disk Fs.with_disk]. rewrite Hnew.
      eexists _, _. split; [reflexivity |]. left.
      cbn [Fs.disk Fs.with_disk Fs.recentFiles success succeed].
      split; [reflexivity |]. split; [exact Hnew |]. split; [reflexivity |].
      intros q c NE Hq. apply (put_keeps_files _ _ _ _ Hput Hnodir q c NE).
      exact (mkdir_p_keeps_files _ _ _ Hmk q c Hq).
    + eexists _, _. split; [reflexivity |]. right. eexists. split; [reflexivity |].
      pose proof Hwrite as Hw2. unfold Fs.writeFile in Hw2.
      apply update_throw_inv in Hw2. subst w2.
      assert (d1 = Fs.disk w) as ->; [| apply with_disk_same].
      apply (write_after_mkdir_fails (Path.resolveSegs cwd filePath) X _ _ Hmk).
      revert Hwrite. unfold Fs.writeFile, Fs.update. rewrite locate_resolve.
      cbn [Fs.disk Fs.with_disk].
      destruct (Fs.lookup (Path.resolveSegs cwd filePath) d1) as [[c | es] |];
        try (now left);
        (destruct (Fs.put _ _ d1); [discriminate | now right]).
    + exfalso. revert Hwrite. unfold Fs.writeFile, Fs.update.
      destruct (Fs.lookup _ _) as [[c | es] |]; try discriminate;
        destruct (Fs.put _ _ _); discriminate.
  - unfold Fs.mkdir_recursive in Hmk. apply update_throw_inv in Hmk. subst w1.
    eexists _, _. split; [reflexivity |]. right. eauto.
  - exfalso. revert Hmk. unfold Fs.mkdir_recursive, Fs.update.
    destruct (Fs.mkdir_p _ _); discriminate.
Qed.


(** ** A pending change and the active file *)

(** X22: After the effect of the page has run, a pending change is a change of
    the active file: a change of another file, or any change when no file
    is active, has been cleared, and nothing else of the store has moved.
    So an accept that follows writes to no file but the active one, and to
    none when no file is active. *)
Theorem stale_pending_change_is_cleared :
  forall (cwd : string) (settings : AppSettings)
         (activeFile : option string) (s : DiffReview.AppState) (w : Fs.World),
    let s1 := DiffReview.clearStalePendingChange activeFile s in
    (forall change,
        DiffReview.pendingChange s1 = Some change ->
        DiffReview.pendingChange s = Some change
        /\ activeFile = Some (DiffReview.filePath change))
    /\ (forall change,
          DiffReview.pendingChange s = Some change ->
          activeFile = Some (DiffReview.filePath change) -> s1 = s)
    /\ DiffReview.editorContent s1 = DiffReview.editorContent s
    /\ DiffReview.isDirty s1 = DiffReview.isDirty s
    /\ DiffReview.editorVersion s1 = DiffReview.editorVersion s
    /\ (forall q c,
          match activeFile with
          | Some p => q <> Path.resolveSegs cwd p
          | None => True
          end ->
          Fs.lookup q (Fs.disk w) = Some (Fs.File c) ->
          Fs.lookup q (Fs.disk (snd (DiffReview.handleAccept cwd settings s1 w)))
          = Some (Fs.File c)).
Proof.
  intros cwd settings activeFile s w s1.
  assert (Hcases :
            (s1 = s /\ forall change, DiffReview.pendingChange s = Some change ->
                                      activeFile = Some (DiffReview.filePath change))
            \/ (s1 = DiffReview.clearPendingChange s
                /\ forall change, DiffReview.pendingChange s = Some change ->
                                  activeFile <> Some (DiffReview.filePath change))).
  { unfold s1, DiffReview.clearStalePendingChange.
    destruct (DiffReview.pendingChange s) as [change |] eqn:Hp.
    - destruct activeFile as [p |].
      + destruct (String.eqb_spec p (DiffReview.filePath change)) as [-> | NE];
          cbn [negb].
        * left. split; [reflexivity |]. intros c E. now injection E as <-.
        * right. split; [reflexivity |]. intros c E. injection E as <-. congruence.
      + right. split; [reflexivity |]. discriminate.
    - left. split; [reflexivity |]. discriminate. }
  split; [| split; [| split; [| split; [| split]]]].
  - intros change H1. destruct Hcases as [[E Hact] | [E _]]; rewrite E in H1.
    + split; [exact H1 | exact (Hact change H1)].
    + discriminate.
  - intros change Hp Hact. destruct Hcases as [[E _] | [_ Hno]]; [exact E |].
    exfalso. exact (Hno change Hp Hact).
  - destruct Hcases as [[-> _] | [-> _]]; reflexivity.
  - destruct Hcases as [[-> _] | [-> _]]; reflexivity.
  - destruct Hcases as [[-> _] | [-> _]]; reflexivity.
  - intros q c Hq Hfile. unfold DiffReview.handleAccept.
    destruct (DiffReview.pendingChange s1) as [change |] eqn:H1; [| exact Hfile].
    assert (Hact : activeFile = Some (DiffReview.filePath change)).
    { destruct Hcases as [[E Hact] | [E _]]; rewrite E in H1;
        [exact (Hact change H1) | discriminate]. }
    rewrite Hact in Hq.
    destruct (acceptProposedChange_outcome cwd settings (DiffReview.filePath change)
                (DiffReview.proposedContent change) w)
      as (r & w' & Hrun & [(Hs & _ & _ & Hkeep) | (msg & -> & ->)]).
    + rewrite Hrun, Hs. cbn [snd]. exact (Hkeep q c Hq Hfile).
    + rewrite Hrun. cbn [snd success fail]. exact Hfile.
Qed.

Lemma stale_pending_change_is_cleared_witness :
  DiffReview.pendingChange
    (DiffReview.clearStalePendingChange (Some "/w/b.md") sample_state) = None
  /\ Fs.lookup ["w"; "a.md"]
       (Fs.disk (snd (DiffReview.handleAccept "/" sample_settings
                        (DiffReview.clearStalePendingChange (Some "/w/b.md") sample_state)
                        sample_world)))
     = Some (Fs.File "# Title").
Proof.
  split; [reflexivity |].
  apply (proj2 (proj2 (proj2 (proj2 (proj2
           (stale_pending_change_is_cleared "/" sample_settings (Some "/w/b.md")
              sample_state sample_world)))))); [discriminate | reflexivity].
Defined.

(** ** The folders shown open *)

Lemma has_add (s : list string) (p q : string) :
  AppStore.has (AppStore.add s p) q = AppStore.has s q || (p =? q).
Proof.
  unfold AppStore.add. destruct (AppStore.has s p) eqn:Hp.
  - destruct (String.eqb_spec p q) as [-> | NE]; [| now rewrite orb_false_r].
    rewrite Hp. reflexivity.
  - unfold AppStore.has. rewrite existsb_app. cbn [existsb]. now rewrite orb_false_r.
Qed.

Lemma has_delete (s : list string) (p q : string) :
  AppStore.has (AppStore.delete s p) q = AppStore.has s q && negb (p =? q).
Proof.
  unfold AppStore.has, AppStore.delete. induction s as [| x s IH]; [reflexivity |].
  cbn [filter existsb]. destruct (String.eqb_spec x p) as [-> | NE]; cbn [negb].
  - rewrite IH. destruct (String.eqb_spec p q) as [-> | NE']; cbn [negb].
    + now rewrite !andb_false_r.
    + now rewrite !andb_true_r.
  - cbn [existsb]. rewrite IH.
    destruct (String.eqb_spec x q) as [-> | NE'']; [| reflexivity].
    destruct (String.eqb_spec p q) as [-> | NE3]; [congruence |]. reflexivity.
Qed.

Lemma has_newSet (l : list string) (q : string) :
  AppStore.has (AppStore.newSet l) q = AppStore.has l q.
Proof.
  unfold AppStore.newSet.
  assert (H : forall acc, AppStore.has (fold_left AppStore.add l acc) q
                          = AppStore.has acc q || AppStore.has l q).
  { induction l as [| x l IH]; intros acc; cbn [fold_left].
    - unfold AppStore.has at 3. cbn [existsb]. now rewrite orb_false_r.
    - rewrite IH, has_add. unfold AppStore.has at 4. cbn [existsb].
      fold (AppStore.has l q). now rewrite orb_assoc. }
  rewrite H. reflexivity.
Qed.

(** X23: [toggleFolder] changes whether the folder is shown open and nothing
    else: toggling a folder opens it when it was closed and closes it when
    it was open, the other folders stay as they were, and toggling twice
    gives back the folders that were open. *)
Theorem toggleFolder_flips_one_folder :
  forall (path : string) (expandedFolders : list string) (q : string),
    AppStore.has (AppStore.toggleFolder path expandedFolders) q
    = (if q =? path then negb (AppStore.has expandedFolders q)
       else AppStore.has expandedFolders q)
    /\ AppStore.has (AppStore.toggleFolder path
                       (AppStore.toggleFolder path expandedFolders)) q
       = AppStore.has expandedFolders q.
Proof.
  assert (Hflip : forall path s q,
             AppStore.has (AppStore.toggleFolder path s) q
             = (if q =? path then negb (AppStore.has s q) else AppStore.has s q)).
  { intros path s q. unfold AppStore.toggleFolder.
    destruct (AppStore.has (AppStore.newSet s) path) eqn:Hp.
    - rewrite has_delete, has_newSet. rewrite has_newSet in Hp.
      rewrite (String.eqb_sym q path).
      destruct (String.eqb_spec path q) as [-> | NE]; cbn [negb].
      + now rewrite Hp.
      + apply andb_true_r.
    - rewrite has_add, has_newSet. rewrite has_newSet in Hp.
      rewrite (String.eqb_sym q path).
      destruct (String.eqb_spec path q) as [-> | NE].
      + now rewrite Hp.
      + apply orb_false_r. }
  intros path s q. split; [apply Hflip |].
  rewrite !Hflip. destruct (q =? path); [apply negb_involutive | reflexivity].
Qed.

(** ** Searching the tree by name *)

Section Searching.

Variable settings : AppSettings.
Variable localeCompare : string -> string -> Z.

Hypothesis localeCompare_total :
  forall a b, (0 < localeCompare a b)%Z -> (localeCompare b a <= 0)%Z.
Hypothesis localeCompare_trans :
  forall a b c, (localeCompare a b <= 0)%Z -> (localeCompare b c <= 0)%Z ->
                (localeCompare a c <= 0)%Z.

Local Abbreviation cmp := (FileActions.compareResults localeCompare).
Local Abbreviation byName := (FileActions.byName localeCompare).

Lemma searchTree_Dir (lowerQuery dirPath : string) (es : list (string * Fs.Node)) :
  FileActions.searchTree settings lowerQuery dirPath (Fs.Dir es)
  = flat_map
      (fun e =>
         if FileActions.shouldExclude (fst e) (Fs.isDir (snd e)) settings then []
         else
           ((if JS.includes (JS.toLowerCase (fst e)) lowerQuery
             then [FileActions.foundNode dirPath [fst e] (snd e)] else [])
            ++ (if Fs.isDir (snd e)
                then FileActions.searchTree settings lowerQuery
                       (Path.join dirPath (fst e)) (snd e)
                else []))%list) es.
Proof.
  cbn [FileActions.searchTree].
  induction es as [| [name c] es IH]; [reflexivity |].
  cbn [flat_map fst snd]. rewrite <- IH.
  destruct (FileActions.shouldExclude name (Fs.isDir c) settings); [reflexivity |].
  rewrite <- app_assoc. reflexivity.
Qed.

Lemma foundNode_cons (dirPath name : string) (rel : list string) (n : Fs.Node) :
  rel <> [] ->
  FileActions.foundNode dirPath (name :: rel) n
  = FileActions.foundNode (Path.join dirPath name) rel n.
Proof.
  intros NE. unfold FileActions.foundNode, Path.below.
  rewrite last_cons_nonempty by exact NE. reflexivity.
Qed.

(** The walk of the search reports exactly the entries it looks for. *)
Lemma searchTree_spec (lowerQuery : string) (n : Fs.Node) :
  Fs.well_formed n = true ->
  forall dirPath node,
    In node (FileActions.searchTree settings lowerQuery dirPath n)
    <-> exists rel m, FileActions.searched settings lowerQuery n rel m
                      /\ node = FileActions.foundNode dirPath rel m.
Proof.
  induction n as [c | es IH] using Node_induction; intros W dirPath node.
  - split; [contradiction |].
    intros (rel & m & (NE & L & _) & _). destruct rel; [congruence | discriminate].
  - rewrite searchTree_Dir, in_flat_map.
    destruct (well_formed_entries es W) as [Hall _].
    split.
    + intros ([name c] & Hin & Hp). cbn [fst snd] in Hp.
      pose proof (proj1 (Forall_forall _ _) Hall _ Hin) as [_ Wc]. cbn [snd] in Wc.
      pose proof (proj1 (assoc_In_iff es name c W) Hin) as A.
      destruct (FileActions.shouldExclude name (Fs.isDir c) settings) eqn:Hex;
        [contradiction |].
      apply in_app_or in Hp as [Hp | Hp].
      * destruct (JS.includes (JS.toLowerCase name) lowerQuery) eqn:Hinc;
          [| contradiction].
        destruct Hp as [<- | []]. exists [name], c. split; [| reflexivity].
        split; [discriminate |]. split; [cbn [Fs.lookup]; now rewrite A |].
        cbn [last removelast]. repeat split; try assumption. constructor.
      * destruct (Fs.isDir c) eqn:Hdir; [| contradiction].
        pose proof (proj1 (Forall_forall _ _) IH _ Hin) as IHc. cbn [snd] in IHc.
        apply (IHc Wc) in Hp as (rel & m & (NE & L & Hway & Hlast & Hinc) & ->).
        exists (name :: rel), m. split; [| now rewrite foundNode_cons].
        split; [discriminate |]. split; [cbn [Fs.lookup]; now rewrite A |].
        rewrite last_cons_nonempty, removelast_cons_nonempty by exact NE.
        repeat split; try assumption. now constructor.
    + intros (rel & m & (NE & L & Hway & Hlast & Hinc) & ->).
      destruct rel as [| name rel]; [congruence |]. cbn [Fs.lookup] in L.
      destruct (Fs.assoc name es) as [c |] eqn:A; [| discriminate].
      pose proof (proj2 (assoc_In_iff es name c W) A) as Hin.
      pose proof (proj1 (Forall_forall _ _) Hall _ Hin) as [_ Wc]. cbn [snd] in Wc.
      exists (name, c). split; [exact Hin |]. cbn [fst snd].
      destruct rel as [| s rel'].
      * cbn [Fs.lookup] in L. injection L as ->. cbn [last] in Hlast, Hinc.
        rewrite Hlast, Hinc. apply in_or_app. left. now left.
      * destruct c as [x | ds]; [discriminate |]. cbn [Fs.isDir].
        rewrite removelast_cons_nonempty in Hway by discriminate.
        rewrite last_cons_nonempty in Hlast, Hinc by discriminate.
        inversion Hway as [| ? ? Hname Hway']; subst. rewrite Hname.
        apply in_or_app. right.
        pose proof (proj1 (Forall_forall _ _) IH _ Hin) as IHc. cbn [snd] in IHc.
        apply (IHc Wc). exists (s :: rel'), m.
        split; [| now rewrite foundNode_cons by discriminate].
        split; [discriminate |]. repeat split; assumption.
Qed.

Lemma compareResults_cases (a b : FileNode) :
  cmp a b
  = if FileActions.markdownResult a then
      if FileActions.markdownResult b then localeCompare (fn_name a) (fn_name b)
      else (-1)%Z
    else
      if FileActions.markdownResult b then 1%Z
      else localeCompare (fn_name a) (fn_name b).
Proof.
  unfold FileActions.compareResults, FileActions.markdownResult.
  destruct (NodeType_eqb (fn_type a) file && Config.isMarkdownFile (fn_name a)),
    (NodeType_eqb (fn_type b) file && Config.isMarkdownFile (fn_name b));
    reflexivity.
Qed.

Lemma compareResults_total (a b : FileNode) : (cmp a b <= 0)%Z \/ (cmp b a <= 0)%Z.
Proof.
  rewrite !compareResults_cases.
  destruct (FileActions.markdownResult a), (FileActions.markdownResult b); try lia;
    destruct (Z_lt_le_dec 0 (localeCompare (fn_name a) (fn_name b))) as [H | H];
    try (right; now apply localeCompare_total); now left.
Qed.

Lemma compareResults_trans (a b c : FileNode) :
  (cmp a b <= 0)%Z -> (cmp b c <= 0)%Z -> (cmp a c <= 0)%Z.
Proof.
  rewrite !compareResults_cases.
  destruct (FileActions.markdownResult a), (FileActions.markdownResult b),
    (FileActions.markdownResult c); try lia; apply localeCompare_trans.
Qed.

Lemma insertResult_perm (x : FileNode) (l : list FileNode) :
  Permutation (FileActions.insertResult localeCompare x l) (x :: l).
Proof.
  induction l as [| y l IH]; simpl; [reflexivity |].
  destruct (cmp x y <=? 0)%Z; [reflexivity |].
  rewrite IH. apply perm_swap.
Qed.

Lemma sortResults_perm (l : list FileNode) :
  Permutation (FileActions.sortResults localeCompare l) l.
Proof.
  induction l as [| x l IH]; simpl; [reflexivity |].
  rewrite insertResult_perm. now constructor.
Qed.

Lemma insertResult_sorted (x : FileNode) (l : list FileNode) :
  StronglySorted (fun a b => (cmp a b <= 0)%Z) l ->
  StronglySorted (fun a b => (cmp a b <= 0)%Z)
                 (FileActions.insertResult localeCompare x l).
Proof.
  induction 1 as [| y l Hsorted IH Hall]; simpl.
  - constructor; [constructor | constructor].
  - destruct (cmp x y <=? 0)%Z eqn:Hcmp.
    + apply Z.leb_le in Hcmp. constructor; [now constructor |].
      constructor; [exact Hcmp |].
      eapply Forall_impl; [| exact Hall]. intros z Hz.
      now apply (compareResults_trans x y z).
    + apply Z.leb_gt in Hcmp. constructor; [exact IH |].
      assert (Hyx : (cmp y x <= 0)%Z).
      { destruct (compareResults_total x y) as [H | H]; [lia | exact H]. }
      rewrite Forall_forall in *. intros z Hz.
      apply (Permutation_in _ (insertResult_perm x l)) in Hz.
      destruct Hz as [<- | Hz]; [exact Hyx | now apply Hall].
Qed.

Lemma sortResults_sorted (l : list FileNode) :
  StronglySorted (fun a b => (cmp a b <= 0)%Z) (FileActions.sortResults localeCompare l).
Proof.
  induction l as [| x l IH]; simpl; [constructor | now apply insertResult_sorted].
Qed.

(** A list sorted by the comparator of the search is its markdown files, by
    name, followed by the rest, by name. *)
Lemma sorted_markdown_first (l : list FileNode) :
  StronglySorted (fun a b => (cmp a b <= 0)%Z) l ->
  exists markdown others,
    l = (markdown ++ others)%list
    /\ Forall (fun n => FileActions.markdownResult n = true) markdown
    /\ Forall (fun n => FileActions.markdownResult n = false) others
    /\ StronglySorted byName markdown
    /\ StronglySorted byName others.
Proof.
  induction 1 as [| x l Hsorted IH Hall].
  - exists [], []. repeat split; constructor.
  - destruct IH as (md & others & -> & Hmd & Hothers & Hsm & Hso).
    destruct (FileActions.markdownResult x) eqn:Hx.
    + exists (x :: md), others. simpl. repeat split; try assumption.
      * now constructor.
      * constructor; [assumption |].
        apply Forall_app in Hall as [Hall _].
        rewrite Forall_forall in *. intros z Hz.
        specialize (Hall z Hz). specialize (Hmd z Hz).
        rewrite compareResults_cases, Hx, Hmd in Hall. exact Hall.
    + destruct md as [| d md].
      * exists [], (x :: others). simpl in *.
        repeat split; try constructor; try assumption.
        rewrite Forall_forall in *. intros z Hz.
        specialize (Hall z Hz). specialize (Hothers z Hz).
        rewrite compareResults_cases, Hx, Hothers in Hall. exact Hall.
      * exfalso. inversion Hall as [| ? ? Hxd _]; subst.
        inversion Hmd as [| ? ? Hd _]; subst.
        rewrite compareResults_cases, Hx, Hd in Hxd. lia.
Qed.

End Searching.

(** X24: [searchFiles] on a well-formed disk whose root directory exists returns
    exactly the entries below the root, reached through folders that are not
    excluded and not excluded themselves, whose name contains the query in
    any case, each with the path that denotes it; the markdown files come
    first and each group is ordered by name under the collation.  When the
    root is no directory it returns nothing.  Nothing is changed. *)
Theorem searchFiles_finds_exactly :
  forall (cwd : string) (settings : AppSettings)
         (localeCompare : string -> string -> Z) (query : string) (w : Fs.World),
    (forall a b, (0 < localeCompare a b)%Z -> (localeCompare b a <= 0)%Z) ->
    (forall a b c, (localeCompare a b <= 0)%Z -> (localeCompare b c <= 0)%Z ->
                   (localeCompare a c <= 0)%Z) ->
    Fs.well_formed (Fs.disk w) = true ->
    exists results,
      FileActions.searchFiles cwd settings localeCompare query w = (Fs.Ok results, w)
      /\ match Fs.lookup (Fs.locate cwd (rootDirectory settings)) (Fs.disk w) with
         | Some (Fs.Dir es) =>
             (forall node,
                 In node results
                 <-> exists rel m,
                       FileActions.searched settings (JS.toLowerCase query)
                                            (Fs.Dir es) rel m
                       /\ node = FileActions.foundNode (rootDirectory settings) rel m)
             /\ (forall rel m,
                   FileActions.searched settings (JS.toLowerCase query)
                                        (Fs.Dir es) rel m ->
                   Fs.lookup
                     (Fs.locate cwd
                        (fn_path (FileActions.foundNode (rootDirectory settings) rel m)))
                     (Fs.disk w) = Some m)
             /\ exists markdown others,
                  results = (markdown ++ others)%list
                  /\ Forall (fun n => FileActions.markdownResult n = true) markdown
                  /\ Forall (fun n => FileActions.markdownResult n = false) others
                  /\ StronglySorted (FileActions.byName localeCompare) markdown
                  /\ StronglySorted (FileActions.byName localeCompare) others
         | _ => results = []
         end.
Proof.
  intros cwd settings localeCompare query w Htotal Htrans W.
  unfold FileActions.searchFiles, FileActions.searchInDirectory.
  unfold Fs.bind, Fs.try_catch, Fs.readdir, Fs.query, Fs.ret.
  destruct (Fs.lookup (Fs.locate cwd (rootDirectory settings)) (Fs.disk w))
    as [[c | es] |] eqn:L;
    try (eexists; split; reflexivity).
  eexists. split; [reflexivity |].
  assert (Wes : Fs.well_formed (Fs.Dir es) = true)
    by exact (well_formed_lookup _ _ _ W L).
  split; [| split].
  - intros node. rewrite <- (searchTree_spec settings _ _ Wes).
    split; intros H.
    + exact (Permutation_in _ (sortResults_perm localeCompare _) H).
    + exact (Permutation_in _ (Permutation_sym (sortResults_perm localeCompare _)) H).
  - intros rel m (NE & Lrel & _).
    pose proof (lookup_names rel _ _ Wes Lrel) as Hnames.
    assert (Hpath : fn_path (FileActions.foundNode (rootDirectory settings) rel m)
                    = Path.below (rootDirectory settings) rel).
    { unfold FileActions.foundNode. destruct (Fs.isDir m); reflexivity. }
    rewrite Hpath, (below_locate cwd _ rel Hnames).
    clear -L Lrel. revert L. generalize (Fs.disk w), (Fs.locate cwd (rootDirectory settings)).
    intros d segs. revert d. induction segs as [| s segs IH]; intros d L.
    + cbn in L |- *. injection L as ->. exact Lrel.
    + destruct d as [x | ds]; [discriminate |]. cbn [Fs.lookup app] in L |- *.
      destruct (Fs.assoc s ds) as [c |]; [| discriminate]. exact (IH c L).
  - apply sorted_markdown_first, sortResults_sorted; assumption.
Qed.

Lemma searchFiles_finds_exactly_witness :
  Fs.well_formed (Fs.disk sample_world) = true
  /\ exists results,
       FileActions.searchFiles "/" sample_settings codeUnitCompare "" sample_world
       = (Fs.Ok results, sample_world)
       /\ map fn_path results
          = ["/w/a.md"; "/w/b.md"; "/w/sub/inner"; "/w/notes.txt"; "/w/sub"].
Proof.
  split; [reflexivity |].
  destruct (searchFiles_finds_exactly "/" sample_settings codeUnitCompare ""
              sample_world codeUnitCompare_total codeUnitCompare_trans eq_refl)
    as (results & Hrun & _).
  exists results. split; [exact Hrun |].
  vm_compute in Hrun. injection Hrun as <-. reflexivity.
Defined.

(** ** Checking and listing directories *)


(** X26: [readDirectory] makes the directory it is asked to list when nothing is
    at its path, wherever the path is (it makes no sandbox check): the
    listing is empty, the path is an empty directory afterwards, and every
    file is as it was. *)
Theorem readDirectory_creates_a_missing_directory :
  forall (cwd : string) (settings : AppSettings)
         (localeCompare : string -> string -> Z) (dirPath : string)
         (w w' : Fs.World) (result : list FileNode),
    let target := Fs.locate cwd (JS.or_else dirPath (rootDirectory settings)) in
    Fs.lookup target (Fs.disk w) = None ->
    FileActions.readDirectory cwd settings localeCompare dirPath w = (Fs.Ok result, w') ->
    result = []
    /\ Fs.lookup target (Fs.disk w') = Some (Fs.Dir [])
    /\ (forall q c, Fs.lookup q (Fs.disk w) = Some (Fs.File c) ->
                    Fs.lookup q (Fs.disk w') = Some (Fs.File c))
    /\ Fs.recentFiles w' = Fs.recentFiles w.
Proof.
  intros cwd settings localeCompare dirPath w w' result target Hmissing H.
  unfold FileActions.readDirectory in H.
  rewrite (bind_ok _ _ _ _ _ (succeeds_access cwd _ w)) in H.
  fold target in H. rewrite Hmissing in H. cbn [negb] in H.
  apply bind_ok_inv in H as (u & w1 & Hmk & H).
  apply mkdir_recursive_ok_inv in Hmk as (d1 & Hmk & ->). fold target in Hmk.
  injection H as <- <-. cbn [Fs.disk Fs.with_disk Fs.recentFiles].
  split; [reflexivity |].
  split; [exact (mkdir_p_fresh_is_empty _ _ _ Hmk Hmissing) |].
  split; [| reflexivity].
  intros q c Hq. exact (mkdir_p_keeps_files _ _ _ Hmk q c Hq).
Qed.

Lemma readDirectory_creates_a_missing_directory_witness :
  Fs.lookup (Fs.locate "/" (JS.or_else "/tmp/new" (rootDirectory sample_settings)))
            (Fs.disk sample_world) = None
  /\ FileManagement.inSandbox "/" sample_settings "/tmp/new" = false
  /\ exists w',
       FileActions.readDirectory "/" sample_settings codeUnitCompare "/tmp/new"
                                 sample_world = (Fs.Ok [], w')
       /\ Fs.lookup ["tmp"; "new"] (Fs.disk w') = Some (Fs.Dir []).
Proof.
  split; [reflexivity |]. split; [reflexivity |].
  eexists. split; [vm_compute; reflexivity |].
  exact (proj1 (proj2 (readDirectory_creates_a_missing_directory "/" sample_settings
                         codeUnitCompare "/tmp/new" sample_world _ _
                         eq_refl eq_refl))).
Defined.

(** ** The content search of the executor *)

(** The matches [searchInFile] reports for a file. *)
Lemma searchInFile_total (cwd filePath : string) (query : option string) (w : Fs.World) :
  exists matches, ExecuteTool.searchInFile cwd filePath query w = (Fs.Ok matches, w).
Proof. eexists. apply searchInFile_run. Qed.

Lemma searchEach_spec (cwd root : string) (files : list string) (query : option string)
      (w : Fs.World) :
  exists results,
    ExecuteTool.searchEach cwd root files query w = (Fs.Ok results, w)
    /\ (forall r,
          In r results
          <-> In (ExecuteTool.fm_file r) files
              /\ ExecuteTool.fm_matches r <> []
              /\ ExecuteTool.searchInFile cwd (ExecuteTool.fm_file r) query w
                 = (Fs.Ok (ExecuteTool.fm_matches r), w)
              /\ ExecuteTool.fm_relativePath r
                 = Path.relative cwd root (ExecuteTool.fm_file r))
    /\ map ExecuteTool.fm_file results
       = filter (fun f =>
                   match fst (ExecuteTool.searchInFile cwd f query w) with
                   | Fs.Ok (_ :: _) => true
                   | _ => false
                   end) files.
Proof.
  induction files as [| f files (results & IH & Hspec & Horder)].
  - exists []. split; [reflexivity |]. split; [| reflexivity].
    intros r. split; [contradiction | intros [[] _]].
  - cbn [ExecuteTool.searchEach filter].
    destruct (searchInFile_total cwd f query w) as [matches Hrun].
    rewrite (bind_ok _ _ _ _ _ Hrun), (bind_ok _ _ _ _ _ IH). rewrite Hrun. cbn [fst].
    destruct matches as [| m ms].
    + exists results. split; [reflexivity |]. split; [| exact Horder].
      intros r. rewrite Hspec. split.
      * intros (Hin & H). split; [now right | exact H].
      * intros ([Hf | Hin] & Hne & Hr & Hrel);
          [| split; [exact Hin |]; split; [exact Hne |]; split; assumption].
        rewrite <- Hf, Hrun in Hr. injection Hr as Hr. congruence.
    + exists (ExecuteTool.mkFileMatches f (Path.relative cwd root f) (m :: ms) :: results).
      split; [reflexivity |]. split.
      * intros r. cbn [In]. rewrite Hspec. split.
        -- intros [<- | (Hin & H)].
           ++ cbn [ExecuteTool.fm_file ExecuteTool.fm_matches
                   ExecuteTool.fm_relativePath].
              split; [now left |]. split; [discriminate |]. split; [exact Hrun | reflexivity].
           ++ split; [now right | exact H].
        -- intros ([Hf | Hin] & Hne & Hr & Hrel).
           ++ left. destruct r as [file rel matches].
              cbn [ExecuteTool.fm_file ExecuteTool.fm_matches
                   ExecuteTool.fm_relativePath] in *.
              subst file rel. rewrite Hrun in Hr. injection Hr as <-. reflexivity.
           ++ right. split; [exact Hin |]. split; [exact Hne |]. split; assumption.
      * cbn [map ExecuteTool.fm_file]. now rewrite Horder.
Qed.

Lemma fold_left_sum {A} (f : A -> nat) (l : list A) (acc : nat) :
  fold_left (fun sum r => sum + f r) l acc = acc + list_sum (map f l).
Proof.
  revert acc. induction l as [| x l IH]; intros acc; simpl.
  - lia.
  - rewrite IH. unfold list_sum. lia.
Qed.

(** X27: An approved content search reports, in the order the markdown files
    were found, exactly the found files in which [searchInFile] finds a line,
    each with those lines and its path relative to the root; its counts are
    the number of files found, the number of files reported and the sum of
    the lines reported; it changes nothing. *)
Theorem content_search_reports_what_the_searches_find :
  forall (cwd : string) (localeCompare : string -> string -> Z)
         (root : string) (params : ExecuteTool.Parameters) (w : Fs.World),
    JS.truthy root = true ->
    let request :=
      ExecuteTool.mkRequest (Some "searchMarkdownContent") (Some params) (Some root) in
    exists files results,
      ExecuteTool.findMarkdownFiles cwd root (ExecuteTool.p_filePattern params) w
      = (Fs.Ok files, w)
      /\ ExecuteTool.POST cwd localeCompare (inr request) w
         = (Fs.Ok (ExecuteTool.ok_reply
                     (ExecuteTool.ContentData (ExecuteTool.p_query params) results
                        (List.length files) (List.length results)
                        (list_sum (map (fun r => List.length (ExecuteTool.fm_matches r))
                                       results)))), w)
      /\ (forall r,
            In r results
            <-> In (ExecuteTool.fm_file r) files
                /\ ExecuteTool.fm_matches r <> []
                /\ ExecuteTool.searchInFile cwd (ExecuteTool.fm_file r)
                     (ExecuteTool.p_query params) w
                   = (Fs.Ok (ExecuteTool.fm_matches r), w)
                /\ ExecuteTool.fm_relativePath r
                   = Path.relative cwd root (ExecuteTool.fm_file r))
      /\ map ExecuteTool.fm_file results
         = filter (fun f =>
                     match fst (ExecuteTool.searchInFile cwd f
                                  (ExecuteTool.p_query params) w) with
                     | Fs.Ok (_ :: _) => true
                     | _ => false
                     end) files.
Proof.
  intros cwd localeCompare root params w Hroot request.
  pose proof (findMarkdownFiles_run cwd root (ExecuteTool.p_filePattern params) w)
    as Hfiles.
  set (files := match Fs.lookup (Fs.locate cwd root) (Fs.disk w) with
                | Some (Fs.Dir es) => _
                | _ => []
                end) in Hfiles.
  destruct (searchEach_spec cwd root files (ExecuteTool.p_query params) w)
    as (results & Heach & Hspec & Horder).
  exists files, results. split; [exact Hfiles |]. split; [| split; assumption].
  assert (Hpost : ExecuteTool.POST cwd localeCompare (inr request) w
                  = Fs.try_catch (ExecuteTool.searchMarkdownContent cwd request)
                      (fun e => Fs.ret (ExecuteTool.error_reply 500
                                          (Fs.message_or "Internal server error" e))) w)
    by reflexivity.
  rewrite Hpost. apply try_catch_ok.
  unfold ExecuteTool.searchMarkdownContent, ExecuteTool.destructure,
    ExecuteTool.configuredRoot.
  cbn [request ExecuteTool.parameters ExecuteTool.requestRoot].
  unfold Fs.bind at 1. unfold Fs.ret at 1. cbv beta iota. rewrite Hroot.
  apply try_catch_ok.
  rewrite (bind_ok _ _ _ _ _ Hfiles), (bind_ok _ _ _ _ _ Heach).
  rewrite fold_left_sum. reflexivity.
Qed.

Lemma content_search_reports_what_the_searches_find_witness :
  JS.truthy "/w" = true
  /\ ExecuteTool.POST "/" codeUnitCompare
       (inr (ExecuteTool.mkRequest (Some "searchMarkdownContent")
               (Some (ExecuteTool.mkParameters None None (Some "tit") None))
               (Some "/w"))) sample_world
     = (Fs.Ok (ExecuteTool.ok_reply
                 (ExecuteTool.ContentData (Some "tit")
                    [ExecuteTool.mkFileMatches "/w/a.md" "a.md"
                       [ExecuteTool.mkMatch 1 "# Title"]] 2 1 1)), sample_world).
Proof.
  split; [reflexivity |].
  destruct (content_search_reports_what_the_searches_find "/" codeUnitCompare "/w"
              (ExecuteTool.mkParameters None None (Some "tit") None) sample_world
              eq_refl) as (files & results & Hfiles & Hpost & _).
  rewrite Hpost. vm_compute in Hfiles. injection Hfiles as <-.
  vm_compute in Hpost. injection Hpost as <-. reflexivity.
Defined.

(** ** Opening and closing every folder *)

Lemma has_In (s : list string) (p : string) : AppStore.has s p = true <-> In p s.
Proof.
  unfold AppStore.has. rewrite existsb_exists. split.
  - intros (q & Hin & E). apply String.eqb_eq in E. now subst q.
  - intros Hin. exists p. split; [exact Hin | apply String.eqb_refl].
Qed.

Lemma FileNode_induction (P : FileNode -> Prop) :
  (forall name path type extension,
      P (mkFileNode name path type extension None)) ->
  (forall name path type extension items,
      Forall P items -> P (mkFileNode name path type extension (Some items))) ->
  forall n, P n.
Proof.
  intros Hleaf Hnode.
  fix IH 1. intros [name path type extension [items |]]; [| apply Hleaf].
  apply Hnode. induction items as [| item items IHitems]; constructor.
  - apply IH.
  - exact IHitems.
Qed.

Lemma folderAmong_cons (n : FileNode) (nodes : list FileNode) (p : string) :
  AppStore.folderAmong (n :: nodes) p
  <-> AppStore.folderAmong [n] p \/ AppStore.folderAmong nodes p.
Proof.
  split.
  - intros H. inversion H as [ns m Hin Hdir | ns m items q Hin Hdir Hch Hbelow]; subst.
    + destruct Hin as [<- | Hin].
      * left. apply AppStore.folder_here; [now left | exact Hdir].
      * right. now apply AppStore.folder_here.
    + destruct Hin as [<- | Hin].
      * left. eapply AppStore.folder_below; eauto. now left.
      * right. eapply AppStore.folder_below; eauto.
  - intros [H | H].
    + inversion H as [ns m Hin Hdir | ns m items q Hin Hdir Hch Hbelow]; subst.
      * destruct Hin as [<- | []]. apply AppStore.folder_here; [now left | exact Hdir].
      * destruct Hin as [<- | []]. eapply AppStore.folder_below; eauto. now left.
    + inversion H as [ns m Hin Hdir | ns m items q Hin Hdir Hch Hbelow]; subst.
      * apply AppStore.folder_here; [now right | exact Hdir].
      * eapply AppStore.folder_below; eauto. now right.
Qed.

Lemma folderAmong_nil (p : string) : ~ AppStore.folderAmong [] p.
Proof. intros H. inversion H; contradiction. Qed.

Lemma folderPathsOf_spec (n : FileNode) (p : string) :
  In p (AppStore.folderPathsOf n) <-> AppStore.folderAmong [n] p.
Proof.
  revert p. induction n as [name path type extension | name path type extension items IH]
    using FileNode_induction; intros p.
  - destruct type; cbn [AppStore.folderPathsOf].
    + split; [contradiction |]. intros H.
      inversion H as [ns m Hin Hdir | ns m items q Hin Hdir Hch Hbelow]; subst;
        destruct Hin as [<- | []]; discriminate.
    + rewrite app_nil_r || idtac. split.
      * intros [<- | []].
        apply (AppStore.folder_here [_] (mkFileNode name path directory extension None));
          [now left | reflexivity].
      * intros H.
        inversion H as [ns m Hin Hdir | ns m items q Hin Hdir Hch Hbelow]; subst;
          destruct Hin as [<- | []]; [now left | discriminate].
  - destruct type; cbn [AppStore.folderPathsOf].
    + split; [contradiction |]. intros H.
      inversion H as [ns m Hin Hdir | ns m its q Hin Hdir Hch Hbelow]; subst;
        destruct Hin as [<- | []]; discriminate.
    + assert (Hitems : forall q, In q (flat_map AppStore.folderPathsOf items)
                                 <-> AppStore.folderAmong items q).
      { intros q. induction items as [| item items IHitems].
        - split; [contradiction | intros H; now apply folderAmong_nil in H].
        - cbn [flat_map]. rewrite in_app_iff, folderAmong_cons.
          inversion IH as [| ? ? Hitem Hrest]; subst.
          rewrite (Hitem q), (IHitems Hrest). reflexivity. }
      cbn [In]. rewrite Hitems. split.
      * intros [<- | Hbelow].
        -- apply (AppStore.folder_here [_]
                    (mkFileNode name path directory extension (Some items)));
             [now left | reflexivity].
        -- eapply AppStore.folder_below; [now left | reflexivity | reflexivity | exact Hbelow].
      * intros H.
        inversion H as [ns m Hin Hdir | ns m its q Hin Hdir Hch Hbelow]; subst;
          destruct Hin as [<- | []].
        -- now left.
        -- right. cbn [fn_children] in Hch. injection Hch as <-. exact Hbelow.
Qed.

Lemma getAllFolderPaths_spec (nodes : list FileNode) (p : string) :
  In p (AppStore.getAllFolderPaths nodes) <-> AppStore.folderAmong nodes p.
Proof.
  unfold AppStore.getAllFolderPaths. induction nodes as [| n nodes IH].
  - split; [contradiction | intros H; now apply folderAmong_nil in H].
  - cbn [flat_map]. rewrite in_app_iff, folderAmong_cons, folderPathsOf_spec, IH.
    reflexivity.
Qed.

Lemma newSet_NoDup (l : list string) : NoDup (AppStore.newSet l).
Proof.
  unfold AppStore.newSet.
  assert (H : forall acc, NoDup acc -> NoDup (fold_left AppStore.add l acc)).
  { induction l as [| x l IH]; intros acc Hacc; cbn [fold_left]; [exact Hacc |].
    apply IH. unfold AppStore.add. destruct (AppStore.has acc x) eqn:Hx; [exact Hacc |].
    apply NoDup_app; [exact Hacc | repeat constructor; intros [] |].
    intros q Hq [<- | []]. apply has_In in Hq. congruence. }
  apply H. constructor.
Qed.

(** X28: [expandAll] opens exactly the folders of the tree, at every depth and
    whatever was open before, each once; [collapseAll] leaves none open; a
    folder toggled after [expandAll] is closed and the others stay open. *)
Theorem expandAll_opens_exactly_the_folders :
  forall (files : list FileNode) (q : string),
    (AppStore.has (AppStore.expandAll files) q = true
     <-> AppStore.folderAmong files q)
    /\ NoDup (AppStore.expandAll files)
    /\ AppStore.has AppStore.collapseAll q = false
    /\ (forall path,
          AppStore.has (AppStore.toggleFolder path (AppStore.expandAll files)) q = true
          <-> AppStore.folderAmong files q /\ q <> path
              \/ q = path /\ ~ AppStore.folderAmong files path).
Proof.
  intros files q.
  assert (Hall : forall p, AppStore.has (AppStore.expandAll files) p = true
                           <-> AppStore.folderAmong files p).
  { intros p. unfold AppStore.expandAll.
    rewrite has_newSet, has_In. apply getAllFolderPaths_spec. }
  split; [apply Hall |]. split; [apply newSet_NoDup |]. split; [reflexivity |].
  intros path. unfold AppStore.toggleFolder.
  destruct (AppStore.has (AppStore.newSet (AppStore.expandAll files)) path) eqn:Hp.
  - rewrite has_delete, has_newSet, andb_true_iff, negb_true_iff, Hall.
    rewrite has_newSet in Hp. apply Hall in Hp.
    destruct (String.eqb_spec path q) as [-> | NE].
    + split; [intros [_ H]; discriminate |].
      intros [[_ H] | [_ H]]; [now contradiction H | contradiction].
    + split.
      * intros [H _]. left. split; [exact H | congruence].
      * intros [[H _] | [E _]]; [now split | congruence].
  - rewrite has_add, has_newSet, orb_true_iff, Hall.
    rewrite has_newSet in Hp.
    assert (Hnot : ~ AppStore.folderAmong files path).
    { intros H. apply Hall in H. congruence. }
    destruct (String.eqb_spec path q) as [-> | NE].
    + split; [intros _; right; now split |]. intros _. now right.
    + split.
      * intros [H | H]; [| discriminate]. left. split; [exact H | congruence].
      * intros [[H _] | [E _]]; [now left | congruence].
Qed.

(** ** Resolving wiki links *)

Lemma normalize_truthy (p : string) : JS.truthy (Path.normalize p) = true.
Proof.
  unfold Path.normalize. destruct (p =? ""); [reflexivity |].
  destruct (Path.normalizeString p (negb (Path.isAbsolute p))) as [| c body].
  - cbn [String.eqb]. now destruct (Path.isAbsolute p), (JS.endsWith p Path.sep).
  - cbn [String.eqb]. now destruct (Path.isAbsolute p).
Qed.

Lemma join_truthy (a b : string) : JS.truthy (Path.join a b) = true.
Proof.
  unfold Path.join.
  destruct ((if a =? "" then b else if b =? "" then a else a ++ Path.sep ++ b) =? "");
    [reflexivity | apply normalize_truthy].
Qed.

Lemma lookup_app (a b : list string) (d n : Fs.Node) :
  Fs.lookup a d = Some n -> Fs.lookup (a ++ b)%list d = Fs.lookup b n.
Proof.
  revert d. induction a as [| s a IH]; intros d L.
  - cbn in L |- *. now injection L as ->.
  - destruct d as [x | ds]; [discriminate |]. cbn [Fs.lookup app] in L |- *.
    destruct (Fs.assoc s ds) as [c |]; [| discriminate]. exact (IH c L).
Qed.

Section WikiLinks.

Variable cwd : string.
Variable settings : AppSettings.

Local Abbreviation findByName := (FileActions.findByName settings).
Local Abbreviation named := (FileActions.named settings).

Lemma findByName_cons (fileName dirPath name : string) (c : Fs.Node)
      (rest : list (string * Fs.Node)) :
  findByName fileName dirPath (Fs.Dir ((name, c) :: rest))
  = if FileActions.shouldExclude name (Fs.isDir c) settings
    then findByName fileName dirPath (Fs.Dir rest)
    else if negb (Fs.isDir c) && (JS.toLowerCase name =? JS.toLowerCase fileName)
    then Some (Path.join dirPath name)
    else if Fs.isDir c then
      if negb (FileActions.unresolved
                 (findByName fileName (Path.join dirPath name) c))
      then findByName fileName (Path.join dirPath name) c
      else findByName fileName dirPath (Fs.Dir rest)
    else findByName fileName dirPath (Fs.Dir rest).
Proof. reflexivity. Qed.

(** What the loop returns comes from one entry of the directory, and is
    never the empty string. *)
Lemma findByName_from_entry (fileName dirPath p : string) (es : list (string * Fs.Node)) :
  findByName fileName dirPath (Fs.Dir es) = Some p ->
  JS.truthy p = true
  /\ exists name c,
       In (name, c) es
       /\ FileActions.shouldExclude name (Fs.isDir c) settings = false
       /\ ((Fs.isDir c = false
            /\ JS.toLowerCase name = JS.toLowerCase fileName
            /\ p = Path.join dirPath name)
           \/ (Fs.isDir c = true
               /\ findByName fileName (Path.join dirPath name) c = Some p)).
Proof.
  induction es as [| [name c] rest IH]; [discriminate |].
  rewrite findByName_cons. intros H.
  assert (Hrest : findByName fileName dirPath (Fs.Dir rest) = Some p ->
                  JS.truthy p = true
                  /\ exists entry node,
                       In (entry, node) ((name, c) :: rest)%list
                       /\ FileActions.shouldExclude entry (Fs.isDir node) settings
                          = false
                       /\ ((Fs.isDir node = false
                            /\ JS.toLowerCase entry = JS.toLowerCase fileName
                            /\ p = Path.join dirPath entry)
                           \/ (Fs.isDir node = true
                               /\ findByName fileName (Path.join dirPath entry) node
                                  = Some p))).
  { intros Hr. destruct (IH Hr) as (Ht & entry & node & Hin & Hex & Hcase).
    split; [exact Ht |]. exists entry, node. split; [now right | now split]. }
  destruct (FileActions.shouldExclude name (Fs.isDir c) settings) eqn:Hex;
    [exact (Hrest H) |].
  destruct (Fs.isDir c) eqn:Hdir; cbn [negb andb] in H.
  - destruct (findByName fileName (Path.join dirPath name) c) as [found |] eqn:Hfound;
      cbn [FileActions.unresolved] in H.
    + destruct (JS.truthy found) eqn:Ht; cbn [negb] in H; [| exact (Hrest H)].
      injection H as <-. split; [exact Ht |].
      exists name, c. split; [now left |]. split; [now rewrite Hdir |].
      right. now split.
    + cbn [negb] in H. exact (Hrest H).
  - destruct (JS.toLowerCase name =? JS.toLowerCase fileName) eqn:E; [| exact (Hrest H)].
    injection H as <-. split; [apply join_truthy |].
    exists name, c. split; [now left |]. split; [now rewrite Hdir |].
    left. split; [exact Hdir |]. split; [now apply String.eqb_eq | reflexivity].
Qed.

(** An entry that matches, or a folder in which the walk finds a file,
    makes the loop return a path. *)
Lemma findByName_finds (fileName dirPath name : string) (c : Fs.Node)
      (es : list (string * Fs.Node)) :
  In (name, c) es ->
  FileActions.shouldExclude name (Fs.isDir c) settings = false ->
  (Fs.isDir c = false /\ JS.toLowerCase name = JS.toLowerCase fileName)
  \/ (Fs.isDir c = true
      /\ exists p, findByName fileName (Path.join dirPath name) c = Some p) ->
  exists p, findByName fileName dirPath (Fs.Dir es) = Some p.
Proof.
  intros Hin Hex Hcase. induction es as [| [name' c'] rest IH]; [contradiction |].
  rewrite findByName_cons. destruct Hin as [E | Hin].
  - injection E as -> ->. rewrite Hex. destruct Hcase as [[Hdir E] | [Hdir (p & Hp)]].
    + rewrite Hdir, E, String.eqb_refl. cbn [negb andb]. eauto.
    + rewrite Hdir. cbn [negb andb]. rewrite Hp. cbn [FileActions.unresolved].
      destruct (findByName_from_entry fileName (Path.join dirPath name) p
                  (match c with Fs.Dir ds => ds | Fs.File _ => [] end)) as [Ht _].
      { destruct c; [discriminate | exact Hp]. }
      rewrite Ht. cbn [negb]. eauto.
  - destruct (FileActions.shouldExclude name' (Fs.isDir c') settings); [now apply IH |].
    destruct (negb (Fs.isDir c') && (JS.toLowerCase name' =? JS.toLowerCase fileName));
      [eauto |].
    destruct (Fs.isDir c'); [| now apply IH].
    destruct (negb (FileActions.unresolved
                      (findByName fileName (Path.join dirPath name') c'))) eqn:Hu;
      [| now apply IH].
    destruct (findByName fileName (Path.join dirPath name') c') as [found |];
      [eauto | discriminate].
Qed.

(** The walk is sound and complete for the files it looks for. *)
Lemma findByName_spec (fileName : string) (n : Fs.Node) :
  Fs.well_formed n = true ->
  forall dirPath,
    (forall p, findByName fileName dirPath n = Some p ->
               exists rel, named fileName n rel /\ p = Path.below dirPath rel)
    /\ ((exists rel, named fileName n rel) ->
        exists p, findByName fileName dirPath n = Some p).
Proof.
  induction n as [c | es IH] using Node_induction; intros W dirPath.
  - split; [discriminate |].
    intros (rel & NE & (content & L) & _). destruct rel; [congruence | discriminate].
  - destruct (well_formed_entries es W) as [Hall _]. split.
    + intros p Hp.
      destruct (findByName_from_entry _ _ _ _ Hp)
        as (_ & name & c & Hin & Hex & Hcase).
      pose proof (proj1 (Forall_forall _ _) Hall _ Hin) as [_ Wc]. cbn [snd] in Wc.
      pose proof (proj1 (assoc_In_iff es name c W) Hin) as A.
      destruct Hcase as [(Hdir & E & ->) | (Hdir & Hsub)].
      * exists [name]. split; [| reflexivity].
        destruct c as [content | ds]; [| discriminate].
        split; [discriminate |].
        split; [exists content; cbn [Fs.lookup]; now rewrite A |].
        cbn [last removelast]. split; [constructor |]. now split.
      * pose proof (proj1 (Forall_forall _ _) IH _ Hin) as IHc. cbn [snd] in IHc.
        destruct (proj1 (IHc Wc (Path.join dirPath name)) p Hsub)
          as (rel & (NE & (content & L) & Hway & Hlast & Hname) & ->).
        exists (name :: rel). split; [| reflexivity].
        split; [discriminate |].
        split; [exists content; cbn [Fs.lookup]; now rewrite A |].
        rewrite last_cons_nonempty, removelast_cons_nonempty by exact NE.
        rewrite Hdir in Hex. split; [now constructor |]. now split.
    + intros (rel & NE & (content & L) & Hway & Hlast & Hname).
      destruct rel as [| name rel]; [congruence |]. cbn [Fs.lookup] in L.
      destruct (Fs.assoc name es) as [c |] eqn:A; [| discriminate].
      pose proof (proj2 (assoc_In_iff es name c W) A) as Hin.
      pose proof (proj1 (Forall_forall _ _) Hall _ Hin) as [_ Wc]. cbn [snd] in Wc.
      destruct rel as [| s rel'].
      * cbn [Fs.lookup] in L. injection L as ->. cbn [last] in Hlast, Hname.
        apply (findByName_finds fileName dirPath name (Fs.File content) es Hin Hlast).
        left. now split.
      * destruct c as [x | ds]; [discriminate |].
        rewrite removelast_cons_nonempty in Hway by discriminate.
        rewrite last_cons_nonempty in Hlast, Hname by discriminate.
        inversion Hway as [| ? ? Hfolder Hway']; subst.
        apply (findByName_finds fileName dirPath name (Fs.Dir ds) es Hin Hfolder).
        right. split; [reflexivity |].
        pose proof (proj1 (Forall_forall _ _) IH _ Hin) as IHc. cbn [snd] in IHc.
        apply (IHc Wc (Path.join dirPath name)).
        exists (s :: rel'). split; [discriminate |].
        split; [now exists content |]. now split.
Qed.

Lemma findFileByName_run (fileName dirPath : string) (w : Fs.World) :
  FileActions.findFileByName cwd settings fileName dirPath w
  = (Fs.Ok (match Fs.lookup (Fs.locate cwd dirPath) (Fs.disk w) with
            | Some (Fs.Dir es) => findByName fileName dirPath (Fs.Dir es)
            | _ => None
            end), w).
Proof.
  unfold FileActions.findFileByName, Fs.try_catch, Fs.bind, Fs.readdir, Fs.query.
  now destruct (Fs.lookup (Fs.locate cwd dirPath) (Fs.disk w)) as [[c | es] |].
Qed.

Lemma attempt_run (joined : string) (resolvedPath : option string) (w : Fs.World) :
  FileActions.attempt cwd settings joined resolvedPath w
  = (Fs.Ok (if JS.startsWith (Path.resolve cwd joined)
                             (Path.resolve cwd (rootDirectory settings))
               && match Fs.lookup (Path.resolveSegs cwd joined) (Fs.disk w) with
                  | Some _ => true
                  | None => false
                  end
            then Some (Path.resolve cwd joined) else resolvedPath), w).
Proof.
  unfold FileActions.attempt.
  destruct (JS.startsWith (Path.resolve cwd joined)
                          (Path.resolve cwd (rootDirectory settings))); [| reflexivity].
  rewrite (bind_ok _ _ _ _ _ (succeeds_access cwd (Path.resolve cwd joined) w)).
  rewrite locate_resolve. cbn [andb].
  now destruct (Fs.lookup (Path.resolveSegs cwd joined) (Fs.disk w)).
Qed.

Local Abbreviation settled w x :=
  (forall p, x = Some p ->
             JS.truthy p = true
             /\ Fs.lookup (Fs.locate cwd p) (Fs.disk w) <> None
             /\ JS.startsWith (Path.resolve cwd p)
                              (Path.resolve cwd (rootDirectory settings)) = true).

Lemma resolve_truthy (p : string) : JS.truthy (Path.resolve cwd p) = true.
Proof. reflexivity. Qed.

Lemma attempt_settles (joined : string) (resolvedPath : option string) (w : Fs.World) :
  settled w resolvedPath ->
  exists x,
    FileActions.attempt cwd settings joined resolvedPath w = (Fs.Ok x, w)
    /\ settled w x
    /\ (JS.startsWith (Path.resolve cwd joined)
                      (Path.resolve cwd (rootDirectory settings)) = true ->
        Fs.lookup (Fs.locate cwd (Path.resolve cwd joined)) (Fs.disk w) <> None ->
        x = Some (Path.resolve cwd joined)).
Proof.
  intros Hprev. eexists. split; [apply attempt_run |].
  rewrite locate_resolve.
  destruct (JS.startsWith (Path.resolve cwd joined)
                          (Path.resolve cwd (rootDirectory settings))) eqn:Hin;
    cbn [andb]; [| split; [exact Hprev | discriminate]].
  destruct (Fs.lookup (Path.resolveSegs cwd joined) (Fs.disk w)) as [n |] eqn:L.
  - split; [| reflexivity]. intros p [= <-].
    split; [apply resolve_truthy |]. rewrite locate_resolve, resolve_resolve, L.
    split; [discriminate | exact Hin].
  - split; [exact Hprev | congruence].
Qed.

Lemma found_settles (fileName : string) (w : Fs.World) :
  Fs.well_formed (Fs.disk w) = true ->
  exists found,
    FileActions.findFileByName cwd settings fileName (rootDirectory settings) w
    = (Fs.Ok found, w)
    /\ settled w found
    /\ (forall es rel,
          Fs.lookup (Fs.locate cwd (rootDirectory settings)) (Fs.disk w)
          = Some (Fs.Dir es) ->
          named fileName (Fs.Dir es) rel ->
          FileActions.unresolved found = false).
Proof.
  intros W. eexists. split; [apply findFileByName_run |].
  destruct (Fs.lookup (Fs.locate cwd (rootDirectory settings)) (Fs.disk w))
    as [[c | es] |] eqn:L; try (split; [discriminate | intros ? ? [=]]).
  assert (Wes : Fs.well_formed (Fs.Dir es) = true)
    by exact (well_formed_lookup _ _ _ W L).
  destruct (findByName_spec fileName (Fs.Dir es) Wes (rootDirectory settings))
    as [Hsound Hcomplete].
  split.
  - intros p Hp. destruct (findByName_from_entry _ _ _ _ Hp) as [Ht _].
    split; [exact Ht |].
    destruct (Hsound p Hp) as (rel & (NE & (content & Lrel) & _) & ->).
    pose proof (lookup_names rel _ _ Wes Lrel) as Hnames.
    rewrite (below_locate cwd _ rel Hnames). split.
    + rewrite (lookup_app _ rel _ _ L), Lrel. discriminate.
    + unfold Path.resolve. fold (Fs.locate cwd (Path.below (rootDirectory settings) rel)).
      rewrite (below_locate cwd _ rel Hnames). unfold Fs.locate, Path.render.
      destruct (concat_app_prefix (Path.resolveSegs cwd (rootDirectory settings)) rel)
        as (t & ->).
      rewrite <- append_assoc. apply startsWith_prefix.
  - intros es' rel [= <-] Hnamed.
    destruct (Hcomplete (ex_intro _ rel Hnamed)) as (p & Hp).
    destruct (findByName_from_entry _ _ _ _ Hp) as [Ht _].
    rewrite Hp. cbn [FileActions.unresolved]. now rewrite Ht.
Qed.

Lemma truthy_nonempty_false (s : string) : JS.truthy s = false -> s = "".
Proof.
  unfold JS.truthy. destruct (String.eqb_spec s ""); [trivial | discriminate].
Qed.

Lemma truthy_nonempty (s : string) : JS.truthy s = true <-> s <> "".
Proof.
  unfold JS.truthy. destruct (String.eqb_spec s ""); cbn [negb]; split; congruence.
Qed.

(** X29: [resolveWikiLink] on a well-formed disk always answers and changes
    nothing.  A blank link is not resolved.  A link that is resolved points
    at an entry that exists and passes the prefix test of the sandbox, and
    is marked as markdown by its extension.  The file next to the current
    one comes first: when the target joined to the directory of the current
    file passes the test and exists, it is the answer.  A link whose base
    name is, ignoring case, the name of a file below the root that the
    exclusions do not hide is always resolved. *)
Theorem resolveWikiLink_settles_on_an_existing_entry :
  forall (linkTarget : string) (currentFilePath : option string) (w : Fs.World),
    Fs.well_formed (Fs.disk w) = true ->
    exists r,
      FileActions.resolveWikiLink cwd settings linkTarget currentFilePath w
      = (Fs.Ok r, w)
      /\ (JS.trim linkTarget = "" -> r = None)
      /\ (forall link,
            r = Some link ->
            FileActions.wl_exists link = true
            /\ Fs.lookup (Fs.locate cwd (FileActions.wl_path link)) (Fs.disk w) <> None
            /\ JS.startsWith (Path.resolve cwd (FileActions.wl_path link))
                             (Path.resolve cwd (rootDirectory settings)) = true
            /\ FileActions.wl_isMarkdown link
               = Config.isMarkdownFile (FileActions.wl_path link))
      /\ (forall current,
            currentFilePath = Some current -> current <> "" ->
            JS.trim linkTarget <> "" ->
            let next :=
              Path.resolve cwd
                (Path.join (Path.dirname_any current) (JS.trim linkTarget)) in
            JS.startsWith next (Path.resolve cwd (rootDirectory settings)) = true ->
            Fs.lookup (Fs.locate cwd next) (Fs.disk w) <> None ->
            exists link, r = Some link /\ FileActions.wl_path link = next)
      /\ (forall es rel,
            JS.trim linkTarget <> "" ->
            Fs.lookup (Fs.locate cwd (rootDirectory settings)) (Fs.disk w)
            = Some (Fs.Dir es) ->
            named (Path.basename (JS.trim linkTarget)) (Fs.Dir es) rel ->
            r <> None).
Proof.
  intros linkTarget currentFilePath w W. unfold FileActions.resolveWikiLink.
  destruct (JS.truthy (JS.trim linkTarget)) eqn:Hclean; cbn [negb].
  2: { exists None. apply truthy_nonempty_false in Hclean.
       split; [reflexivity |]. split; [reflexivity |].
       split; [discriminate |]. split; [| intros; congruence].
       intros; congruence. }
  set (clean := JS.trim linkTarget) in *.
  (* the attempt beside the current file *)
  assert (H1 : exists x,
             match currentFilePath with
             | Some current =>
                 if JS.truthy current
                 then FileActions.attempt cwd settings
                        (Path.join (Path.dirname_any current) clean) None
                 else Fs.ret None
             | None => Fs.ret None
             end w = (Fs.Ok x, w)
             /\ settled w x
             /\ (forall current,
                   currentFilePath = Some current -> current <> "" ->
                   JS.startsWith
                     (Path.resolve cwd (Path.join (Path.dirname_any current) clean))
                     (Path.resolve cwd (rootDirectory settings)) = true ->
                   Fs.lookup
                     (Fs.locate cwd
                        (Path.resolve cwd (Path.join (Path.dirname_any current) clean)))
                     (Fs.disk w) <> None ->
                   x = Some (Path.resolve cwd
                               (Path.join (Path.dirname_any current) clean)))).
  { destruct currentFilePath as [current |].
    - destruct (JS.truthy current) eqn:Hcur.
      + destruct (attempt_settles (Path.join (Path.dirname_any current) clean) None w)
          as (x & Hrun & Hx & Hfirst); [discriminate |].
        exists x. split; [exact Hrun |]. split; [exact Hx |].
        intros ? [= <-] _. exact Hfirst.
      + exists None. split; [reflexivity |]. split; [discriminate |].
        intros ? [= <-] NE. apply truthy_nonempty in NE. congruence.
    - exists None. split; [reflexivity |]. split; discriminate. }
  destruct H1 as (x1 & Hrun1 & Hx1 & Hfirst).
  (* the attempt from the root *)
  assert (H2 : exists x,
             (if FileActions.unresolved x1
              then FileActions.attempt cwd settings
                     (Path.join (rootDirectory settings) clean) x1
              else Fs.ret x1) w = (Fs.Ok x, w)
             /\ settled w x
             /\ (FileActions.unresolved x1 = false -> x = x1)).
  { destruct (FileActions.unresolved x1).
    - destruct (attempt_settles (Path.join (rootDirectory settings) clean) x1 w Hx1)
        as (x & Hrun & Hx & _).
      exists x. split; [exact Hrun |]. split; [exact Hx | discriminate].
    - exists x1. split; [reflexivity |]. split; [exact Hx1 | reflexivity]. }
  destruct H2 as (x2 & Hrun2 & Hx2 & Hkeep2).
  (* the search by name *)
  destruct (found_settles (Path.basename clean) w W) as (found & Hfind & Hfound & Hnamed).
  set (x3 := if FileActions.unresolved x2
             then (if negb (FileActions.unresolved found) then found else x2)
             else x2).
  assert (Hrun3 : (if FileActions.unresolved x2
                   then Fs.bind (FileActions.findFileByName cwd settings
                                   (Path.basename clean) (rootDirectory settings))
                          (fun found =>
                             Fs.ret (if negb (FileActions.unresolved found)
                                     then found else x2))
                   else Fs.ret x2) w = (Fs.Ok x3, w)).
  { subst x3. destruct (FileActions.unresolved x2); [| reflexivity].
    now rewrite (bind_ok _ _ _ _ _ Hfind). }
  assert (Hx3 : settled w x3).
  { subst x3. destruct (FileActions.unresolved x2); [| exact Hx2].
    destruct (negb (FileActions.unresolved found)); assumption. }
  set (r := match x3 with
            | Some q =>
                if FileActions.unresolved x3 then None
                else Some (FileActions.mkWikiLink q true (Config.isMarkdownFile q))
            | None => None
            end).
  assert (Hrun : Fs.try_catch
                    (Fs.bind
                       match currentFilePath with
                       | Some current =>
                           if JS.truthy current
                           then FileActions.attempt cwd settings
                                  (Path.join (Path.dirname_any current) clean) None
                           else Fs.ret None
                       | None => Fs.ret None
                       end
                       (fun fromCurrent =>
                          Fs.bind
                            (if FileActions.unresolved fromCurrent
                             then FileActions.attempt cwd settings
                                    (Path.join (rootDirectory settings) clean)
                                    fromCurrent
                             else Fs.ret fromCurrent)
                            (fun fromRoot =>
                               Fs.bind
                                 (if FileActions.unresolved fromRoot
                                  then Fs.bind
                                         (FileActions.findFileByName cwd settings
                                            (Path.basename clean)
                                            (rootDirectory settings))
                                         (fun found =>
                                            Fs.ret
                                              (if negb (FileActions.unresolved found)
                                               then found else fromRoot))
                                  else Fs.ret fromRoot)
                                 (fun resolvedPath =>
                                    match resolvedPath with
                                    | Some p =>
                                        if FileActions.unresolved resolvedPath
                                        then Fs.ret None
                                        else
                                          Fs.ret
                                            (Some
                                               (FileActions.mkWikiLink p true
                                                  (existsb
                                                     (fun e =>
                                                        e =? JS.toLowerCase
                                                               (Path.extname p))
                                                     [".md"; ".mdx"; ".markdown"])))
                                    | None => Fs.ret None
                                    end))))
                    (fun _ => Fs.ret None) w
                  = (Fs.Ok r, w)).
  { apply try_catch_ok.
    rewrite (bind_ok _ _ _ _ _ Hrun1), (bind_ok _ _ _ _ _ Hrun2),
      (bind_ok _ _ _ _ _ Hrun3).
    subst r. destruct x3 as [q |]; [| reflexivity].
    destruct (FileActions.unresolved (Some q)); reflexivity. }
  assert (Hsome : forall p, x3 = Some p ->
                    r = Some (FileActions.mkWikiLink p true (Config.isMarkdownFile p))).
  { intros p E. destruct (Hx3 p E) as (Ht & _). subst r. rewrite E.
    cbn [FileActions.unresolved]. now rewrite Ht. }
  assert (Hinv : forall link, r = Some link ->
                   exists p, x3 = Some p
                             /\ link = FileActions.mkWikiLink p true
                                         (Config.isMarkdownFile p)).
  { intros link. subst r. destruct x3 as [p |]; [| discriminate].
    destruct (FileActions.unresolved (Some p)); [discriminate |].
    intros [= <-]. eauto. }
  clearbody r. exists r. split; [exact Hrun |].
  split; [intros E; apply truthy_nonempty in Hclean; congruence |].
  split; [| split].
  - intros link Hlink. destruct (Hinv link Hlink) as (p & E3 & ->).
    cbn [FileActions.wl_exists FileActions.wl_path FileActions.wl_isMarkdown].
    destruct (Hx3 p E3) as (_ & Hthere & Hin). now repeat split.
  - intros current Ecur NE _ Hin Hthere.
    pose proof (Hfirst current Ecur NE Hin Hthere) as E1.
    set (next := Path.resolve cwd (Path.join (Path.dirname_any current) clean)) in *.
    assert (U1 : FileActions.unresolved x1 = false).
    { rewrite E1. reflexivity. }
    pose proof (Hkeep2 U1) as E2.
    assert (E3 : x3 = Some next).
    { subst x3. rewrite E2, U1. exact E1. }
    rewrite (Hsome next E3). eexists. split; reflexivity.
  - intros es rel _ L Hn.
    pose proof (Hnamed es rel L Hn) as U.
    assert (exists p, x3 = Some p) as (p & E3).
    { subst x3. destruct (FileActions.unresolved x2) eqn:U2.
      - rewrite U. cbn [negb]. destruct found as [p |]; [eauto | discriminate].
      - destruct x2 as [p |]; [eauto | discriminate]. }
    rewrite (Hsome p E3). discriminate.
Qed.

End WikiLinks.

Lemma resolveWikiLink_settles_on_an_existing_entry_witness :
  Fs.well_formed (Fs.disk sample_world) = true
  /\ FileActions.resolveWikiLink "/" sample_settings " B.MD " (Some "/w/sub/x.md")
       sample_world
     = (Fs.Ok (Some (FileActions.mkWikiLink "/w/b.md" true true)), sample_world).
Proof.
  split; [reflexivity |].
  destruct (resolveWikiLink_settles_on_an_existing_entry "/" sample_settings
              " B.MD " (Some "/w/sub/x.md") sample_world eq_refl)
    as (r & Hrun & _).
  rewrite Hrun. vm_compute in Hrun. injection Hrun as <-. reflexivity.
Defined.
